(** * thanos-rule-syncer: retrying transport, tenant fetcher, tenant reloader

    A shallow embedding of the pieces of the syncer that carry its failure
    handling, and of what feeds and starts them:

    - [RoundTrip] of the retrying transport [RetryableTransport],
    - [GetTenantsRules], [GetAllRules] and [SetTenants] of the rules fetcher
      (fetcher.go),
    - [newTenantsFileReloader], [readTenantsFile] and [scanFile] (tenant.go),
      with the [scanFile] of the earlier, line-based tenants file,
    - [main] with [configureRulesObjtoreFetcher], its sync loop and
      [reloadThanosRule] (main.go).

    Time is a virtual clock counted in nanoseconds, goroutine interleavings
    are schedules given as data, and everything the Go runtime, the machine or
    the network decides (responses, how long a request takes, how late a
    sleeping goroutine is woken, random numbers, which ready case a [select]
    takes, the order of a [range] over a map, what a file holds) is an
    explicit input. *)

From Stdlib Require Import ZArith List Ascii String Bool Lia Permutation PeanoNat.
Import ListNotations.

Local Open Scope string_scope.
Local Open Scope Z_scope.

(** ** Go integers and durations *)

Module Go.

(** [int64] arithmetic wraps around (two's complement). *)
Definition wrap64 (z : Z) : Z := (z + 2 ^ 63) mod 2 ^ 64 - 2 ^ 63.

Definition minDuration : Z := - 2 ^ 63.
Definition maxDuration : Z := 2 ^ 63 - 1.

(** A [time.Duration] is an [int64] count of nanoseconds. *)
Definition Duration := Z.

Definition Nanosecond : Duration := 1.
Definition Millisecond : Duration := 1000000.
Definition Second : Duration := 1000 * Millisecond.
Definition Minute : Duration := 60 * Second.
Definition Hour : Duration := 60 * Minute.

(** [d1 + d2] on durations. *)
Definition dadd (d1 d2 : Duration) : Duration := wrap64 (d1 + d2).

(** An instant of the clock, in nanoseconds. *)
Definition Time := Z.

(** [t.Sub(u)]: the difference, clamped to the range of a [Duration]. *)
Definition Sub (t u : Time) : Duration :=
  Z.max minDuration (Z.min maxDuration (t - u)).

(** [time.Since(t)] read when the clock shows [now]. *)
Definition Since (now t : Time) : Duration := Sub now t.

(** How far [time.Sleep(d)] or a timer of [d] moves the clock.  The goroutine
    is paused for at least [d]: [late] is what the scheduler adds to it, in
    nanoseconds.  A negative or zero duration returns at once. *)
Definition sleepFor (d : Duration) (late : N) : Duration :=
  if 0 <? d then d + Z.of_N late else 0.

(** Integer division of Go's [int]: it truncates toward zero. *)
Definition idiv (a b : Z) : Z := Z.quot a b.

End Go.

(** ** The part of net/http the syncer looks at *)

Module http.

Definition StatusOK : Z := 200.
Definition StatusTooManyRequests : Z := 429.

(** What [io.ReadAll(res.Body)] yields: the bytes, or a read error. *)
Inductive BodyRead :=
| BodyBytes (data : string)
| BodyFails (msg : string).

(** An [*http.Response]: the fields the syncer reads, and whether
    [Body.Close()] has been called on it. *)
Record Response := {
  StatusCode : Z;
  Status : string;
  RetryAfter : string;       (* Header.Get("Retry-After"), empty when absent *)
  Body : BodyRead;
  BodyClosed : bool
}.

Definition closeBody (r : Response) : Response :=
  {| StatusCode := StatusCode r; Status := Status r; RetryAfter := RetryAfter r;
     Body := Body r; BodyClosed := true |}.

End http.

(** ** Errors *)

(** The error values that flow through the three components.  Each [fmt.Errorf]
    site of the sources has a constructor of its own; [%w] wrapping keeps the
    cause. *)
Inductive error :=
(* returned by the wrapped transport or client; [timeout] says whether it is a
   net.Error whose Timeout() holds *)
| NetError (timeout : bool) (msg : string)
| ContextCanceled
| ContextDeadlineExceeded
(* retry.go *)
| ServerError (code : Z) (status : string)
| RateLimitReached (code : Z) (status : string)
| RetryAfterTooLong (delay : Z)
| ClientError (code : Z) (status : string)
(* fetcher.go *)
| FailedHTTPRequest (cause : error)
| UnexpectedStatus (code : Z)
| FailedReadBody (msg : string)
| ParseErrors (msg : string)
| FailedMarshal (msg : string)
(* tenant.go *)
| FailedReadTenants3Times
| ReadTenantsError (msg : string).

(** [err.(net.Error)] succeeds and [err.Timeout()] holds: so it is for the
    timeouts of the network, and for [context.DeadlineExceeded]. *)
Definition isTimeout (e : error) : bool :=
  match e with
  | NetError timeout _ => timeout
  | ContextDeadlineExceeded => true
  | _ => false
  end.

(** A rational in lowest or any terms, standing for a [float64]. *)
Record Frac := { num : Z; den : Z }.

(** ** github.com/cenkalti/backoff/v4 *)

Module backoff.

Import Go.

(** Modelled from the spec: the backoff package is a dependency, and its code
    is not among the sources of the repository.  The spec's sections 3 and 4.1
    give its contract: the policy is immutable configuration; exponential
    intervals from InitialInterval capped at MaxInterval, the whole loop
    capped by MaxElapsedTime counted from the first attempt, a permanent error
    ends the loop at once, the last failure is what surfaces; no shared
    mutable state, each call owns its own elapsed-time clock.  The definitions
    below keep to that contract and to the package's names.  The
    randomization factor and the multiplier, of which the spec says nothing,
    are fields of the policy and carry the package's defaults, 0.5 and 1.5;
    [float64] computations are done in exact rationals and durations are
    added without overflow. *)
Definition Stop : Duration := -1.

Definition DefaultInitialInterval : Duration := 500 * Millisecond.
Definition DefaultRandomizationFactor : Frac := {| num := 1; den := 2 |}.
Definition DefaultMultiplier : Frac := {| num := 3; den := 2 |}.
Definition DefaultMaxInterval : Duration := 60 * Second.
Definition DefaultMaxElapsedTime : Duration := 15 * Minute.

(** Modelled from the spec: the policy.  The first six fields are the
    configuration; [currentInterval] and [startTime] are the state of one
    retry loop, which [Reset] and [NextBackOff] give anew in the loop's own
    copy of the policy. *)
Record ExponentialBackOff := {
  InitialInterval : Duration;
  RandomizationFactor : Frac;
  Multiplier : Frac;
  MaxInterval : Duration;
  MaxElapsedTime : Duration;
  StopDuration : Duration;
  currentInterval : Duration;
  startTime : Time
}.

Definition withState (b : ExponentialBackOff) (cur : Duration) (start : Time)
  : ExponentialBackOff :=
  {| InitialInterval := InitialInterval b;
     RandomizationFactor := RandomizationFactor b;
     Multiplier := Multiplier b;
     MaxInterval := MaxInterval b;
     MaxElapsedTime := MaxElapsedTime b;
     StopDuration := StopDuration b;
     currentInterval := cur;
     startTime := start |}.

(** Modelled from the spec: [b.Reset()], called when the clock shows [now]. *)
Definition Reset (b : ExponentialBackOff) (now : Time) : ExponentialBackOff :=
  withState b (InitialInterval b) now.

(** Modelled from the spec: [NewExponentialBackOff()]. *)
Definition NewExponentialBackOff (now : Time) : ExponentialBackOff :=
  Reset {| InitialInterval := DefaultInitialInterval;
           RandomizationFactor := DefaultRandomizationFactor;
           Multiplier := DefaultMultiplier;
           MaxInterval := DefaultMaxInterval;
           MaxElapsedTime := DefaultMaxElapsedTime;
           StopDuration := Stop;
           currentInterval := 0;
           startTime := 0 |} now.

(** Modelled from the spec: [b.GetElapsedTime()]. *)
Definition GetElapsedTime (b : ExponentialBackOff) (now : Time) : Duration :=
  now - startTime b.

(** Modelled from the spec: a value of
    [[cur - rf*cur, cur + rf*cur]] picked by [random] in [[0,1)]:
    [min + random * (max - min + 1)], truncated. *)
Definition getRandomValueFromInterval (rf random : Frac) (cur : Duration)
  : Duration :=
  if num rf =? 0 then cur
  else
    Z.quot (cur * (den rf - num rf) * den random
            + num random * (2 * num rf * cur + den rf))
           (den rf * den random).

(** Modelled from the spec: the next interval is the current one times the
    multiplier, or MaxInterval once that would be passed. *)
Definition incrementCurrentInterval (b : ExponentialBackOff) : ExponentialBackOff :=
  let m := Multiplier b in
  if MaxInterval b * den m <=? currentInterval b * num m
  then withState b (MaxInterval b) (startTime b)
  else withState b (Z.quot (currentInterval b * num m) (den m)) (startTime b).

(** Modelled from the spec: [b.NextBackOff()] at clock [now] with the random
    number [random]; it returns the pause before the next attempt, or the
    policy's stop value once elapsed time plus that pause passes
    MaxElapsedTime (a MaxElapsedTime of zero never stops). *)
Definition NextBackOff (b : ExponentialBackOff) (now : Time) (random : Frac)
  : Duration * ExponentialBackOff :=
  let elapsed := GetElapsedTime b now in
  let next := getRandomValueFromInterval (RandomizationFactor b) random (currentInterval b) in
  let b' := incrementCurrentInterval b in
  if negb (MaxElapsedTime b =? 0) && (MaxElapsedTime b <? elapsed + next)
  then (StopDuration b, b')
  else (next, b').

(** A [float64] of [[0,1)], as [rand.Float64()] returns them. *)
Definition unitInterval (x : Frac) : Prop := 0 <= num x < den x.

(** A policy as [NewExponentialBackOff] builds them, whatever the three
    durations a caller overrides: the stop value is [Stop], the factors are
    not negative, the randomization factor is at most 1, the intervals are not
    negative and the budget is not the "never stop" zero. *)
Definition wellConfigured (b : ExponentialBackOff) : Prop :=
  StopDuration b = Stop
  /\ 0 <= InitialInterval b
  /\ 0 <= MaxInterval b
  /\ MaxElapsedTime b <> 0
  /\ 0 <= num (RandomizationFactor b) <= den (RandomizationFactor b)
  /\ 0 < den (RandomizationFactor b)
  /\ 0 <= num (Multiplier b)
  /\ 0 < den (Multiplier b).

(** Two policies with the same configuration; they may differ in
    [currentInterval] and [startTime]. *)
Definition sameConfig (b1 b2 : ExponentialBackOff) : Prop :=
  InitialInterval b1 = InitialInterval b2
  /\ RandomizationFactor b1 = RandomizationFactor b2
  /\ Multiplier b1 = Multiplier b2
  /\ MaxInterval b1 = MaxInterval b2
  /\ MaxElapsedTime b1 = MaxElapsedTime b2
  /\ StopDuration b1 = StopDuration b2.

(** What an operation handed to [Retry] returns: nil, a plain error (try
    again), or an error wrapped by [backoff.Permanent]. *)
Inductive OpResult :=
| OpNil
| OpError (e : error)
| OpPermanent (e : error).

(** Modelled from the spec: [Retry(operation, b)].  The policy [b] it is
    handed is configuration and is only read; the current interval and the
    start time of the loop are the loop's own, kept in a copy of the policy
    that is reset on entry, so that every call of [Retry] has its own
    elapsed-time clock.  The state [S] is the caller's: [clock] reads the
    time in it, [wait] is the timer between attempts, [operation] the
    caller's closure, and [float64 k] the k-th random number drawn.  The loop
    has no bound of its own: [fuel] counts the attempts it may make, and
    [None] means the fuel ran out first. *)
Section Retry.

Variable S : Type.
Variable clock : S -> Time.
Variable wait : Duration -> S -> S.
Variable float64 : nat -> Frac.
Variable operation : S -> OpResult * S.

Fixpoint retryLoop (fuel k : nat) (b : ExponentialBackOff) (s : S)
  : option (option error * S) :=
  match fuel with
  | O => None
  | Datatypes.S fuel' =>
      let '(res, s1) := operation s in
      match res with
      | OpNil => Some (None, s1)
      | OpPermanent e => Some (Some e, s1)
      | OpError e =>
          let '(next, b') := NextBackOff b (clock s1) (float64 k) in
          if next =? Stop then Some (Some e, s1)
          else retryLoop fuel' (Datatypes.S k) b' (wait next s1)
      end
  end.

Definition Retry (b : ExponentialBackOff) (fuel : nat) (s : S)
  : option (option error * S) :=
  retryLoop fuel 0%nat (Reset b (clock s)) s.

End Retry.

End backoff.

(** ** The retrying transport *)

Module retry.

Import Go http backoff.

(** One call of the wrapped [transport.RoundTrip]: what it returned and how
    long it took, by the clock readings of the caller around it. *)
Record Exchange := {
  outcome : Response + error;
  took : Duration
}.

(** The wrapped [http.RoundTripper], by the number of requests already made in
    the call. *)
Definition RoundTripper := nat -> Exchange.

(** [RetryableTransport]; [backoffConfig] is the object the struct's pointer
    refers to. *)
Record RetryableTransport := {
  transport : RoundTripper;
  backoffConfig : ExponentialBackOff
}.

Record RetryableTransportCfg := {
  Transport : RoundTripper;
  cfgInitialInterval : Duration;
  cfgMaxInterval : Duration;
  cfgMaxElapsedTime : Duration
}.

Definition setIfNotZero (dst src : Duration) : Duration :=
  if src =? 0 then dst else src.

(** [NewRetryableTransport(cfg)], called when the clock shows [now]. *)
Definition NewRetryableTransport (cfg : RetryableTransportCfg) (now : Time)
  : RetryableTransport :=
  let b := NewExponentialBackOff now in
  {| transport := Transport cfg;
     backoffConfig :=
       {| InitialInterval := setIfNotZero (InitialInterval b) (cfgInitialInterval cfg);
          RandomizationFactor := RandomizationFactor b;
          Multiplier := Multiplier b;
          MaxInterval := setIfNotZero (MaxInterval b) (cfgMaxInterval cfg);
          MaxElapsedTime := setIfNotZero (MaxElapsedTime b) (cfgMaxElapsedTime cfg);
          StopDuration := StopDuration b;
          currentInterval := currentInterval b;
          startTime := startTime b |} |}.

(** What the Go runtime supplies to a call. *)
Record Runtime := {
  float64 : nat -> Frac;                       (* rand.Float64(), by draw *)
  ParseDuration : string -> option Duration;   (* time.ParseDuration, None on error *)
  late : nat -> N                              (* by how many ns the k-th pause of the call overruns *)
}.

(** The memory one [RoundTrip] call works on: the policy object behind
    [r.backoffConfig], which the call reads, the call's own variables [resp]
    and [err], the clock, and a record of what the call did. *)
Record State := {
  shared : ExponentialBackOff;
  resp : option Response;
  err : option error;
  now : Time;
  requests : nat;            (* requests handed to the wrapped transport *)
  sent : list Time;          (* when each was handed over, latest first *)
  naps : list Duration       (* every time.Sleep and timer wait, latest first *)
}.

(** [time.Sleep(d)], and the retry timer: the goroutine stops for [d], and
    for as much longer as the runtime is late in waking it from this pause. *)
Definition sleep (rt : Runtime) (d : Duration) (s : State) : State :=
  {| shared := shared s; resp := resp s; err := err s;
     now := now s + sleepFor d (late rt (List.length (naps s)));
     requests := requests s; sent := sent s; naps := d :: naps s |}.

(** [resp, err = r.transport.RoundTrip(req)]. *)
Definition send (tr : RoundTripper) (s : State) : State :=
  let x := tr (requests s) in
  {| shared := shared s;
     resp := match outcome x with inl res => Some res | inr _ => None end;
     err := match outcome x with inl _ => None | inr e => Some e end;
     now := now s + took x;
     requests := S (requests s);
     sent := now s :: sent s;
     naps := naps s |}.

(** [resp.Body.Close()]. *)
Definition closeResp (s : State) : State :=
  {| shared := shared s; resp := option_map closeBody (resp s); err := err s;
     now := now s; requests := requests s; sent := sent s; naps := naps s |}.

(** The closure [operation] of [RoundTrip]; [startTime] is the call's own
    [time.Now()] taken before the first attempt. *)
Definition operation (rt : Runtime) (tr : RoundTripper) (startTime : Time)
  (s : State) : OpResult * State :=
  let s1 := send tr s in
  match outcome (tr (requests s)) with
  | inr e =>
      if isTimeout e then (OpError e, s1) else (OpPermanent e, s1)
  | inl res =>
      if 500 <=? StatusCode res then
        (OpError (ServerError (StatusCode res) (Status res)), closeResp s1)
      else if StatusCode res =? StatusTooManyRequests then
        let s2 := closeResp s1 in
        let limited := OpError (RateLimitReached (StatusCode res) (Status res)) in
        if String.eqb (RetryAfter res) "" then (limited, s2)
        else
          match ParseDuration rt (RetryAfter res) with
          | Some delay =>
              if (MaxElapsedTime (shared s2) <? delay)
                 || (MaxElapsedTime (shared s2) <? dadd (Since (now s2) startTime) delay)
              then (OpPermanent (RetryAfterTooLong delay), s2)
              else (limited, sleep rt delay s2)
          | None => (limited, s2)
          end
      else if 400 <=? StatusCode res then
        (OpPermanent (ClientError (StatusCode res) (Status res)), closeResp s1)
      else (OpNil, s1)
  end.

Definition enter (r : RetryableTransport) (t0 : Time) : State :=
  {| shared := backoffConfig r; resp := None; err := None; now := t0;
     requests := 0; sent := []; naps := [] |}.

(** [r.RoundTrip(req)] entered when the clock shows [t0].  Go's two return
    values are the [resp] and [err] of the final state; its [shared] field is
    what the call leaves in [r.backoffConfig]. *)
Definition RoundTrip (fuel : nat) (rt : Runtime) (r : RetryableTransport)
  (t0 : Time) : option State :=
  let startTime := t0 in
  match Retry State now (sleep rt) (float64 rt)
              (operation rt (transport r) startTime) (backoffConfig r) fuel
              (enter r t0) with
  | None => None
  | Some (_, s) => Some s
  end.

(** The loop [Retry] runs for one call of [RoundTrip]. *)
Definition retrying (rt : Runtime) (tr : RoundTripper) (startTime : Time)
  : nat -> nat -> ExponentialBackOff -> State -> option (option error * State) :=
  retryLoop State now (sleep rt) (float64 rt) (operation rt tr startTime).

(** Attempts enough for any call under the budget of the policy [b], when
    every attempt takes a nanosecond or more. *)
Definition enoughFuel (b : ExponentialBackOff) : nat :=
  S (Z.to_nat (MaxElapsedTime b + 1)).


(** The call's variables [resp] and [err] hold what the exchange [x] gave:
    the transport's response, its body closed when the status is 400 or more
    and left as it came otherwise, with a nil error; or no response and the
    transport's error. *)
Definition kept (x : Exchange) (s : State) : Prop :=
  match outcome x with
  | inl res =>
      resp s = Some (if 400 <=? StatusCode res then closeBody res else res)
      /\ err s = None
  | inr e => resp s = None /\ err s = Some e
  end.

(** The exchanges after which the closure can return a plain error, so that
    [Retry] may try again: a timeout of the transport, a status of 500 or
    more, or a 429 (which can also be permanent, by its Retry-After). *)
Definition retryable (x : Exchange) : Prop :=
  match outcome x with
  | inl res => 500 <= StatusCode res \/ StatusCode res = StatusTooManyRequests
  | inr e => isTimeout e = true
  end.

(** The first pause of the retry timer, were the policy [b] reset and asked
    with the first random number. *)
Definition firstBackOff (rt : Runtime) (b : ExponentialBackOff) : Duration :=
  getRandomValueFromInterval (RandomizationFactor b) (float64 rt 0%nat) (InitialInterval b).

(** The pause the policy [b] names after the [k]-th request of a call has
    failed: the interval has grown [k] times since the reset. *)
Definition backOffAt (rt : Runtime) (b : ExponentialBackOff) (k : nat) : Duration :=
  getRandomValueFromInterval (RandomizationFactor b) (float64 rt k)
    (currentInterval (Nat.iter k incrementCurrentInterval (Reset b 0))).


End retry.

(** ** fetcher.go: rules of all tenants *)

Module fetcher.

Import Go http.

(** A [rulefmt.RuleGroup]: its name, and the rest of the group as text the
    fetcher never looks into. *)
Record RuleGroup := {
  Name : string;
  Payload : string
}.

(** A [context.Context]: [None] while it is live, [Some e] once it is done
    with [ctx.Err() = e]. *)
Definition Context := option error.

Definition isDone (ctx : Context) : bool :=
  match ctx with Some _ => true | None => false end.

(** [rulesspec.ClientInterface.ListRules(ctx, tenantID)]: the k-th call of a
    cycle, for a tenant, made under a context that is done or not. *)
Definition Client := nat -> string -> bool -> Response + error.

(** [RulesObjtoreFetcher]; the mutex guards [tenants] and holds no data. *)
Record RulesObjtoreFetcher := {
  client : Client;
  tenants : list string
}.

(** [f.SetTenants(tenants)]. *)
Definition SetTenants (f : RulesObjtoreFetcher) (l : list string) : RulesObjtoreFetcher :=
  {| client := client f; tenants := l |}.

Record tenantFetchResult := {
  tenant : string;
  outcome : Response + error      (* res and err *)
}.

(** [aggregateErrorMessages]. *)
Definition aggregateErrorMessages (errs : list string) : string :=
  String.concat ", " errs.

(** What a cycle's goroutines can do next; a schedule is a list of these. *)
Inductive Action :=
| Launch                (* the launcher's select takes [sem <- struct{}{}]: one more task starts *)
| Abandon               (* the launcher's select takes [<-ctx.Done()] and reports ctx.Err() *)
| Deliver (i : nat)     (* the i-th running task hands its result to the collector *)
| Cancel (e : error).   (* the caller's context ends with error e *)

(** What surrounds one cycle. *)
Record World := {
  Parse : string -> list RuleGroup * list string;   (* rulefmt.Parse: groups and errors *)
  Marshal : list RuleGroup -> string + string;      (* yaml.Marshal of RuleGroups{Groups: rules} *)
  sched : list Action                               (* what the goroutines do, in order *)
}.

Definition concurrency : nat := 10.

(** The two return values of [GetTenantsRules]: a reader over the data with a
    nil error, or a nil reader with an error. *)
Inductive Return :=
| Ok (data : string)
| Err (e : error).

(** The cycle while it runs. *)
Record Cycle := {
  ctx : Context;
  todo : list string;                    (* tenants the launcher's loop has yet to reach *)
  started : list string;                 (* tenants whose task was started, latest first *)
  inflight : list tenantFetchResult;     (* started tasks whose result the collector has yet to receive *)
  received : list tenantFetchResult;     (* results the collector received, latest first *)
  rules : list RuleGroup                 (* the collector's accumulator *)
}.

(** Lines 120-124: the tenant's name in front of every group name. *)
Definition prefixed (tenantID : string) (g : RuleGroup) : RuleGroup :=
  {| Name := (tenantID ++ "." ++ Name g)%string; Payload := Payload g |}.

(** The body of the collector's loop for one result: an error to return, or
    the accumulator with the tenant's groups appended. *)
Definition consume (w : World) (acc : list RuleGroup) (r : tenantFetchResult)
  : error + list RuleGroup :=
  match outcome r with
  | inr e => inl (FailedHTTPRequest e)
  | inl res =>
      if negb (idiv (StatusCode res) 100 =? 2) then inl (UnexpectedStatus (StatusCode res))
      else
        match Body res with
        | BodyFails m => inl (FailedReadBody m)
        | BodyBytes body =>
            let '(groups, errors) := Parse w body in
            if (0 <? List.length errors)%nat then inl (ParseErrors (aggregateErrorMessages errors))
            else inr (acc ++ map (prefixed (tenant r)) groups)%list
        end
  end.

(** What the collector makes of a result taken by itself: the error it
    returns on it, if any ... *)
Definition failure (w : World) (r : tenantFetchResult) : option error :=
  match consume w [] r with
  | inl e => Some e
  | inr _ => None
  end.

(** ... and the groups it appends for it. *)
Definition contribution (w : World) (r : tenantFetchResult) : list RuleGroup :=
  match consume w [] r with
  | inl _ => []
  | inr groups => groups
  end.

(** The groups of the document a tenant's response carries, as parsed. *)
Definition groupsOf (w : World) (r : tenantFetchResult) : list RuleGroup :=
  match outcome r with
  | inl res =>
      match Body res with
      | BodyBytes body => fst (Parse w body)
      | BodyFails _ => []
      end
  | inr _ => []
  end.

(** The merged document: for each result in turn, the groups of its document
    under their new names. *)
Definition merged (w : World) (results : list tenantFetchResult) : list RuleGroup :=
  flat_map (fun r => map (prefixed (tenant r)) (groupsOf w r)) results.

(** The failures a tenant's fetch can surface, as the spec lists them, each
    with the error the cycle returns for it: the request failed, the status is
    not one from 200 to 299, the body cannot be read, or the document does not
    parse.  The collector's [consume] is compared with this. *)
Inductive surfaces (w : World) (r : tenantFetchResult) : error -> Prop :=
| RequestFailed (e : error) :
    outcome r = inr e ->
    surfaces w r (FailedHTTPRequest e)
| StatusNot2xx (res : Response) :
    outcome r = inl res ->
    ~ 200 <= StatusCode res <= 299 ->
    surfaces w r (UnexpectedStatus (StatusCode res))
| BodyUnreadable (res : Response) (msg : string) :
    outcome r = inl res ->
    200 <= StatusCode res <= 299 ->
    Body res = BodyFails msg ->
    surfaces w r (FailedReadBody msg)
| DocumentUnparsable (res : Response) (body : string) :
    outcome r = inl res ->
    200 <= StatusCode res <= 299 ->
    Body res = BodyBytes body ->
    snd (Parse w body) <> [] ->
    surfaces w r (ParseErrors (aggregateErrorMessages (snd (Parse w body)))).

Definition enabled (c : Cycle) (a : Action) : bool :=
  match a with
  | Launch => negb (List.length (todo c) =? 0)%nat && (List.length (inflight c) <? concurrency)%nat
  | Abandon => negb (List.length (todo c) =? 0)%nat && isDone (ctx c)
  | Deliver i => (i <? List.length (inflight c))%nat
  | Cancel _ => negb (isDone (ctx c))
  end.

(** What happens when the schedule names nothing that can happen: a running
    task delivers, else the launcher starts one. *)
Definition fallback (c : Cycle) : Action :=
  match inflight c with
  | _ :: _ => Deliver 0
  | [] => Launch
  end.

Definition pick (c : Cycle) (s : list Action) : Action * list Action :=
  match s with
  | a :: s' => if enabled c a then (a, s') else (fallback c, s')
  | [] => (fallback c, [])
  end.

(** The collector receives [r], the tasks in [rest] still running: it returns
    an error, or goes on with the tenant's groups appended. *)
Definition receive (w : World) (c : Cycle) (r : tenantFetchResult)
  (rest : list tenantFetchResult) : option Return * Cycle :=
  let c' acc := {| ctx := ctx c; todo := todo c; started := started c;
                   inflight := rest; received := r :: received c; rules := acc |} in
  match consume w (rules c) r with
  | inl e => (Some (Err e), c' (rules c))
  | inr acc => (None, c' acc)
  end.

Definition remove_nth {A} (i : nat) (l : list A) : list A :=
  (firstn i l ++ skipn (S i) l)%list.

(** One action of the cycle: the value [GetTenantsRules] returns, when the
    action makes the collector return, and the cycle after it. *)
Definition step (f : RulesObjtoreFetcher) (c : Cycle) (w : World) (a : Action)
  : option Return * Cycle :=
  match a with
  | Cancel e =>
      (None, {| ctx := Some e; todo := todo c; started := started c;
                inflight := inflight c; received := received c; rules := rules c |})
  | Launch =>
      match todo c with
      | tenantID :: rest =>
          let r := {| tenant := tenantID;
                      outcome := client f (List.length (started c)) tenantID (isDone (ctx c)) |} in
          (None, {| ctx := ctx c; todo := rest; started := tenantID :: started c;
                    inflight := (inflight c ++ [r])%list;
                    received := received c; rules := rules c |})
      | [] => (None, c)
      end
  | Abandon =>
      match todo c, ctx c with
      | tenantID :: _, Some e =>
          receive w c {| tenant := tenantID; outcome := inr e |} (inflight c)
      | _, _ => (None, c)
      end
  | Deliver i =>
      match nth_error (inflight c) i with
      | Some r => receive w c r (remove_nth i (inflight c))
      | None => (None, c)
      end
  end.

(** The collector's loop has ended without an error: the launcher is through
    its loop and every started task has delivered, so the results channel is
    closed. *)
Definition drained (c : Cycle) : bool :=
  match todo c, inflight c with
  | [], [] => true
  | _, _ => false
  end.

(** Lines 129-135. *)
Definition finish (w : World) (c : Cycle) : Return :=
  match Marshal w (rules c) with
  | inl data => Ok data
  | inr msg => Err (FailedMarshal msg)
  end.

(** The cycle from [c] on, under the schedule [s]. *)
Fixpoint run (fuel : nat) (f : RulesObjtoreFetcher) (w : World)
  (s : list Action) (c : Cycle) : option (Return * Cycle) :=
  if drained c then Some (finish w c, c)
  else
    match fuel with
    | O => None
    | S fuel' =>
        let '(a, s') := pick c s in
        match step f c w a with
        | (Some ret, c') => Some (ret, c')
        | (None, c') => run fuel' f w s' c'
        end
    end.

(** What a cycle did, beside what it returned. *)
Record Finished := {
  returned : Return;
  snapshot : list string;                   (* the copy made under the mutex *)
  ranged : list string;                     (* the slice the launcher's loop went over *)
  dispatched : list string;                 (* tenants whose task started, in order *)
  collected : list tenantFetchResult        (* results the collector took in, in order *)
}.

(** A result that a task of the cycle got from [f.client.ListRules]. *)
Definition fromClient (f : RulesObjtoreFetcher) (r : tenantFetchResult) : Prop :=
  exists k done, outcome r = client f k (tenant r) done.

(** Steps a cycle can still take at most. *)
Definition stepsLeft (c : Cycle) : nat :=
  (if isDone (ctx c) then 0 else 1) + 2 * List.length (todo c) + List.length (inflight c).

(** The cycle before its first step. *)
Definition begin (ctx0 : Context) (l : list string) : Cycle :=
  {| ctx := ctx0; todo := l; started := []; inflight := [];
     received := []; rules := [] |}.

(** What holds of a cycle over the list [L] as long as the collector has seen
    no failure. *)
Record invariant (f : RulesObjtoreFetcher) (w : World) (L : list string)
  (c : Cycle) : Prop := {
  inv_perm :
    Permutation (map tenant (received c) ++ map tenant (inflight c) ++ todo c) L;
  inv_rules : rules c = flat_map (contribution w) (rev (received c));
  inv_good : Forall (fun r => failure w r = None) (received c);
  inv_started : (rev (started c) ++ todo c)%list = L;
  inv_inflight : Forall (fromClient f) (inflight c);
  inv_received : Forall (fromClient f) (received c);
  inv_bound : (List.length (inflight c) <= concurrency)%nat
}.

(** Every tenant's result is in, all are good, and the accumulator holds
    their groups in the order the results came. *)
Definition complete (f : RulesObjtoreFetcher) (w : World) (L : list string)
  (c : Cycle) : Prop :=
  todo c = [] /\ inflight c = []
  /\ Forall (fun r => failure w r = None) (received c)
  /\ Forall (fromClient f) (received c)
  /\ Permutation (map tenant (received c)) L
  /\ rules c = flat_map (contribution w) (rev (received c)).

(** What holds when the collector returns [ret]. *)
Definition settled (f : RulesObjtoreFetcher) (w : World) (L : list string)
  (ret : Return) (c : Cycle) : Prop :=
  (rev (started c) ++ todo c)%list = L
  /\ match ret with
     | Ok data => complete f w L c /\ Marshal w (rules c) = inl data
     | Err e =>
         (exists bad good,
             received c = bad :: good
             /\ Forall (fun r => failure w r = None) good
             /\ failure w bad = Some e)
         \/ (exists msg, e = FailedMarshal msg /\ complete f w L c
                         /\ Marshal w (rules c) = inr msg)
     end.

(** One cycle.  The launcher copies [f.tenants] under the mutex (lines 71-74)
    and then loops over [f.tenants] itself (line 76); [meanwhile] is what
    other goroutines do to the fetcher between the two.  [None] would mean
    that the cycle was not run to its end; [cycle_outcome] shows that this
    never happens. *)
Definition cycle (meanwhile : RulesObjtoreFetcher -> RulesObjtoreFetcher)
  (f : RulesObjtoreFetcher) (ctx0 : Context) (w : World) : option Finished :=
  let copied := tenants f in
  let f' := meanwhile f in
  let c0 := begin ctx0 (tenants f') in
  match run (2 * List.length (tenants f') + 1) f' w (sched w) c0 with
  | None => None
  | Some (ret, c) =>
      Some {| returned := ret; snapshot := copied; ranged := tenants f';
              dispatched := rev (started c); collected := rev (received c) |}
  end.

(** [f.GetTenantsRules(ctx)], no other goroutine writing [f.tenants] between
    the launcher's copy and its loop. *)
Definition GetTenantsRules (f : RulesObjtoreFetcher) (ctx0 : Context) (w : World)
  : option Finished :=
  cycle (fun f => f) f ctx0 w.

(** [f.GetTenantsRules(ctx)] with a [f.SetTenants(l)] of another goroutine
    that runs after the launcher's [Unlock] and before its loop reads
    [f.tenants]. *)
Definition GetTenantsRulesDuringSetTenants (l : list string)
  (f : RulesObjtoreFetcher) (ctx0 : Context) (w : World) : option Finished :=
  cycle (fun f => SetTenants f l) f ctx0 w.

(** [f.GetAllRules(ctx)], given what [ListAllRules] returned. *)
Definition GetAllRules (res : Response + error) : error + BodyRead :=
  match res with
  | inr e => inl (FailedHTTPRequest e)
  | inl r =>
      if negb (idiv (StatusCode r) 100 =? 2) then inl (UnexpectedStatus (StatusCode r))
      else inr (Body r)
  end.

(** The cycles a run goes through from [c] on: [c] itself, and the cycle
    after every step the run takes. *)
Fixpoint states (fuel : nat) (f : RulesObjtoreFetcher) (w : World)
  (s : list Action) (c : Cycle) : list Cycle :=
  c :: (if drained c then []
        else
          match fuel with
          | O => []
          | S fuel' =>
              let '(a, s') := pick c s in
              match step f c w a with
              | (Some _, c') => [c']
              | (None, c') => states fuel' f w s' c'
              end
          end).

(** The cycles [f.GetTenantsRules(ctx)] goes through. *)
Definition GetTenantsRulesStates (f : RulesObjtoreFetcher) (ctx0 : Context) (w : World)
  : list Cycle :=
  states (2 * List.length (tenants f) + 1) f w (sched w) (begin ctx0 (tenants f)).

(** A name with no dot in it. *)
Fixpoint dotFree (s : string) : bool :=
  match s with
  | EmptyString => true
  | String c s' => negb (Ascii.eqb c "."%char) && dotFree s'
  end.

(** Under a live context [f.client.ListRules] answers by the tenant alone,
    however many calls were made before. *)
Definition answersByTenant (f : RulesObjtoreFetcher) : Prop :=
  forall k k' t, client f k t false = client f k' t false.

(** [f.client.ListRules] fails every call made under a context that is
    done, as Go's HTTP client does. *)
Definition honoursContext (f : RulesObjtoreFetcher) : Prop :=
  forall k t, exists e, client f k t true = inr e.

(** Nothing in the schedule ends the caller's context. *)
Definition neverCancelled (s : list Action) : Prop :=
  forall e, ~ In (Cancel e) s.

(** Whatever [f.client.ListRules] answers under a live context, the
    collector finds no fault with it. *)
Definition alwaysGood (f : RulesObjtoreFetcher) (w : World) : Prop :=
  forall k t, failure w {| tenant := t; outcome := client f k t false |} = None.

End fetcher.

(** ** tenant.go: reloading the tenants file *)

Module tenant.

Import Go.

(** The interface [tenantsSetter]. *)
Class tenantsSetter (T : Type) := {
  SetTenants : T -> list string -> T
}.

#[export] Instance fetcher_tenantsSetter : tenantsSetter fetcher.RulesObjtoreFetcher := {
  SetTenants := fetcher.SetTenants
}.

(** What the loop's [select] takes, in order. *)
Inductive Event :=
| Tick (read : error + list string)   (* [<-ticker.C]; [readTenants()] returns [read] *)
| Done.                               (* [<-ctx.Done()] *)

(** [errorCount++] on a [uint]. *)
Definition uintInc (n : Z) : Z := (n + 1) mod 2 ^ 64.

Inductive Outcome (T : Type) :=
| Panics                                (* time.NewTicker refuses a non-positive interval *)
| Waiting (errorCount : Z) (tenset : T) (* blocked in [select]: nothing more happened *)
| Returns (err : option error) (tenset : T).

Arguments Panics {T}.
Arguments Waiting {T} errorCount tenset.
Arguments Returns {T} err tenset.

(** The [for] loop of [newTenantsFileReloader]. *)
Fixpoint reload {T} `{tenantsSetter T} (events : list Event) (errorCount : Z)
  (tenset : T) : Outcome T :=
  match events with
  | [] => Waiting errorCount tenset
  | Done :: _ => Returns None tenset
  | Tick (inl _) :: events' =>
      let errorCount := uintInc errorCount in
      if 3 <=? errorCount then Returns (Some FailedReadTenants3Times) tenset
      else reload events' errorCount tenset
  | Tick (inr tenants) :: events' =>
      reload events' 0 (SetTenants tenset tenants)
  end.

(** [newTenantsFileReloader(ctx, readTenants, interval, tenset)]; the context
    and the reader appear through [events]. *)
Definition newTenantsFileReloader {T} `{tenantsSetter T} (events : list Event)
  (interval : Duration) (tenset : T) : Outcome T :=
  let interval := Z.min interval (1 * Minute) in
  if interval <=? 0 then Panics
  else reload events 0 tenset.

(** A tick on which the reader failed. *)
Definition failed (ev : Event) : Prop :=
  match ev with
  | Tick (inl _) => True
  | _ => False
  end.

(** What the good reads among [events] leave installed, one after the
    other. *)
Fixpoint install {T} `{tenantsSetter T} (events : list Event) (tenset : T) : T :=
  match events with
  | Tick (inr tenants) :: events' => install events' (SetTenants tenset tenants)
  | _ :: events' => install events' tenset
  | [] => tenset
  end.

(** *** Reading the tenants file *)

(** [TenantConfig] and [TenantsConfig], as the YAML decoder fills them. *)
Record TenantConfig := { Name : string }.
Record TenantsConfig := { Tenants : list TenantConfig }.

(** What [scanFile] takes from outside: [yaml.Unmarshal] into a
    [TenantsConfig] (an error message, or the filled struct), and the order
    in which a [range] goes over the keys of a map, told by the order in which
    they were inserted. *)
Record Decoder := {
  Unmarshal : string -> string + TenantsConfig;
  rangeOrder : list string -> list string
}.

(** Go promises of a [range] over a map that it visits every key once, and
    nothing of the order. *)
Definition visitsEveryKeyOnce (y : Decoder) : Prop :=
  forall keys, Permutation (rangeOrder y keys) keys.

Inductive fileError :=
| FailedOpen (cause : string)          (* "failed to open tenants file: %w" *)
| FailedRead (cause : string)          (* "failed to read tenants file: %w" *)
| NoTenantsFound                       (* "no tenants found in file" *)
| FailedUnmarshal (cause : string).    (* "failed to unmarshal tenants file: %w" *)

(** The body of the loop of lines 105-114 for one tenant: [tenantsSet] is the
    map, kept as its keys in the order of insertion, and [duplicates] the
    slice of that name. *)
Definition dedup (acc : list string * list string) (tenant : string)
  : list string * list string :=
  let '(tenantsSet, duplicates) := acc in
  if negb (String.eqb tenant "") then
    if existsb (String.eqb tenant) tenantsSet
    then (tenantsSet, (duplicates ++ [tenant])%list)
    else ((tenantsSet ++ [tenant])%list, duplicates)
  else (tenantsSet, duplicates).

(** [scanFile(f)]: the duplicates its warning lists (none when it logs no
    warning), and its two return values. *)
Definition scanFile (y : Decoder) (f : string) : list string * (fileError + list string) :=
  if (String.length f =? 0)%nat then ([], inl NoTenantsFound)
  else
    match Unmarshal y f with
    | inl cause => ([], inl (FailedUnmarshal cause))
    | inr tenantsCfg =>
        let tenants := map Name (Tenants tenantsCfg) in
        if (List.length tenants =? 0)%nat then ([], inl NoTenantsFound)
        else
          let '(tenantsSet, duplicates) := fold_left dedup tenants ([], []) in
          (duplicates, inr (rangeOrder y tenantsSet))
    end.

(** What [os.Open] and [io.ReadAll] make of the file. *)
Inductive FileRead :=
| OpenFails (cause : string)
| ReadFails (cause : string)
| FileData (data : string).

(** [readTenantsFile(file)]. *)
Definition readTenantsFile (y : Decoder) (file : FileRead)
  : list string * (fileError + list string) :=
  match file with
  | OpenFails cause => ([], inl (FailedOpen cause))
  | ReadFails cause => ([], inl (FailedRead cause))
  | FileData fileData => scanFile y fileData
  end.

(** The text of a [fileError]. *)
Definition Error (e : fileError) : string :=
  match e with
  | FailedOpen cause => "failed to open tenants file: " ++ cause
  | FailedRead cause => "failed to read tenants file: " ++ cause
  | NoTenantsFound => "no tenants found in file"
  | FailedUnmarshal cause => "failed to unmarshal tenants file: " ++ cause
  end.

(** What wakes the reloader when its reader is [readTenantsFile], as main.go
    sets it up: a tick, at which the file is in some state, or the end of the
    context. *)
Inductive Wake :=
| FileTick (file : FileRead)
| CtxDone.

Definition eventOf (y : Decoder) (wk : Wake) : Event :=
  match wk with
  | FileTick file =>
      Tick (match snd (readTenantsFile y file) with
            | inl e => inl (ReadTenantsError (Error e))
            | inr tenants => inr tenants
            end)
  | CtxDone => Done
  end.

(** The setter as a run of the reloader leaves it, when [time.NewTicker] let
    it start. *)
Definition leftWith {T} (out : Outcome T) : option T :=
  match out with
  | Panics => None
  | Waiting _ tenset => Some tenset
  | Returns _ tenset => Some tenset
  end.

End tenant.

(** ** The tenants file of the earlier tenant.go: one tenant on a line *)

Module tenantLines.

Import tenant.

(** [scanFile(f)] of the line-based reader, given what the [bufio.Scanner]
    yields for the file: the lines, and the error it ended with, if any.  The
    first component is what the warning lists. *)
Definition scanFile (rangeOrder : list string -> list string)
  (lines : list string) (scanErr : option string)
  : list string * (fileError + list string) :=
  let tenants := lines in
  match scanErr with
  | Some cause => ([], inl (FailedRead cause))
  | None =>
      let '(tenantsSet, duplicates) := fold_left dedup tenants ([], []) in
      let ret := rangeOrder tenantsSet in
      if (List.length ret =? 0)%nat then (duplicates, inl NoTenantsFound)
      else (duplicates, inr ret)
  end.

End tenantLines.

(** ** main.go: what is started, from the flags *)

Module syncer.

Import Go.

Record oidcConfig := {
  audience : string;
  clientID : string;
  clientSecret : string;
  issuerURL : string
}.

Record config := {
  rulesBackendURL : string;
  observatoriumURL : string;
  observatoriumCA : string;
  thanosRuleURL : string;
  file : string;
  tenant : string;
  tenantsFile : string;
  oidc : oidcConfig;
  interval : Z;                 (* a uint *)
  listenInternal : string
}.

(** What the machine answers while [main] sets things up: each entry is the
    error of a call ([None] when it succeeds), or what it returns. *)
Record Host := {
  ReadFile : string -> option string;                 (* os.ReadFile(path) *)
  NewProvider : string -> option string;              (* oidc.NewProvider(ctx, issuer) *)
  readTenantsFile : string -> string + list string;   (* readTenantsFile(path) *)
  Parse : string -> option string;                    (* url.Parse(baseURL) *)
  NewClient : string -> string + fetcher.Client       (* rulesspec.NewClient(url, ...) *)
}.

(** [NewRulesObjtoreFetcher(baseURL, tenants, client)]. *)
Definition NewRulesObjtoreFetcher (h : Host) (baseURL : string) (tenants : list string)
  : string + fetcher.RulesObjtoreFetcher :=
  match Parse h baseURL with
  | Some cause => inl ("failed to parse RulesObjtoreFetcher URL: " ++ cause)
  | None =>
      match NewClient h baseURL with
      | inl cause => inl ("failed to create rules-objstore client: " ++ cause)
      | inr rulesClient => inr {| fetcher.client := rulesClient; fetcher.tenants := tenants |}
      end
  end.

(** Where the sync loop gets the rules from: the value of [f]. *)
Inductive rulesSource :=
| GetTenantsRulesOf (rof : fetcher.RulesObjtoreFetcher)   (* fetcherFunc(rof.GetTenantsRules) *)
| GetAllRulesOf (rof : fetcher.RulesObjtoreFetcher)       (* fetcherFunc(rof.GetAllRules) *)
| ObservatoriumAPI (baseURL tenantID : string).           (* an observatoriumAPIFetcher *)

(** The actors [main] adds to its run group, as far as they depend on the
    flags. *)
Record Group := {
  f : rulesSource;
  tenset : option fetcher.RulesObjtoreFetcher;   (* the tenantsSetter; nil when none was set *)
  reloader : option Duration;                    (* the interval newTenantsFileReloader is given, when it is added *)
  syncEvery : Duration                           (* the ticker of the sync loop *)
}.

(** [log.Fatal] ends the process; otherwise the group runs. *)
Inductive Started :=
| Fatal (msg : string)
| Running (g : Group).

(** [configureRulesObjtoreFetcher(cfg, client)]. *)
Definition configureRulesObjtoreFetcher (cfg : config) (h : Host)
  : string + fetcher.RulesObjtoreFetcher :=
  if negb (String.eqb (tenantsFile cfg) "") && negb (String.eqb (tenant cfg) "")
  then inl "only one of -tenant and -tenants-file can be specified"
  else
    let continue tenants :=
      match NewRulesObjtoreFetcher h (rulesBackendURL cfg) tenants with
      | inl cause => inl ("failed to initialize Rules Object Store fetcher: " ++ cause)
      | inr rof => inr rof
      end in
    if negb (String.eqb (tenantsFile cfg) "") then
      match readTenantsFile h (tenantsFile cfg) with
      | inl cause => inl ("failed to read tenants file: " ++ cause)
      | inr tenants => continue tenants
      end
    else if negb (String.eqb (tenant cfg) "") then continue [tenant cfg]
    else continue [].

(** [time.Duration(cfg.interval) * time.Second]. *)
Definition seconds (n : Z) : Duration := wrap64 (wrap64 n * Second).

(** The error of a call that is made only when [flag] is set. *)
Definition whenSet (flag : string) (call : string -> option string) : option string :=
  if negb (String.eqb flag "") then call flag else None.

(** [main], from the parsed flags to [gr.Run()]. *)
Definition main (cfg : config) (h : Host) : Started :=
  match whenSet (observatoriumCA cfg) (ReadFile h) with
  | Some cause => Fatal ("failed to read Observatorium CA file: " ++ cause)
  | None =>
  match whenSet (issuerURL (oidc cfg)) (NewProvider h) with
  | Some cause => Fatal ("OIDC provider initialization failed: " ++ cause)
  | None =>
    let run f tenset :=
      Running {| f := f; tenset := tenset;
                 reloader := if negb (String.eqb (tenantsFile cfg) "")
                             then Some (seconds (interval cfg)) else None;
                 syncEvery := seconds (interval cfg) |} in
    if negb (String.eqb (rulesBackendURL cfg) "") then
      match configureRulesObjtoreFetcher cfg h with
      | inl msg => Fatal msg
      | inr rof =>
          if (0 <? String.length (tenant cfg))%nat
          then run (GetTenantsRulesOf rof) (Some rof)
          else run (GetAllRulesOf rof) (Some rof)
      end
    else if negb (String.eqb (observatoriumURL cfg) "") then
      if negb (String.eqb (tenantsFile cfg) "") || String.eqb (tenant cfg) ""
      then Fatal "a tenant must be specified with the -tenant flag when using the Observatorium API"
      else
        match Parse h (observatoriumURL cfg) with
        | Some cause =>
            Fatal ("failed to initialize Observatorium API fetcher: "
                   ++ "failed to parse Observatorium API URL: " ++ cause)
        | None => run (ObservatoriumAPI (observatoriumURL cfg) (tenant cfg)) None
        end
    else Fatal "either -rules-backend-url or -observatorium-api-url must be specified"
  end
  end.

(** *** The sync loop *)

Inductive reloadError :=
| ReloadRequestError (cause : string)   (* the error of http.NewRequest *)
| ReloadDoError (cause : string)        (* the error of client.Do *)
| ReloadStatus (code : Z).              (* "got unexpected status from Thanos Ruler: %d" *)

(** [reloadThanosRule(ctx, client, url)], given the error of [http.NewRequest],
    if any, and what [client.Do] returns. *)
Definition reloadThanosRule (newRequest : option string) (res : http.Response + string)
  : option reloadError :=
  match newRequest with
  | Some cause => Some (ReloadRequestError cause)
  | None =>
      match res with
      | inr cause => Some (ReloadDoError cause)
      | inl r =>
          if negb (idiv (http.StatusCode r) 100 =? 2)
          then Some (ReloadStatus (http.StatusCode r))
          else None
      end
  end.

(** The calls a run of the closure [fn] can make. *)
Inductive Call :=
| GetRules       (* f.getRules(ctx) *)
| Create         (* os.Create(cfg.file) *)
| ReadFrom       (* w.ReadFrom(rules) *)
| CloseFile      (* file.Close() *)
| Reload         (* reloadThanosRule(ctx, clientReloader, cfg.thanosRuleURL) *)
| CloseRules.    (* the deferred rules.Close() *)

(** What the calls of one run of [fn] meet: the error of each ([None] when it
    succeeds), and for the reload what its request meets. *)
Record Round := {
  getRules : option string;
  create : option string;
  readFrom : option string;
  closeFile : option string;
  reloadRequest : option string;
  reloadResponse : http.Response + string
}.

Inductive syncError :=
| FailedGetRules (cause : string)      (* "failed to get rules from url: %v" *)
| FailedCreate (cause : string)        (* "failed to create or open the rules file %s: %v" *)
| FailedWrite (cause : string)         (* "failed to write to rules file %s: %v" *)
| FailedClose (cause : string)         (* "failed to close the rules file %s: %v" *)
| FailedReload (e : reloadError).      (* "failed to trigger thanos rule reload: %v" *)

(** One run of the closure [fn]: the calls it makes, in order, and the error
    it returns. *)
Definition fn (r : Round) : list Call * option syncError :=
  match getRules r with
  | Some cause => ([GetRules], Some (FailedGetRules cause))
  | None =>
      let deferred calls := (calls ++ [CloseRules])%list in
      match create r with
      | Some cause => (deferred [GetRules; Create], Some (FailedCreate cause))
      | None =>
          match readFrom r with
          | Some cause => (deferred [GetRules; Create; ReadFrom], Some (FailedWrite cause))
          | None =>
              match closeFile r with
              | Some cause =>
                  (deferred [GetRules; Create; ReadFrom; CloseFile], Some (FailedClose cause))
              | None =>
                  (deferred [GetRules; Create; ReadFrom; CloseFile; Reload],
                   match reloadThanosRule (reloadRequest r) (reloadResponse r) with
                   | Some e => Some (FailedReload e)
                   | None => None
                   end)
              end
          end
      end
  end.

(** What the sync loop has done: its calls and the errors it logged, both in
    order, and the value of the gauge [reloadDuration] if it was set. *)
Record Synced := {
  calls : list Call;
  logged : list syncError;
  gauge : option Duration
}.

(** A run of [fn] done within the loop; [took] is [time.Since(startTime)] at
    its end when it was started by a tick, and [None] for the run before the
    loop, which sets no gauge. *)
Definition round (r : Round) (took : option Duration) (st : Synced) : Synced :=
  let '(made, err) := fn r in
  {| calls := (calls st ++ made)%list;
     logged := match err with
               | Some e => (logged st ++ [e])%list
               | None => logged st
               end;
     gauge := match err, took with
              | None, Some d => Some d
              | _, _ => gauge st
              end |}.

(** What the [select] of the sync loop takes, in order: a tick, with what the
    round it starts meets and how long that round takes, or the end of the
    context. *)
Inductive Beat :=
| SyncTick (r : Round) (took : Duration)
| SyncDone.

Inductive Ending :=
| SyncPanics (st : Synced)                  (* time.NewTicker refuses the interval *)
| SyncWaiting (st : Synced)                 (* blocked in [select] *)
| SyncReturns (err : option syncError) (st : Synced).

Fixpoint syncLoop (beats : list Beat) (st : Synced) : Ending :=
  match beats with
  | [] => SyncWaiting st
  | SyncDone :: _ => SyncReturns None st
  | SyncTick r took :: beats' => syncLoop beats' (round r (Some took) st)
  end.

(** The actor of the sync loop: a first run of [fn], then the ticker and the
    loop. *)
Definition sync (cfg : config) (first : Round) (beats : list Beat) : Ending :=
  let st := round first None {| calls := []; logged := []; gauge := None |} in
  if seconds (interval cfg) <=? 0 then SyncPanics st
  else syncLoop beats st.

(** The rounds that the ticks before the first end of the context start. *)
Fixpoint ticked (beats : list Beat) : list Round :=
  match beats with
  | SyncTick r _ :: beats' => r :: ticked beats'
  | _ => []
  end.

(** A round in which the rules were fetched and the file was created, written
    and closed without an error. *)
Definition written (r : Round) : bool :=
  match getRules r, create r, readFrom r, closeFile r with
  | None, None, None, None => true
  | _, _, _, _ => false
  end.

(** What a run of the sync loop has done, however it ended. *)
Definition done (e : Ending) : Synced :=
  match e with
  | SyncPanics st => st
  | SyncWaiting st => st
  | SyncReturns _ st => st
  end.

Definition Call_eq_dec (a b : Call) : {a = b} + {a <> b}.
Proof. decide equality. Defined.

(** How often the call [c] was made. *)
Definition made (c : Call) (st : Synced) : nat := count_occ Call_eq_dec (calls st) c.

End syncer.

(** ** Scenarios

    Concrete servers, runtimes and tenants, after the cases of the
    repository's tests; the facts below are tried on them. *)

Module Scenarios.

Import Go http backoff retry.

Definition response (code : Z) (retryAfter : string) : Response :=
  {| StatusCode := code; Status := ""; RetryAfter := retryAfter;
     Body := BodyBytes ""; BodyClosed := false |}.

(** A server that gives every request the same answer after [d]. *)
Definition always (code : Z) (retryAfter : string) (d : Duration) : RoundTripper :=
  fun _ => {| outcome := inl (response code retryAfter); took := d |}.

(** A server that fails with [first] once and then answers 200. *)
Definition failsOnce (first : Z) (d : Duration) : RoundTripper :=
  fun i => {| outcome := inl (response (if (i =? 0)%nat then first else StatusOK) "");
              took := d |}.

(** Random numbers all equal to [p/q], the two Retry-After values of the
    tests, and timers that are never late. *)
Definition runtime (p q : Z) : Runtime :=
  {| float64 := fun _ => {| num := p; den := q |};
     ParseDuration := fun s =>
       if String.eqb s "100ms" then Some (100 * Millisecond)
       else if String.eqb s "1h" then Some Hour
       else None;
     late := fun _ => 0%N |}.

(** The same runtime on a busy machine: it wakes the call [l] nanoseconds
    late from its [k]-th pause. *)
Definition tardy (p q : Z) (k : nat) (l : N) : Runtime :=
  {| float64 := float64 (runtime p q);
     ParseDuration := ParseDuration (runtime p q);
     late := fun i => if (i =? k)%nat then l else 0%N |}.

(** The policy of the tests: 50ms, 100ms, 200ms. *)
Definition testCfg (tr : RoundTripper) : RetryableTransportCfg :=
  {| Transport := tr;
     cfgInitialInterval := 50 * Millisecond;
     cfgMaxInterval := 100 * Millisecond;
     cfgMaxElapsedTime := 200 * Millisecond |}.

Definition testTransport (tr : RoundTripper) : RetryableTransport :=
  NewRetryableTransport (testCfg tr) 0.

(** What a test looks at: requests made, pauses taken (in order), status
    returned, whether its body was closed, and the error returned. *)
Definition summary (s : State)
  : nat * list Duration * option Z * option bool * option error :=
  (requests s, rev (naps s), option_map StatusCode (resp s),
   option_map BodyClosed (resp s), err s).

(** *** The fetcher's tests *)

Import fetcher.

(** The document of the tests: two groups. *)
Definition ruleGroups : string := "groups: test, test2".

Definition testParse (body : string) : list RuleGroup * list string :=
  if String.eqb body ruleGroups
  then ([{| Name := "test"; Payload := "alert: TestAlert" |};
         {| Name := "test2"; Payload := "record: TestRecord2" |}], [])
  else if String.eqb body "" then ([], [])
  else ([], ["yaml: unmarshal errors"]).

(** A stand-in for the YAML encoder: the names of the groups, in order. *)
Definition testMarshal (groups : list RuleGroup) : string + string :=
  inl (String.concat "; " (map Name groups)).

(** A backend that answers every tenant alike, and fails a call made under a
    context that is done, as Go's HTTP client does. *)
Definition backend (code : Z) (body : string) : Client :=
  fun _ _ done =>
    if done then inr ContextCanceled
    else inl {| StatusCode := code; Status := ""; RetryAfter := "";
                Body := BodyBytes body; BodyClosed := false |}.

Definition world (s : list Action) : World :=
  {| Parse := testParse; Marshal := testMarshal; sched := s |}.

Definition twoTenants (code : Z) (body : string) : RulesObjtoreFetcher :=
  {| client := backend code body; tenants := ["tenant1"; "tenant2"] |}.

(** *** More servers *)

(** A transport whose every request times out after [d]. *)
Definition timesOut (d : Duration) : RoundTripper :=
  fun _ => {| retry.outcome := inr (NetError true "i/o timeout"); took := d |}.

(** The policy of the tests with a budget below zero. *)
Definition noBudget (tr : RoundTripper) : RetryableTransport :=
  NewRetryableTransport
    {| Transport := tr; cfgInitialInterval := 50 * Millisecond;
       cfgMaxInterval := 100 * Millisecond; cfgMaxElapsedTime := -1 |} 0.

(** *** Tenants files *)

(** The files of the tests of [scanFile], in YAML's flow style, and one
    whose only tenant has no name; a map is gone over from its newest key to
    its oldest. *)
Definition testDecoder : tenant.Decoder :=
  {| tenant.Unmarshal := fun f =>
       let named l := inr {| tenant.Tenants := map tenant.Build_TenantConfig l |} in
       if String.eqb f "tenants: [{name: tenant1}]" then named ["tenant1"]
       else if String.eqb f "tenants: [{name: tenant1}, {name: tenant2}]"
       then named ["tenant1"; "tenant2"]
       else if String.eqb f "tenants: [{name: tenant1}, {name: tenant1}, {name: tenant2}]"
       then named ["tenant1"; "tenant1"; "tenant2"]
       else if String.eqb f "tenants: [{name: }]" then named [""]
       else if String.eqb f "tenants: []" then named []
       else inl "yaml: unmarshal errors";
     tenant.rangeOrder := @rev string |}.

(** *** Flags *)

Definition noOIDC : syncer.oidcConfig :=
  {| syncer.audience := ""; syncer.clientID := ""; syncer.clientSecret := "";
     syncer.issuerURL := "" |}.

(** The flags of a syncer on a rules backend, with [-tenant] or
    [-tenants-file] as given. *)
Definition backendFlags (tenantFlag tenantsFileFlag : string) : syncer.config :=
  {| syncer.rulesBackendURL := "http://rules-objstore:8080";
     syncer.observatoriumURL := "";
     syncer.observatoriumCA := "";
     syncer.thanosRuleURL := "http://localhost:10902";
     syncer.file := "rules.yaml";
     syncer.tenant := tenantFlag;
     syncer.tenantsFile := tenantsFileFlag;
     syncer.oidc := noOIDC;
     syncer.interval := 60;
     syncer.listenInternal := ":8083" |}.

(** The same flags with another [-interval]. *)
Definition every (n : Z) (cfg : syncer.config) : syncer.config :=
  {| syncer.rulesBackendURL := syncer.rulesBackendURL cfg;
     syncer.observatoriumURL := syncer.observatoriumURL cfg;
     syncer.observatoriumCA := syncer.observatoriumCA cfg;
     syncer.thanosRuleURL := syncer.thanosRuleURL cfg;
     syncer.file := syncer.file cfg;
     syncer.tenant := syncer.tenant cfg;
     syncer.tenantsFile := syncer.tenantsFile cfg;
     syncer.oidc := syncer.oidc cfg;
     syncer.interval := n;
     syncer.listenInternal := syncer.listenInternal cfg |}.

(** A round in which every call succeeds and the ruler answers 200, one in
    which the rules cannot be fetched, and one in which the file cannot be
    written. *)
Definition goodRound : syncer.Round :=
  {| syncer.getRules := None; syncer.create := None; syncer.readFrom := None;
     syncer.closeFile := None; syncer.reloadRequest := None;
     syncer.reloadResponse := inl (response 200 "") |}.

Definition noRules : syncer.Round :=
  {| syncer.getRules := Some "got unexpected status from rules backend: 503";
     syncer.create := None; syncer.readFrom := None;
     syncer.closeFile := None; syncer.reloadRequest := None;
     syncer.reloadResponse := inl (response 200 "") |}.

Definition diskFull : syncer.Round :=
  {| syncer.getRules := None; syncer.create := None;
     syncer.readFrom := Some "no space left on device";
     syncer.closeFile := None; syncer.reloadRequest := None;
     syncer.reloadResponse := inl (response 200 "") |}.

(** A machine on which every call of the setup succeeds and the tenants file
    lists two tenants. *)
Definition quietHost : syncer.Host :=
  {| syncer.ReadFile := fun _ => None;
     syncer.NewProvider := fun _ => None;
     syncer.readTenantsFile := fun _ => inr ["tenant1"; "tenant2"];
     syncer.Parse := fun _ => None;
     syncer.NewClient := fun _ => inr (backend 200 ruleGroups) |}.

End Scenarios.

(** * Facts about the retrying transport *)

Section BackoffFacts.

Import Go backoff.

Lemma sameConfig_refl (b : ExponentialBackOff) : sameConfig b b.
Proof. unfold sameConfig. tauto. Qed.

Lemma sameConfig_trans (b1 b2 b3 : ExponentialBackOff) :
  sameConfig b1 b2 -> sameConfig b2 b3 -> sameConfig b1 b3.
Proof. unfold sameConfig. intuition congruence. Qed.

Lemma sameConfig_withState (b : ExponentialBackOff) (cur : Duration) (start : Time) :
  sameConfig b (withState b cur start).
Proof. unfold sameConfig. cbn. tauto. Qed.

Lemma wellConfigured_sameConfig (b1 b2 : ExponentialBackOff) :
  sameConfig b1 b2 -> wellConfigured b1 -> wellConfigured b2.
Proof.
  unfold sameConfig, wellConfigured.
  intros (H1 & H2 & H3 & H4 & H5 & H6). rewrite <- H1, <- H2, <- H3, <- H4, <- H5, <- H6.
  tauto.
Qed.

Lemma incrementCurrentInterval_config (b : ExponentialBackOff) :
  sameConfig b (incrementCurrentInterval b)
  /\ startTime (incrementCurrentInterval b) = startTime b.
Proof.
  unfold incrementCurrentInterval.
  destruct (_ <=? _); split; try reflexivity; apply sameConfig_withState.
Qed.

Lemma incrementCurrentInterval_nonneg (b : ExponentialBackOff) :
  wellConfigured b -> 0 <= currentInterval b ->
  0 <= currentInterval (incrementCurrentInterval b).
Proof.
  intros (_ & _ & Hmax & _ & _ & _ & Hn & Hd) Hcur.
  unfold incrementCurrentInterval.
  destruct (_ <=? _); cbn; [exact Hmax |].
  apply Z.quot_pos; [apply Z.mul_nonneg_nonneg; assumption | exact Hd].
Qed.

(** The randomized interval is never negative. *)
Lemma getRandomValueFromInterval_nonneg (rf random : Frac) (cur : Duration) :
  0 <= num rf <= den rf -> 0 < den rf -> unitInterval random -> 0 <= cur ->
  0 <= getRandomValueFromInterval rf random cur.
Proof.
  intros [Hn Hle] Hd [Hr0 Hr1] Hcur. unfold getRandomValueFromInterval.
  destruct (num rf =? 0); [exact Hcur |].
  apply Z.quot_pos; [| nia].
  apply Z.add_nonneg_nonneg.
  - apply Z.mul_nonneg_nonneg; [apply Z.mul_nonneg_nonneg |]; lia.
  - apply Z.mul_nonneg_nonneg; [lia |].
    apply Z.add_nonneg_nonneg; [| lia].
    apply Z.mul_nonneg_nonneg; lia.
Qed.

Lemma NextBackOff_config (b : ExponentialBackOff) (now : Time) (random : Frac) :
  sameConfig b (snd (NextBackOff b now random))
  /\ startTime (snd (NextBackOff b now random)) = startTime b.
Proof.
  unfold NextBackOff. destruct (_ && _); cbn [snd]; apply incrementCurrentInterval_config.
Qed.

(** How the interval grows is a matter of the configuration and of the
    interval itself, not of the start time. *)
Lemma incrementCurrentInterval_same (b1 b2 : ExponentialBackOff) :
  sameConfig b1 b2 -> currentInterval b1 = currentInterval b2 ->
  currentInterval (incrementCurrentInterval b1)
  = currentInterval (incrementCurrentInterval b2).
Proof.
  intros (_ & _ & Hm & Hmax & _) Hcur. unfold incrementCurrentInterval.
  rewrite Hm, Hmax, Hcur. destruct (_ <=? _); reflexivity.
Qed.

Lemma sameConfig_sym (b1 b2 : ExponentialBackOff) :
  sameConfig b1 b2 -> sameConfig b2 b1.
Proof. unfold sameConfig. intuition congruence. Qed.

Lemma iter_incrementCurrentInterval_config (n : nat) (b : ExponentialBackOff) :
  sameConfig b (Nat.iter n incrementCurrentInterval b).
Proof.
  induction n as [| n IH]; [apply sameConfig_refl |].
  cbn [Nat.iter]. eapply sameConfig_trans; [exact IH |].
  apply incrementCurrentInterval_config.
Qed.

Lemma iter_incrementCurrentInterval (n : nat) (b1 b2 : ExponentialBackOff) :
  sameConfig b1 b2 -> currentInterval b1 = currentInterval b2 ->
  currentInterval (Nat.iter n incrementCurrentInterval b1)
  = currentInterval (Nat.iter n incrementCurrentInterval b2).
Proof.
  intros Hcfg Hcur. induction n as [| n IH]; [exact Hcur |].
  cbn [Nat.iter]. apply incrementCurrentInterval_same; [| exact IH].
  eapply sameConfig_trans; [apply sameConfig_sym, iter_incrementCurrentInterval_config |].
  eapply sameConfig_trans; [exact Hcfg |].
  apply iter_incrementCurrentInterval_config.
Qed.

(** A pause lasts as long as was asked, and longer by no more than the
    runtime is late. *)
Lemma sleepFor_bounds (d : Duration) (l : N) :
  0 <= sleepFor d l
  /\ (0 <= d -> d <= sleepFor d l <= d + Z.of_N l)
  /\ (d <= 0 -> sleepFor d l = 0).
Proof.
  unfold sleepFor. destruct (Z.ltb_spec 0 d); lia.
Qed.

End BackoffFacts.

Section RetryFacts.

Import Go http backoff retry.

Variable rt : Runtime.
Variable tr : RoundTripper.
Variable startTime : Time.

Lemma retrying_step (fuel k : nat) (b : ExponentialBackOff) (s : State) :
  retrying rt tr startTime (S fuel) k b s
  = let '(res, s1) := operation rt tr startTime s in
    match res with
    | OpNil => Some (None, s1)
    | OpPermanent e => Some (Some e, s1)
    | OpError e =>
        let '(next, b') := NextBackOff b (now s1) (float64 rt k) in
        if next =? Stop then Some (Some e, s1)
        else retrying rt tr startTime fuel (S k) b' (sleep rt next s1)
    end.
Proof. reflexivity. Qed.

(** A status of 500 or more: the body is closed and the error is a plain one. *)
Lemma operation_server_error (s : State) (res : Response) :
  outcome (tr (requests s)) = inl res ->
  500 <= StatusCode res ->
  operation rt tr startTime s
  = (OpError (ServerError (StatusCode res) (Status res)), closeResp (send tr s)).
Proof.
  intros Hout Hcode. unfold operation. rewrite Hout.
  destruct (Z.leb_spec 500 (StatusCode res)); [reflexivity | lia].
Qed.

(** A status from 400 to 499 other than 429: the body is closed and the error
    is permanent. *)
Lemma operation_client_error (s : State) (res : Response) :
  outcome (tr (requests s)) = inl res ->
  400 <= StatusCode res < 500 ->
  StatusCode res <> StatusTooManyRequests ->
  operation rt tr startTime s
  = (OpPermanent (ClientError (StatusCode res) (Status res)), closeResp (send tr s)).
Proof.
  intros Hout Hcode Hne. unfold operation. rewrite Hout.
  destruct (Z.leb_spec 500 (StatusCode res)); [lia |].
  destruct (Z.eqb_spec (StatusCode res) StatusTooManyRequests); [contradiction |].
  destruct (Z.leb_spec 400 (StatusCode res)); [reflexivity | lia].
Qed.

(** A 429 whose Retry-After parses to a delay past the budget: the body is
    closed, nothing sleeps and the error is permanent. *)
Lemma operation_retry_after_too_long (s : State) (res : Response) (delay : Duration) :
  outcome (tr (requests s)) = inl res ->
  StatusCode res = StatusTooManyRequests ->
  RetryAfter res <> "" ->
  ParseDuration rt (RetryAfter res) = Some delay ->
  MaxElapsedTime (shared s) < delay
  \/ MaxElapsedTime (shared s)
     < dadd (Since (now s + took (tr (requests s))) startTime) delay ->
  operation rt tr startTime s
  = (OpPermanent (RetryAfterTooLong delay), closeResp (send tr s)).
Proof.
  intros Hout Hcode Hhdr Hparse Hlong. unfold operation. rewrite Hout.
  rewrite Hcode. change (500 <=? StatusTooManyRequests) with false.
  change (StatusTooManyRequests =? StatusTooManyRequests) with true. cbv iota.
  destruct (String.eqb_spec (RetryAfter res) ""); [contradiction |].
  rewrite Hparse. cbn [closeResp send shared now].
  destruct Hlong as [H | H].
  - apply Z.ltb_lt in H. rewrite H. reflexivity.
  - apply Z.ltb_lt in H. rewrite H, orb_true_r. reflexivity.
Qed.

(** A permanent error ends the loop with that attempt. *)
Lemma retrying_permanent (fuel k : nat) (b : ExponentialBackOff) (s s' : State)
  (e : error) :
  operation rt tr startTime s = (OpPermanent e, s') ->
  retrying rt tr startTime (S fuel) k b s = Some (Some e, s').
Proof. intros H. rewrite retrying_step, H. reflexivity. Qed.

(** More fuel does not change what the loop returns. *)
Lemma retrying_more_fuel (fuel : nat) :
  forall (fuel' k : nat) (b : ExponentialBackOff) (s : State)
         (x : option error * State),
    retrying rt tr startTime fuel k b s = Some x ->
    (fuel <= fuel')%nat ->
    retrying rt tr startTime fuel' k b s = Some x.
Proof.
  induction fuel as [| fuel IH]; intros fuel' k b s x Hrun Hle; [discriminate |].
  destruct fuel' as [| fuel']; [lia |].
  rewrite retrying_step in *.
  destruct (operation rt tr startTime s) as [[| e | e] s1]; try exact Hrun.
  destruct (NextBackOff _ _ _) as [next b'].
  destruct (next =? Stop); [exact Hrun |].
  apply IH; [exact Hrun | lia].
Qed.

(** One run of the closure, whatever the transport returns: it makes one
    request, never writes the policy object, keeps what the transport
    returned, and moves the clock by the time the request took and by the
    Retry-After pause if it took one. *)
Lemma operation_attempt (s : State) :
  shared (snd (operation rt tr startTime s)) = shared s
  /\ requests (snd (operation rt tr startTime s)) = S (requests s)
  /\ sent (snd (operation rt tr startTime s)) = now s :: sent s
  /\ kept (tr (requests s)) (snd (operation rt tr startTime s))
  /\ (exists pause, 0 <= pause
        /\ now (snd (operation rt tr startTime s))
           = now s + took (tr (requests s)) + pause)
  /\ (forall e, fst (operation rt tr startTime s) = OpError e ->
        retryable (tr (requests s)))
  /\ (exists l, naps (snd (operation rt tr startTime s)) = (l ++ naps s)%list).
Proof.
  unfold operation, kept, retryable.
  destruct (outcome (tr (requests s))) as [res | e] eqn:Hout.
  - destruct (Z.leb_spec 500 (StatusCode res)) as [H5 | H5].
    + cbn [fst snd closeResp send shared requests sent resp err now naps option_map].
      rewrite Hout.
      destruct (Z.leb_spec 400 (StatusCode res)); [| lia].
      repeat split; auto; [exists 0; lia | exists []; reflexivity].
    + destruct (Z.eqb_spec (StatusCode res) StatusTooManyRequests) as [H429 | H429].
      * assert (H4 : (400 <=? StatusCode res) = true)
          by (rewrite H429; reflexivity).
        destruct (String.eqb (RetryAfter res) "").
        -- cbn [fst snd closeResp send shared requests sent resp err now naps option_map].
           rewrite Hout, H4.
           repeat split; auto; [exists 0; lia | exists []; reflexivity].
        -- destruct (ParseDuration rt (RetryAfter res)) as [delay |].
           ++ destruct (_ || _);
                cbn [fst snd sleep closeResp send shared requests sent resp err now
                     naps option_map];
                rewrite Hout, H4.
              ** repeat split; auto; try discriminate;
                   [exists 0; lia | exists []; reflexivity].
              ** repeat split; auto; [| exists [delay]; reflexivity].
                 eexists. split; [| reflexivity].
                 apply sleepFor_bounds.
           ++ cbn [fst snd closeResp send shared requests sent resp err now naps option_map].
              rewrite Hout, H4.
              repeat split; auto; [exists 0; lia | exists []; reflexivity].
      * destruct (Z.leb_spec 400 (StatusCode res)) as [H4 | H4];
          cbn [fst snd closeResp send shared requests sent resp err now naps option_map];
          rewrite Hout; repeat split; auto; try discriminate;
          try (exists 0; lia); exists []; reflexivity.
  - destruct (isTimeout e) eqn:Ht;
      cbn [fst snd send shared requests sent resp err now naps]; rewrite Hout;
      repeat split; auto; try discriminate;
      try (exists 0; lia); exists []; reflexivity.
Qed.

(** What the loop has done when it returns: it has made a request, holds
    what the last one gave, went on only after answers that can be retried,
    and has left the policy object as it was. *)
Lemma retrying_returned (fuel : nat) :
  forall (k : nat) (b : ExponentialBackOff) (s s' : State) (e : option error),
    retrying rt tr startTime fuel k b s = Some (e, s') ->
    (requests s < requests s')%nat
    /\ (exists n, requests s' = S n /\ kept (tr n) s')
    /\ (forall i, (requests s <= i)%nat -> (S i < requests s')%nat ->
          retryable (tr i))
    /\ (exists l, sent s' = (l ++ now s :: sent s)%list)
    /\ (exists l, naps s' = (l ++ naps s)%list)
    /\ shared s' = shared s.
Proof.
  induction fuel as [| fuel IH]; intros k b s s' e Hrun; [discriminate |].
  rewrite retrying_step in Hrun.
  destruct (operation_attempt s) as (Hsh & Hreq & Hsent & Hkept & _ & Hretry & Hnaps).
  destruct (operation rt tr startTime s) as [res s1]. cbn [fst snd] in *.
  assert (Hlast : (requests s < requests s1)%nat
            /\ (exists n, requests s1 = S n /\ kept (tr n) s1)
            /\ (forall i, (requests s <= i)%nat -> (S i < requests s1)%nat ->
                  retryable (tr i))
            /\ (exists l, sent s1 = (l ++ now s :: sent s)%list)
            /\ (exists l, naps s1 = (l ++ naps s)%list)
            /\ shared s1 = shared s).
  { split; [lia |].
    split; [exists (requests s); split; [exact Hreq | exact Hkept] |].
    split; [intros i Hi Hi'; lia |].
    split; [exists []; rewrite Hsent; reflexivity |].
    split; [exact Hnaps | exact Hsh]. }
  destruct res as [| e1 | e1].
  - inversion Hrun; subst. exact Hlast.
  - destruct (NextBackOff b (now s1) (float64 rt k)) as [next b'].
    destruct (next =? Stop).
    + inversion Hrun; subst. exact Hlast.
    + apply IH in Hrun as (Hlt & Hn & Hbefore & (l1 & Hs) & (l2 & Hz) & Hsh').
      cbn [requests sent naps shared now sleep] in *.
      split; [lia |]. split; [exact Hn |].
      split.
      * intros i Hi Hi'.
        destruct (Nat.eq_dec i (requests s)) as [-> | Hne].
        -- exact (Hretry e1 eq_refl).
        -- apply Hbefore; lia.
      * split.
        -- eexists (l1 ++ [_])%list.
           rewrite Hs, Hsent, <- app_assoc. reflexivity.
        -- split; [| congruence].
           destruct Hnaps as [l0 Hl0]. exists (l2 ++ next :: l0)%list.
           rewrite Hz, Hl0, <- app_assoc. reflexivity.
  - inversion Hrun; subst. exact Hlast.
Qed.

Hypothesis draws : forall k, unitInterval (float64 rt k).

(** The pause the policy picks is never negative. *)
Lemma next_nonneg (b : ExponentialBackOff) (k : nat) :
  wellConfigured b -> 0 <= currentInterval b ->
  0 <= getRandomValueFromInterval (RandomizationFactor b) (float64 rt k) (currentInterval b).
Proof.
  intros (_ & _ & _ & _ & Hrf & Hrd & _) Hcur.
  apply getRandomValueFromInterval_nonneg; auto.
Qed.

(** What the policy says after a failed attempt, the clock showing [t]: it
    stops exactly when the budget does not hold the time elapsed and the
    pause; else it names the pause. *)
Lemma NextBackOff_decides (b : ExponentialBackOff) (t : Time) (k : nat) :
  wellConfigured b -> 0 <= currentInterval b ->
  let next := getRandomValueFromInterval (RandomizationFactor b) (float64 rt k)
                (currentInterval b) in
  0 <= next
  /\ (if fst (NextBackOff b t (float64 rt k)) =? Stop
      then MaxElapsedTime b < t - backoff.startTime b + next
      else fst (NextBackOff b t (float64 rt k)) = next
           /\ t - backoff.startTime b + next <= MaxElapsedTime b)
  /\ snd (NextBackOff b t (float64 rt k)) = incrementCurrentInterval b.
Proof.
  intros Hwf Hcur next.
  pose proof (next_nonneg b k Hwf Hcur) as Hnext. fold next in Hnext.
  destruct Hwf as (Hstop & _ & _ & Hbudget & _).
  split; [exact Hnext |].
  unfold NextBackOff, GetElapsedTime. fold next.
  destruct (Z.eqb_spec (MaxElapsedTime b) 0) as [E | _]; [contradiction |].
  cbn [negb andb].
  destruct (Z.ltb_spec (MaxElapsedTime b) (t - backoff.startTime b + next)) as [Hover | Hfit];
    cbn [fst snd].
  - rewrite Hstop. change (Stop =? Stop) with true. cbv iota. auto.
  - destruct (Z.eqb_spec next Stop) as [E | _]; [unfold Stop in E; lia |]. auto.
Qed.

(** After an answer with a 5xx status the loop goes on to another attempt,
    the body closed and the policy's pause taken, unless the budget does not
    hold the time elapsed and that pause: then it ends with the answer. *)
Lemma retrying_server_error (fuel k : nat) (b : ExponentialBackOff) (s : State)
  (res : Response) :
  wellConfigured b -> 0 <= currentInterval b ->
  outcome (tr (requests s)) = inl res ->
  500 <= StatusCode res ->
  retrying rt tr startTime (S fuel) k b s
  = if MaxElapsedTime b
       <? now s + took (tr (requests s)) - backoff.startTime b
          + getRandomValueFromInterval (RandomizationFactor b) (float64 rt k)
              (currentInterval b)
    then Some (Some (ServerError (StatusCode res) (Status res)), closeResp (send tr s))
    else retrying rt tr startTime fuel (S k) (incrementCurrentInterval b)
           (sleep rt (getRandomValueFromInterval (RandomizationFactor b) (float64 rt k)
                        (currentInterval b))
              (closeResp (send tr s))).
Proof.
  intros Hwf Hcur Hout Hcode.
  rewrite retrying_step, (operation_server_error s res Hout Hcode).
  destruct (NextBackOff_decides b (now (closeResp (send tr s))) k Hwf Hcur)
    as (Hnext & Hdec & Hb').
  destruct (NextBackOff b (now (closeResp (send tr s))) (float64 rt k)) as [next b'].
  cbn [fst snd now closeResp send] in *.
  destruct (next =? Stop).
  - apply Z.ltb_lt in Hdec. rewrite Hdec. reflexivity.
  - destruct Hdec as [-> Hfit]. subst b'.
    apply Z.ltb_ge in Hfit. rewrite Hfit. reflexivity.
Qed.

(** Every request the loop makes after the one it starts with goes out within
    the budget, counted from the policy's start time, or later than that by
    no more than the runtime was late in ending one pause. *)
Lemma retrying_within_budget (fuel : nat) :
  forall (k : nat) (b : ExponentialBackOff) (s s' : State) (e : option error),
    retrying rt tr startTime fuel k b s = Some (e, s') ->
    wellConfigured b ->
    0 <= currentInterval b ->
    forall t, In t (sent s') ->
      In t (now s :: sent s)
      \/ exists j, (j < List.length (naps s'))%nat
                   /\ t - backoff.startTime b <= MaxElapsedTime b + Z.of_N (late rt j).
Proof.
  induction fuel as [| fuel IH]; intros k b s s' e Hrun Hwf Hcur t Ht; [discriminate |].
  rewrite retrying_step in Hrun.
  destruct (operation_attempt s) as (_ & _ & Hsent & _ & _ & _ & _).
  destruct (operation rt tr startTime s) as [res s1]. cbn [fst snd] in *.
  destruct res as [| e1 | e1].
  - inversion Hrun; subst. left. rewrite Hsent in Ht. exact Ht.
  - destruct (NextBackOff_decides b (now s1) k Hwf Hcur) as (Hnext & Hdec & Hb').
    destruct (incrementCurrentInterval_config b) as [Hcfg Hst].
    destruct (NextBackOff b (now s1) (float64 rt k)) as [next b']. cbn [fst snd] in *.
    destruct (next =? Stop).
    + inversion Hrun; subst. left. rewrite Hsent in Ht. exact Ht.
    + destruct Hdec as [-> Hfit]. subst b'.
      pose proof (retrying_returned _ _ _ _ _ _ Hrun) as (_ & _ & _ & _ & (l & Hnaps) & _).
      eapply IH in Hrun; [| | | exact Ht].
      * cbn [now sent sleep naps] in Hrun, Hnaps.
        destruct Hcfg as (_ & _ & _ & _ & HM & _). rewrite Hst, <- HM in Hrun.
        destruct Hrun as [[Hnow | Hin] | Hle].
        -- right. exists (List.length (naps s1)). split.
           ++ rewrite Hnaps, length_app. cbn [List.length]. lia.
           ++ subst t.
              pose proof (sleepFor_bounds
                            (getRandomValueFromInterval (RandomizationFactor b)
                               (float64 rt k) (currentInterval b))
                            (late rt (List.length (naps s1)))) as (_ & Hb & _).
              specialize (Hb Hnext). lia.
        -- left. rewrite Hsent in Hin. exact Hin.
        -- right. exact Hle.
      * eapply wellConfigured_sameConfig; [exact Hcfg | exact Hwf].
      * apply incrementCurrentInterval_nonneg; assumption.
  - inversion Hrun; subst. left. rewrite Hsent in Ht. exact Ht.
Qed.

(** Why the loop ended, when its last request was answered with a 5xx
    status: the budget did not hold the time elapsed and the pause the
    policy named next. *)
Lemma retrying_budget_spent (fuel : nat) :
  forall (k : nat) (b : ExponentialBackOff) (s s' : State) (e : option error)
         (n : nat) (res : Response),
    retrying rt tr startTime fuel k b s = Some (e, s') ->
    wellConfigured b ->
    0 <= currentInterval b ->
    requests s' = S n ->
    outcome (tr n) = inl res ->
    500 <= StatusCode res ->
    MaxElapsedTime b
    < now s' - backoff.startTime b
      + getRandomValueFromInterval (RandomizationFactor b)
          (float64 rt (k + (n - requests s)))
          (currentInterval (Nat.iter (n - requests s) incrementCurrentInterval b)).
Proof.
  induction fuel as [| fuel IH]; intros k b s s' e n res Hrun Hwf Hcur Hn Hout Hcode;
    [discriminate |].
  rewrite retrying_step in Hrun.
  destruct (operation_attempt s) as (_ & Hreq & _ & _ & _ & _ & _).
  pose proof (operation_server_error s) as Hsrv.
  destruct (operation rt tr startTime s) as [r1 s1]. cbn [fst snd] in *.
  assert (Hlast : s' = s1 -> n = requests s /\ exists e0, r1 = OpError e0).
  { intros ->. assert (n = requests s) by lia. subst n.
    split; [reflexivity |].
    specialize (Hsrv res Hout Hcode). inversion Hsrv. eauto. }
  destruct r1 as [| e1 | e1].
  - inversion Hrun; subst. destruct (Hlast eq_refl) as [_ [e0 H]]. discriminate.
  - destruct (NextBackOff_decides b (now s1) k Hwf Hcur) as (Hnext & Hdec & Hb').
    destruct (incrementCurrentInterval_config b) as [Hcfg Hst].
    destruct (NextBackOff b (now s1) (float64 rt k)) as [next b']. cbn [fst snd] in *.
    destruct (next =? Stop).
    + inversion Hrun; subst. destruct (Hlast eq_refl) as [-> _].
      rewrite Nat.sub_diag, Nat.add_0_r. cbn [Nat.iter]. exact Hdec.
    + subst b'.
      pose proof (retrying_returned _ _ _ _ _ _ Hrun) as (Hlt & _).
      cbn [requests sleep] in Hlt.
      eapply IH in Hrun; [| | | exact Hn | exact Hout | exact Hcode].
      * cbn [requests sleep] in Hrun.
        destruct Hcfg as (_ & Hrf & _ & _ & HM & _).
        rewrite Hst, <- HM, <- Hrf, Hreq in Hrun.
        replace (n - requests s)%nat with (S (n - S (requests s))) by lia.
        rewrite Nat.iter_succ_r.
        replace (k + S (n - S (requests s)))%nat with (S k + (n - S (requests s)))%nat
          by lia.
        exact Hrun.
      * eapply wellConfigured_sameConfig; [exact Hcfg | exact Hwf].
      * apply incrementCurrentInterval_nonneg; assumption.
  - inversion Hrun; subst. destruct (Hlast eq_refl) as [_ [e0 H]]. discriminate.
Qed.

Hypothesis takes_time : forall i, 1 <= took (tr i).

(** The loop ends, whatever the transport returns: every attempt moves the
    clock, and the policy stops once the budget is passed. *)
Lemma retrying_ends (m : nat) :
  forall (fuel k : nat) (b : ExponentialBackOff) (s : State),
    wellConfigured b ->
    0 <= currentInterval b ->
    (Z.to_nat (MaxElapsedTime b + 1 - (now s - backoff.startTime b)) <= m)%nat ->
    (m < fuel)%nat ->
    exists e s', retrying rt tr startTime fuel k b s = Some (e, s').
Proof.
  induction m as [| m IH]; intros fuel k b s Hwf Hcur Hm Hfuel;
    (destruct fuel as [| fuel]; [lia |]);
    rewrite retrying_step;
    destruct (operation_attempt s) as (_ & _ & _ & _ & (pause & Hpause & Hnow) & _);
    pose proof (takes_time (requests s)) as Htook;
    destruct (operation rt tr startTime s) as [res s1]; cbn [fst snd] in *;
    (destruct res as [| e1 | e1]; [eexists _, _; reflexivity | | eexists _, _; reflexivity]);
    destruct (NextBackOff_decides b (now s1) k Hwf Hcur) as (Hnext & Hdec & Hb');
    destruct (incrementCurrentInterval_config b) as [Hcfg Hst];
    destruct (NextBackOff b (now s1) (float64 rt k)) as [next b']; cbn [fst snd] in *;
    (destruct (next =? Stop); [eexists _, _; reflexivity |]);
    destruct Hdec as [-> Hfit]; subst b'.
  - lia.
  - apply IH.
    + eapply wellConfigured_sameConfig; [exact Hcfg | exact Hwf].
    + apply incrementCurrentInterval_nonneg; assumption.
    + cbn [now sleep]. rewrite Hst.
      destruct Hcfg as (_ & _ & _ & _ & HM & _). rewrite <- HM.
      pose proof (sleepFor_bounds
                    (getRandomValueFromInterval (RandomizationFactor b)
                       (float64 rt k) (currentInterval b))
                    (late rt (List.length (naps s1)))) as (Hs & _).
      lia.
    + lia.
Qed.

End RetryFacts.

Section RoundTripFacts.

Import Go http backoff retry.

(** The loop of a call: [Retry] starts it from its own copy of the policy,
    reset. *)
Lemma RoundTrip_unfold (fuel : nat) (rt : Runtime) (r : RetryableTransport) (t0 : Time) :
  RoundTrip fuel rt r t0
  = match retrying rt (transport r) t0 fuel 0%nat (Reset (backoffConfig r) t0)
            (enter r t0) with
    | None => None
    | Some (_, s) => Some s
    end.
Proof. reflexivity. Qed.

(** A call that returns with some fuel returns the same with more. *)
Lemma RoundTrip_more_fuel (fuel fuel' : nat) (rt : Runtime) (r : RetryableTransport)
  (t0 : Time) (s : State) :
  RoundTrip fuel rt r t0 = Some s ->
  (fuel <= fuel')%nat ->
  RoundTrip fuel' rt r t0 = Some s.
Proof.
  rewrite !RoundTrip_unfold. intros Hrun Hle.
  destruct (retrying rt (transport r) t0 fuel 0%nat _ _) as [[e s1] |] eqn:E;
    [| discriminate].
  rewrite (retrying_more_fuel rt (transport r) t0 _ _ _ _ _ _ E Hle). exact Hrun.
Qed.

(** The policy a call starts its loop from. *)
Lemma Reset_wellConfigured (b : ExponentialBackOff) (t : Time) :
  wellConfigured b ->
  wellConfigured (Reset b t) /\ 0 <= currentInterval (Reset b t).
Proof.
  intros Hwf. split.
  - eapply wellConfigured_sameConfig; [| exact Hwf]. apply sameConfig_withState.
  - cbn. destruct Hwf as (_ & H & _). exact H.
Qed.

(** What a call has done when it returns. *)
Lemma RoundTrip_returned (fuel : nat) (rt : Runtime) (r : RetryableTransport)
  (t0 : Time) (s : State) :
  RoundTrip fuel rt r t0 = Some s ->
  (exists n, requests s = S n /\ kept (transport r n) s)
  /\ (forall i, (S i < requests s)%nat -> retryable (transport r i))
  /\ (exists l, sent s = (l ++ [t0])%list)
  /\ shared s = backoffConfig r.
Proof.
  intros Hrun. rewrite RoundTrip_unfold in Hrun.
  destruct (retrying rt (transport r) t0 fuel 0%nat _ _) as [[e s1] |] eqn:E;
    [| discriminate].
  inversion Hrun; subst s1.
  apply retrying_returned in E as (_ & Hn & Hbefore & Hsent & _ & Hsh).
  split; [exact Hn |].
  split; [intros i Hi; apply Hbefore; [cbn; lia | exact Hi] |].
  split; [exact Hsent | exact Hsh].
Qed.

(** A call on a well-configured transport returns, whatever the wrapped
    transport answers and however late the runtime wakes it, and fuel does
    not matter to what it returns. *)
Lemma RoundTrip_returns (rt : Runtime) (r : RetryableTransport) (t0 : Time) :
  wellConfigured (backoffConfig r) ->
  (forall i, 1 <= took (transport r i)) ->
  (forall k, unitInterval (float64 rt k)) ->
  exists s,
    (forall fuel, (enoughFuel (backoffConfig r) <= fuel)%nat ->
                  RoundTrip fuel rt r t0 = Some s)
    /\ (forall fuel s', RoundTrip fuel rt r t0 = Some s' -> s' = s).
Proof.
  intros Hwf Htook Hdraws.
  destruct (Reset_wellConfigured (backoffConfig r) t0 Hwf) as [Hwf0 Hcur0].
  destruct (retrying_ends rt (transport r) t0 Hdraws Htook
              (Z.to_nat (MaxElapsedTime (backoffConfig r) + 1))
              (enoughFuel (backoffConfig r)) 0%nat
              (Reset (backoffConfig r) t0) (enter r t0) Hwf0 Hcur0)
    as (e & s & Hrun).
  { cbn. apply Nat.eq_le_incl. f_equal. lia. }
  { unfold enoughFuel. lia. }
  assert (Hall : forall fuel, (enoughFuel (backoffConfig r) <= fuel)%nat ->
                              RoundTrip fuel rt r t0 = Some s).
  { intros fuel Hfuel. rewrite RoundTrip_unfold.
    rewrite (retrying_more_fuel rt (transport r) t0 _ fuel 0%nat _ _ _ Hrun Hfuel).
    reflexivity. }
  exists s. split; [exact Hall |].
  intros fuel s' Hs'.
  pose proof (RoundTrip_more_fuel fuel (Nat.max fuel (enoughFuel (backoffConfig r)))
                rt r t0 s' Hs' (Nat.le_max_l _ _)) as H1.
  rewrite (Hall _ (Nat.le_max_r _ _)) in H1. inversion H1. reflexivity.
Qed.

End RoundTripFacts.

Section RoundTripClaims.

Import Go http backoff retry Scenarios.

(** C6. A response with a client-error status (400 to 499) other than 429 is a
    permanent failure.  When it answers the first request, the call makes
    exactly one request, sleeps not at all, and returns that response (its
    body closed) at the moment the request comes back.  When it answers a
    later request of the loop, the loop ends with that request, again
    without a pause after it. *)
Theorem RoundTrip_client_error_is_permanent :
  forall (fuel : nat) (rt : Runtime) (r : RetryableTransport) (t0 : Time)
         (res : Response),
    outcome (transport r 0%nat) = inl res ->
    400 <= StatusCode res <= 499 ->
    StatusCode res <> StatusTooManyRequests ->
    (exists s,
        RoundTrip (S fuel) rt r t0 = Some s
        /\ requests s = 1%nat
        /\ naps s = []
        /\ resp s = Some (closeBody res)
        /\ err s = None
        /\ now s = t0 + took (transport r 0%nat))
    /\ (forall (k : nat) (b : ExponentialBackOff) (s : State) (res' : Response),
          outcome (transport r (requests s)) = inl res' ->
          400 <= StatusCode res' <= 499 ->
          StatusCode res' <> StatusTooManyRequests ->
          exists e s',
            retrying rt (transport r) t0 (S fuel) k b s = Some (Some e, s')
            /\ requests s' = S (requests s)
            /\ naps s' = naps s
            /\ resp s' = Some (closeBody res')
            /\ now s' = now s + took (transport r (requests s))).
Proof.
  intros fuel rt r t0 res Hout Hcode Hne.
  assert (Hany : forall (k : nat) (b : ExponentialBackOff) (s : State) (res' : Response),
             outcome (transport r (requests s)) = inl res' ->
             400 <= StatusCode res' <= 499 ->
             StatusCode res' <> StatusTooManyRequests ->
             retrying rt (transport r) t0 (S fuel) k b s
             = Some (Some (ClientError (StatusCode res') (Status res')),
                     closeResp (send (transport r) s))).
  { intros k b s res' Hout' Hcode' Hne'.
    apply retrying_permanent, operation_client_error; [exact Hout' | lia | exact Hne']. }
  split.
  - rewrite RoundTrip_unfold,
      (Hany 0%nat (Reset (backoffConfig r) t0) (enter r t0) res Hout Hcode Hne).
    eexists. split; [reflexivity |].
    cbn [requests naps resp err now closeResp send enter option_map].
    rewrite Hout. auto.
  - intros k b s res' Hout' Hcode' Hne'.
    rewrite (Hany k b s res' Hout' Hcode' Hne').
    eexists _, _. split; [reflexivity |].
    cbn [requests naps resp now closeResp send option_map].
    rewrite Hout'. auto.
Qed.

(** The "Clientside Error" case of the tests: a 404 after one millisecond. *)
Lemma RoundTrip_client_error_is_permanent_witness :
  exists s,
    RoundTrip 1 (runtime 1 2) (testTransport (always 404 "" Millisecond)) 0 = Some s
    /\ requests s = 1%nat
    /\ naps s = []
    /\ resp s = Some (closeBody (response 404 ""))
    /\ err s = None
    /\ now s = 0 + Millisecond.
Proof.
  apply (RoundTrip_client_error_is_permanent 0 (runtime 1 2)
           (testTransport (always 404 "" Millisecond)) 0 (response 404 ""));
    [reflexivity | cbn; lia | discriminate].
Defined.

(** C4. A 429 whose Retry-After header parses to a delay that is more than
    MaxElapsedTime, or that added to the time elapsed since the call began
    (as Go adds two durations) passes MaxElapsedTime, is a permanent failure.
    When it answers the first request, exactly one request is made in
    total and nothing sleeps; when it answers a later request, the loop ends
    with that request and without a pause. *)
Theorem RoundTrip_retry_after_beyond_budget_is_permanent :
  forall (fuel : nat) (rt : Runtime) (r : RetryableTransport) (t0 : Time)
         (res : Response) (delay : Duration),
    outcome (transport r 0%nat) = inl res ->
    StatusCode res = StatusTooManyRequests ->
    RetryAfter res <> "" ->
    ParseDuration rt (RetryAfter res) = Some delay ->
    MaxElapsedTime (backoffConfig r) < delay
    \/ MaxElapsedTime (backoffConfig r)
       < dadd (Since (t0 + took (transport r 0%nat)) t0) delay ->
    (exists s,
        RoundTrip (S fuel) rt r t0 = Some s
        /\ requests s = 1%nat
        /\ naps s = []
        /\ resp s = Some (closeBody res)
        /\ err s = None
        /\ now s = t0 + took (transport r 0%nat))
    /\ (forall (k : nat) (b : ExponentialBackOff) (s : State) (res' : Response)
               (delay' : Duration),
          outcome (transport r (requests s)) = inl res' ->
          StatusCode res' = StatusTooManyRequests ->
          RetryAfter res' <> "" ->
          ParseDuration rt (RetryAfter res') = Some delay' ->
          MaxElapsedTime (shared s) < delay'
          \/ MaxElapsedTime (shared s)
             < dadd (Since (now s + took (transport r (requests s))) t0) delay' ->
          exists s',
            retrying rt (transport r) t0 (S fuel) k b s
            = Some (Some (RetryAfterTooLong delay'), s')
            /\ requests s' = S (requests s)
            /\ naps s' = naps s
            /\ resp s' = Some (closeBody res')
            /\ now s' = now s + took (transport r (requests s))).
Proof.
  intros fuel rt r t0 res delay Hout Hcode Hhdr Hparse Hlong.
  assert (Hany : forall (k : nat) (b : ExponentialBackOff) (s : State)
                        (res' : Response) (delay' : Duration),
             outcome (transport r (requests s)) = inl res' ->
             StatusCode res' = StatusTooManyRequests ->
             RetryAfter res' <> "" ->
             ParseDuration rt (RetryAfter res') = Some delay' ->
             MaxElapsedTime (shared s) < delay'
             \/ MaxElapsedTime (shared s)
                < dadd (Since (now s + took (transport r (requests s))) t0) delay' ->
             retrying rt (transport r) t0 (S fuel) k b s
             = Some (Some (RetryAfterTooLong delay'), closeResp (send (transport r) s))).
  { intros k b s res' delay' H1 H2 H3 H4 H5.
    apply retrying_permanent. eapply operation_retry_after_too_long; eassumption. }
  split.
  - rewrite RoundTrip_unfold,
      (Hany 0%nat (Reset (backoffConfig r) t0) (enter r t0) res delay
         Hout Hcode Hhdr Hparse Hlong).
    eexists. split; [reflexivity |].
    cbn [requests naps resp err now closeResp send enter option_map].
    rewrite Hout. auto.
  - intros k b s res' delay' H1 H2 H3 H4 H5.
    rewrite (Hany k b s res' delay' H1 H2 H3 H4 H5).
    eexists. split; [reflexivity |].
    cbn [requests naps resp now closeResp send option_map].
    rewrite H1. auto.
Qed.

(** The "Rate Limiting with excessive Retry-After" case of the tests: a 429
    with [Retry-After: 1h] under a budget of 200ms. *)
Lemma RoundTrip_retry_after_beyond_budget_is_permanent_witness :
  exists s,
    RoundTrip 1 (runtime 1 2) (testTransport (always 429 "1h" Millisecond)) 0 = Some s
    /\ requests s = 1%nat
    /\ naps s = []
    /\ resp s = Some (closeBody (response 429 "1h"))
    /\ err s = None
    /\ now s = 0 + Millisecond.
Proof.
  apply (RoundTrip_retry_after_beyond_budget_is_permanent 0 (runtime 1 2)
           (testTransport (always 429 "1h" Millisecond)) 0 (response 429 "1h") Hour);
    [reflexivity | reflexivity | discriminate | reflexivity | left; reflexivity].
Defined.

End RoundTripClaims.

Section Construction.

Import Go backoff retry.

(** What [NewRetryableTransport] builds from intervals that are not negative
    is well configured. *)
Lemma NewRetryableTransport_wellConfigured (cfg : RetryableTransportCfg) (now : Time) :
  0 <= cfgInitialInterval cfg -> 0 <= cfgMaxInterval cfg ->
  wellConfigured (backoffConfig (NewRetryableTransport cfg now)).
Proof.
  intros Hinit Hmax. unfold wellConfigured, NewRetryableTransport, setIfNotZero.
  cbn [backoffConfig InitialInterval MaxInterval MaxElapsedTime StopDuration
       RandomizationFactor Multiplier NewExponentialBackOff Reset withState num den
       DefaultRandomizationFactor DefaultMultiplier].
  refine (conj eq_refl (conj _ (conj _ (conj _ _)))).
  - destruct (cfgInitialInterval cfg =? 0); [vm_compute; discriminate | exact Hinit].
  - destruct (cfgMaxInterval cfg =? 0); [vm_compute; discriminate | exact Hmax].
  - destruct (Z.eqb_spec (cfgMaxElapsedTime cfg) 0); [vm_compute; discriminate | assumption].
  - lia.
Qed.

End Construction.

Section ServerErrorClaims.

Import Go http backoff retry Scenarios.

(** C10. Against a server that answers every attempt with a 5xx status, a call
    on a well-configured transport ends once the budget is used up; it
    returns the response of its last attempt with a nil error, and the body of
    that response has been closed.  Fuel does not matter: with enough of it
    the call returns, and whenever it returns it returns the same. *)
Theorem RoundTrip_exhausted_returns_last_response :
  forall (rt : Runtime) (r : RetryableTransport) (t0 : Time),
    wellConfigured (backoffConfig r) ->
    (forall i, exists res, outcome (transport r i) = inl res /\ 500 <= StatusCode res) ->
    (forall i, 1 <= took (transport r i)) ->
    (forall k, unitInterval (float64 rt k)) ->
    exists s n res,
      (forall fuel, (enoughFuel (backoffConfig r) <= fuel)%nat ->
                    RoundTrip fuel rt r t0 = Some s)
      /\ requests s = S n
      /\ outcome (transport r n) = inl res
      /\ 500 <= StatusCode res
      /\ resp s = Some (closeBody res)
      /\ option_map BodyClosed (resp s) = Some true
      /\ err s = None
      /\ (forall fuel s', RoundTrip fuel rt r t0 = Some s' -> s' = s).
Proof.
  intros rt r t0 Hcfg Hsrv Htook Hdraws.
  destruct (RoundTrip_returns rt r t0 Hcfg Htook Hdraws) as (s & Hall & Hdet).
  destruct (RoundTrip_returned _ _ _ _ _ (Hall _ (Nat.le_refl _)))
    as ((n & Hn & Hkept) & _).
  destruct (Hsrv n) as (res & Hout & Hcode).
  unfold kept in Hkept. rewrite Hout in Hkept.
  destruct (Z.leb_spec 400 (StatusCode res)); [| lia].
  destruct Hkept as [Hresp Herr].
  exists s, n, res. rewrite Hresp. cbn. auto 10.
Qed.

(** The "Server Error" case of the tests: always 500, one millisecond each. *)
Lemma RoundTrip_exhausted_returns_last_response_witness :
  exists s n res,
    (forall fuel,
        (enoughFuel (backoffConfig (testTransport (always 500 "" Millisecond))) <= fuel)%nat ->
        RoundTrip fuel (runtime 1 2) (testTransport (always 500 "" Millisecond)) 0 = Some s)
    /\ requests s = S n
    /\ outcome (transport (testTransport (always 500 "" Millisecond)) n) = inl res
    /\ 500 <= StatusCode res
    /\ resp s = Some (closeBody res)
    /\ option_map BodyClosed (resp s) = Some true
    /\ err s = None
    /\ (forall fuel s',
          RoundTrip fuel (runtime 1 2) (testTransport (always 500 "" Millisecond)) 0 = Some s' ->
          s' = s).
Proof.
  apply (RoundTrip_exhausted_returns_last_response (runtime 1 2)
           (testTransport (always 500 "" Millisecond)) 0).
  - unfold wellConfigured. cbn. repeat split; try lia; discriminate.
  - intros i. exists (response 500 ""). split; [reflexivity | vm_compute; discriminate].
  - intros i. vm_compute. discriminate.
  - intros k. unfold unitInterval. cbn. lia.
Defined.

(** C5, as the code has it.  The closure classifies every answer with a 5xx
    status as a plain error, one that can be retried, and closes its body,
    whatever the server did before and does after.  On a well-configured
    transport the loop then goes on to another attempt after the policy's
    pause, unless the budget does not hold the time elapsed and that pause.
    So a call whose first answer is a 5xx makes a second request exactly when
    the time the first attempt took and the first randomized interval are
    together within MaxElapsedTime; a MaxElapsedTime above InitialInterval
    does not suffice.  A retry is started only while the time elapsed and the
    pause before it are within MaxElapsedTime, so that every request after the
    first goes out within MaxElapsedTime of the call's beginning, or later
    than that by no more than the runtime was late in ending one pause.  A
    call that ends on a 5xx answer ends because the budget does not hold the
    next pause, and it returns that answer, closed, with a nil error. *)
Theorem RoundTrip_server_errors_retried_within_budget :
  forall (rt : Runtime) (r : RetryableTransport) (t0 : Time),
    (forall (s : State) (res : Response),
        outcome (transport r (requests s)) = inl res ->
        500 <= StatusCode res ->
        operation rt (transport r) t0 s
        = (OpError (ServerError (StatusCode res) (Status res)),
           closeResp (send (transport r) s)))
    /\ (wellConfigured (backoffConfig r) ->
        (forall i, 1 <= took (transport r i)) ->
        (forall k, unitInterval (float64 rt k)) ->
        (forall (fuel k : nat) (b : ExponentialBackOff) (s : State) (res : Response),
            sameConfig (backoffConfig r) b -> 0 <= currentInterval b ->
            outcome (transport r (requests s)) = inl res ->
            500 <= StatusCode res ->
            retrying rt (transport r) t0 (S fuel) k b s
            = if MaxElapsedTime b
                 <? now s + took (transport r (requests s)) - backoff.startTime b
                    + getRandomValueFromInterval (RandomizationFactor b) (float64 rt k)
                        (currentInterval b)
              then Some (Some (ServerError (StatusCode res) (Status res)),
                         closeResp (send (transport r) s))
              else retrying rt (transport r) t0 fuel (S k) (incrementCurrentInterval b)
                     (sleep rt (getRandomValueFromInterval (RandomizationFactor b)
                                  (float64 rt k) (currentInterval b))
                        (closeResp (send (transport r) s))))
        /\ exists s,
            (forall fuel, (enoughFuel (backoffConfig r) <= fuel)%nat ->
                          RoundTrip fuel rt r t0 = Some s)
            /\ (forall fuel s', RoundTrip fuel rt r t0 = Some s' -> s' = s)
            /\ (forall res,
                  outcome (transport r 0%nat) = inl res -> 500 <= StatusCode res ->
                  ((1 < requests s)%nat
                   <-> took (transport r 0%nat) + firstBackOff rt (backoffConfig r)
                       <= MaxElapsedTime (backoffConfig r)))
            /\ (forall t, In t (sent s) ->
                  t = t0
                  \/ exists j, (j < List.length (naps s))%nat
                       /\ t - t0 <= MaxElapsedTime (backoffConfig r) + Z.of_N (late rt j))
            /\ (forall n res,
                  requests s = S n -> outcome (transport r n) = inl res ->
                  500 <= StatusCode res ->
                  resp s = Some (closeBody res)
                  /\ err s = None
                  /\ MaxElapsedTime (backoffConfig r)
                     < now s - t0 + backOffAt rt (backoffConfig r) n)).
Proof.
  intros rt r t0. split.
  - intros s res Hout Hcode.
    exact (operation_server_error rt (transport r) t0 s res Hout Hcode).
  - intros Hwf Htook Hdraws. split.
    + intros fuel k b s res Hcfg Hcur Hout Hcode.
      apply retrying_server_error; try assumption.
      eapply wellConfigured_sameConfig; eassumption.
    + destruct (RoundTrip_returns rt r t0 Hwf Htook Hdraws) as (s & Hall & Hdet).
      destruct (Reset_wellConfigured (backoffConfig r) t0 Hwf) as [Hwf0 Hcur0].
      pose proof (Hall _ (Nat.le_refl _)) as Hrun.
      destruct (RoundTrip_returned _ _ _ _ _ Hrun) as ((n0 & Hn0 & Hkept) & _).
      rewrite RoundTrip_unfold in Hrun.
      destruct (retrying rt (transport r) t0 _ 0%nat _ _) as [[e s1] |] eqn:E;
        [| discriminate].
      inversion Hrun; subst s1. clear Hrun.
      exists s. refine (conj Hall (conj Hdet (conj _ (conj _ _)))).
      * (* the second request *)
        intros res Hout Hcode. unfold enoughFuel in E.
        rewrite (retrying_server_error rt (transport r) t0 Hdraws _ 0%nat _
                   (enter r t0) res Hwf0 Hcur0 Hout Hcode) in E.
        cbn [now requests enter Reset withState backoff.startTime currentInterval
             RandomizationFactor MaxElapsedTime] in E.
        fold (firstBackOff rt (backoffConfig r)) in E.
        destruct (Z.ltb_spec (MaxElapsedTime (backoffConfig r))
                    (t0 + took (transport r 0%nat) - t0
                     + firstBackOff rt (backoffConfig r))) as [Hover | Hfit].
        -- inversion E; subst s. cbn [requests closeResp send enter]. split; lia.
        -- apply retrying_returned in E as (Hlt & _).
           cbn [requests sleep closeResp send enter] in Hlt. split; lia.
      * (* within the budget *)
        intros t Ht.
        destruct (retrying_within_budget rt (transport r) t0 Hdraws _ _ _ _ _ _ E
                    Hwf0 Hcur0 t Ht) as [[H | []] | H].
        -- left. symmetry. exact H.
        -- right. exact H.
      * (* the call ends on a 5xx answer *)
        intros n res Hn Hout Hcode.
        assert (n0 = n) by lia. subst n0.
        unfold kept in Hkept. rewrite Hout in Hkept.
        destruct (Z.leb_spec 400 (StatusCode res)); [| lia].
        destruct Hkept as [Hresp Herr].
        split; [exact Hresp |]. split; [exact Herr |].
        pose proof (retrying_budget_spent rt (transport r) t0 Hdraws _ _ _ _ _ _ n res E
                      Hwf0 Hcur0 Hn Hout Hcode) as Hspent.
        cbn [requests enter Reset withState backoff.startTime RandomizationFactor
             MaxElapsedTime] in Hspent.
        rewrite Nat.sub_0_r, Nat.add_0_l in Hspent.
        unfold backOffAt.
        rewrite (iter_incrementCurrentInterval n (Reset (backoffConfig r) 0)
                   (Reset (backoffConfig r) t0));
          [exact Hspent | | reflexivity].
        eapply sameConfig_trans; [apply sameConfig_sym |]; apply sameConfig_withState.
Qed.

(** The server of the tests taking 37.5ms for every 500, on a machine that
    ends the second pause a millisecond late: three requests, the third sent
    201ms after the call began. *)
Lemma RoundTrip_server_errors_retried_within_budget_witness :
  exists s,
    RoundTrip 10 (tardy 1 2 1 1000000) (testTransport (always 500 "" 37500000)) 0 = Some s
    /\ rev (sent s) = [0; 87500000; 201000000]
    /\ (1 < requests s)%nat
    /\ (forall t, In t (sent s) ->
          t = 0
          \/ exists j, (j < List.length (naps s))%nat
               /\ t - 0 <= 200 * Millisecond + Z.of_N (late (tardy 1 2 1 1000000) j))
    /\ resp s = Some (closeBody (response 500 ""))
    /\ err s = None.
Proof.
  destruct (proj2 (RoundTrip_server_errors_retried_within_budget (tardy 1 2 1 1000000)
                     (testTransport (always 500 "" 37500000)) 0))
    as (_ & s & _ & Hdet & Htwo & Hsent & Hlast).
  - apply NewRetryableTransport_wellConfigured; cbn; lia.
  - intros i. vm_compute. discriminate.
  - intros k. unfold unitInterval. cbn. lia.
  - exists s.
    assert (E : RoundTrip 10 (tardy 1 2 1 1000000)
                  (testTransport (always 500 "" 37500000)) 0 = Some s).
    { destruct (RoundTrip 10 (tardy 1 2 1 1000000)
                  (testTransport (always 500 "" 37500000)) 0)
        as [s' |] eqn:E; [| vm_compute in E; discriminate E].
      rewrite (Hdet 10%nat s' E). reflexivity. }
    split; [exact E |].
    vm_compute in E. injection E as E. subst s.
    split; [reflexivity |].
    split; [cbn; lia |].
    split; [exact Hsent |].
    destruct (Hlast 2%nat (response 500 "") eq_refl eq_refl ltac:(cbn; lia))
      as (Hresp & Herr & _).
    split; [exact Hresp | exact Herr].
Defined.

(** C5 as the spec words it fails: under the policy of the tests
    (MaxElapsedTime 200ms, more than the InitialInterval of 50ms) a server
    that takes 300ms to answer 500 gets one request and no more. *)
Lemma RoundTrip_one_request_despite_budget_counterexample :
  InitialInterval (backoffConfig (testTransport (always 500 "" (300 * Millisecond))))
  < MaxElapsedTime (backoffConfig (testTransport (always 500 "" (300 * Millisecond))))
  /\ option_map requests
       (RoundTrip 10 (runtime 1 2) (testTransport (always 500 "" (300 * Millisecond))) 0)
     = Some 1%nat.
Proof. split; [reflexivity | vm_compute; reflexivity]. Qed.

(** The tests of the transport, run with every random number 0.5, a server
    that answers within a millisecond and timers that are on time. *)
Example test_success :
  option_map summary
    (RoundTrip 10 (runtime 1 2) (testTransport (always 200 "" Millisecond)) 0)
  = Some (1%nat, [], Some 200, Some false, None).
Proof. vm_compute. reflexivity. Qed.

Example test_server_error :
  option_map summary
    (RoundTrip 10 (runtime 1 2) (testTransport (always 500 "" Millisecond)) 0)
  = Some (3%nat, [50 * Millisecond; 75 * Millisecond], Some 500, Some true, None).
Proof. vm_compute. reflexivity. Qed.

Example test_rate_limiting :
  option_map summary
    (RoundTrip 10 (runtime 1 2) (testTransport (always 429 "100ms" Millisecond)) 0)
  = Some (2%nat, [100 * Millisecond; 50 * Millisecond], Some 429, Some true, None).
Proof. vm_compute. reflexivity. Qed.

End ServerErrorClaims.

Section OwnRetryState.

Import Go http backoff retry Scenarios.

Variable rt : Runtime.
Variable tr : RoundTripper.




End OwnRetryState.

Section OwnRetryStateClaim.

Import Go http backoff retry Scenarios.



End OwnRetryStateClaim.
(** * Facts about the fetcher *)

Section CycleFacts.

Import Go http fetcher.

Variable f : RulesObjtoreFetcher.
Variable w : World.
(** The slice the launcher's loop goes over. *)
Variable L : list string.

Lemma consume_spec (acc : list RuleGroup) (r : tenantFetchResult) :
  consume w acc r
  = match failure w r with
    | Some e => inl e
    | None => inr (acc ++ contribution w r)%list
    end.
Proof.
  unfold failure, contribution, consume.
  destruct (outcome r) as [res | e]; [| reflexivity].
  destruct (negb _); [reflexivity |].
  destruct (Body res) as [body | m]; [| reflexivity].
  destruct (Parse w body) as [groups errors].
  destruct (0 <? List.length errors)%nat; reflexivity.
Qed.

(** What a good result adds: the groups of its document, in their order, each
    with the tenant's name and a dot in front of its own. *)
Lemma contribution_groups (r : tenantFetchResult) :
  failure w r = None ->
  contribution w r = map (prefixed (tenant r)) (groupsOf w r).
Proof.
  unfold failure, contribution, consume, groupsOf.
  destruct (outcome r) as [res | e]; [| discriminate].
  destruct (negb _); [discriminate |].
  destruct (Body res) as [body | m]; [| discriminate].
  destruct (Parse w body) as [groups errors].
  destruct (0 <? List.length errors)%nat; [discriminate | reflexivity].
Qed.

Lemma remove_nth_Permutation {A} (l : list A) (i : nat) (x : A) :
  nth_error l i = Some x -> Permutation l (x :: remove_nth i l).
Proof.
  intros H. destruct (nth_error_split l i H) as (l1 & l2 & -> & <-).
  unfold remove_nth.
  rewrite firstn_app, Nat.sub_diag, firstn_all, firstn_O, app_nil_r.
  replace (S (List.length l1)) with (List.length l1 + 1)%nat by lia.
  rewrite skipn_app, skipn_all2 by lia.
  replace (List.length l1 + 1 - List.length l1)%nat with 1%nat by lia.
  cbn. symmetry. apply Permutation_middle.
Qed.

Lemma remove_nth_length {A} (l : list A) (i : nat) (x : A) :
  nth_error l i = Some x -> List.length l = S (List.length (remove_nth i l)).
Proof.
  intros H. apply remove_nth_Permutation in H.
  apply Permutation_length in H. exact H.
Qed.

Lemma remove_nth_Forall {A} (l : list A) (i : nat) (x : A) (P : A -> Prop) :
  nth_error l i = Some x -> Forall P l -> Forall P (remove_nth i l).
Proof.
  intros H HP. apply remove_nth_Permutation in H.
  apply (Permutation_Forall H) in HP. inversion HP; assumption.
Qed.

Lemma pick_enabled (c : Cycle) (s : list Action) :
  drained c = false -> enabled c (fst (pick c s)) = true.
Proof.
  intros Hd.
  assert (Hfb : enabled c (fallback c) = true).
  { unfold fallback, drained in *.
    destruct (inflight c) as [| r rest] eqn:Hin.
    - destruct (todo c) as [| t rest] eqn:Htodo; [discriminate |].
      cbn. rewrite Htodo, Hin. reflexivity.
    - cbn. rewrite Hin. reflexivity. }
  unfold pick. destruct s as [| a s']; [exact Hfb |].
  destruct (enabled c a) eqn:Ha; [exact Ha | exact Hfb].
Qed.

Lemma receive_outcome (c : Cycle) (r : tenantFetchResult)
  (rest : list tenantFetchResult) :
  invariant f w L c ->
  Permutation (map tenant (r :: rest) ++ todo c) (map tenant (inflight c) ++ todo c) ->
  Forall (fromClient f) rest ->
  (failure w r = None -> fromClient f r) ->
  (List.length rest <= concurrency)%nat ->
  match receive w c r rest with
  | (Some ret, c') => settled f w L ret c'
  | (None, c') =>
      invariant f w L c' /\ ctx c' = ctx c /\ todo c' = todo c /\ inflight c' = rest
  end.
Proof.
  intros [Hperm Hrules Hgood Hstarted Hin Hrx Hbound] Hp Hrest Hr Hlen.
  unfold receive. rewrite consume_spec.
  destruct (failure w r) as [e |] eqn:Hf.
  - split; [exact Hstarted |]. left. exists r, (received c). auto.
  - refine (conj _ (conj eq_refl (conj eq_refl eq_refl))).
    constructor; cbn [received inflight todo rules started].
    + cbn [map app] in *. rewrite <- Hperm, <- Hp. apply Permutation_middle.
    + cbn [rev]. rewrite flat_map_app. cbn [flat_map]. rewrite app_nil_r, Hrules. reflexivity.
    + constructor; assumption.
    + exact Hstarted.
    + exact Hrest.
    + constructor; auto.
    + exact Hlen.
Qed.

Lemma step_outcome (c : Cycle) (a : Action) :
  invariant f w L c -> enabled c a = true ->
  match step f c w a with
  | (Some ret, c') => settled f w L ret c'
  | (None, c') => invariant f w L c' /\ (stepsLeft c' < stepsLeft c)%nat
  end.
Proof.
  intros Hinv Hen. pose proof Hinv as [Hperm Hrules Hgood Hstarted Hin Hrx Hbound].
  destruct a as [| | i | e]; cbn [step enabled] in *.
  - (* Launch *)
    apply andb_prop in Hen as [Htodo Hfree].
    apply Nat.ltb_lt in Hfree.
    destruct (todo c) as [| t rest] eqn:Et; [discriminate |].
    split.
    + constructor; cbn [received inflight todo rules started].
      * rewrite <- Hperm, map_app. cbn [map tenant app].
        rewrite <- !app_assoc. cbn [app]. reflexivity.
      * exact Hrules.
      * exact Hgood.
      * cbn [rev]. rewrite <- app_assoc. exact Hstarted.
      * apply Forall_app. split; [exact Hin |].
        constructor; [| constructor]. eexists _, _. reflexivity.
      * exact Hrx.
      * rewrite length_app. cbn. lia.
    + unfold stepsLeft. cbn [ctx todo inflight]. rewrite Et, length_app. cbn. lia.
  - (* Abandon *)
    apply andb_prop in Hen as [Htodo Hdone].
    destruct (todo c) as [| t rest] eqn:Et; [discriminate |].
    destruct (ctx c) as [e |] eqn:Ec; [| discriminate].
    unfold receive. rewrite consume_spec. cbn [failure consume outcome].
    split; cbn [started todo received]; [rewrite Et; exact Hstarted |].
    left. eexists _, _. split; [reflexivity |]. split; [exact Hgood | reflexivity].
  - (* Deliver *)
    apply Nat.ltb_lt in Hen.
    destruct (nth_error (inflight c) i) as [r |] eqn:En;
      [| apply nth_error_None in En; lia].
    pose proof (remove_nth_Permutation _ _ _ En) as Hp.
    pose proof (receive_outcome c r (remove_nth i (inflight c)) Hinv) as Hrec.
    destruct (receive w c r (remove_nth i (inflight c))) as [[ret |] c'].
    + apply Hrec.
      * apply Permutation_app_tail, Permutation_map. symmetry. exact Hp.
      * eapply remove_nth_Forall; eassumption.
      * intros _. eapply Forall_forall in Hin; [exact Hin |].
        eapply nth_error_In; eassumption.
      * rewrite (remove_nth_length _ _ _ En) in Hbound. lia.
    + destruct Hrec as (Hinv' & Hc & Ht & Hi).
      * apply Permutation_app_tail, Permutation_map. symmetry. exact Hp.
      * eapply remove_nth_Forall; eassumption.
      * intros _. eapply Forall_forall in Hin; [exact Hin |].
        eapply nth_error_In; eassumption.
      * rewrite (remove_nth_length _ _ _ En) in Hbound. lia.
      * split; [exact Hinv' |].
        unfold stepsLeft. rewrite Hc, Ht, Hi, (remove_nth_length _ _ _ En). lia.
  - (* Cancel *)
    apply negb_true_iff in Hen.
    split.
    + constructor; assumption.
    + unfold stepsLeft. cbn [ctx todo inflight isDone]. rewrite Hen. lia.
Qed.

(** A cycle always comes to its end, and the collector returns in one of the
    settled ways. *)
Lemma run_settles (fuel : nat) :
  forall (s : list Action) (c : Cycle),
    invariant f w L c ->
    (stepsLeft c <= fuel)%nat ->
    exists ret c', run fuel f w s c = Some (ret, c') /\ settled f w L ret c'.
Proof.
  induction fuel as [| fuel IH]; intros s c Hinv Hfuel.
  - destruct (drained c) eqn:Hd.
    + cbn [run]. rewrite Hd.
      exists (finish w c), c. split; [reflexivity |].
      destruct Hinv as [Hperm Hrules Hgood Hstarted Hin Hrx Hbound].
      unfold drained in Hd.
      destruct (todo c) eqn:Et; [| discriminate].
      destruct (inflight c) eqn:Ei; [| discriminate].
      cbn [map app] in Hperm. rewrite app_nil_r in Hperm.
      split; [rewrite Et; exact Hstarted |].
      unfold finish.
      destruct (Marshal w (rules c)) as [data | msg] eqn:Em.
      * split; [| reflexivity]. unfold complete. auto 10.
      * right. exists msg. unfold complete. auto 10.
    + exfalso. unfold drained, stepsLeft in *.
      destruct (todo c); [destruct (inflight c); [discriminate | cbn in Hfuel; lia] |].
      cbn in Hfuel. lia.
  - cbn [run]. destruct (drained c) eqn:Hd.
    + exists (finish w c), c. split; [reflexivity |].
      destruct Hinv as [Hperm Hrules Hgood Hstarted Hin Hrx Hbound].
      unfold drained in Hd.
      destruct (todo c) eqn:Et; [| discriminate].
      destruct (inflight c) eqn:Ei; [| discriminate].
      cbn [map app] in Hperm. rewrite app_nil_r in Hperm.
      split; [rewrite Et; exact Hstarted |].
      unfold finish.
      destruct (Marshal w (rules c)) as [data | msg] eqn:Em.
      * split; [| reflexivity]. unfold complete. auto 10.
      * right. exists msg. unfold complete. auto 10.
    + pose proof (pick_enabled c s Hd) as Hen.
      destruct (pick c s) as [a s']. cbn [fst] in Hen.
      pose proof (step_outcome c a Hinv Hen) as Hstep.
      destruct (step f c w a) as [[ret |] c'].
      * exists ret, c'. auto.
      * destruct Hstep as [Hinv' Hless]. apply IH; [exact Hinv' | lia].
Qed.

End CycleFacts.

Section FetcherClaims.

Import Go http fetcher Scenarios.

Lemma begin_invariant (f : RulesObjtoreFetcher) (w : World) (ctx0 : Context)
  (l : list string) :
  invariant f w l (begin ctx0 l).
Proof.
  constructor; cbn; auto.
  unfold concurrency. lia.
Qed.

Lemma begin_stepsLeft (ctx0 : Context) (l : list string) :
  (stepsLeft (begin ctx0 l) <= 2 * List.length l + 1)%nat.
Proof. unfold stepsLeft. cbn. destruct (isDone ctx0); lia. Qed.

(** What a cycle returns, in terms of what its collector took in: a document
    only when a good result of every tenant the launcher went over is in, and
    then the marshalled groups of all of them; otherwise an error, which is the
    collector's verdict on the last result it took, or the encoder's. *)
Lemma cycle_outcome (meanwhile : RulesObjtoreFetcher -> RulesObjtoreFetcher)
  (f : RulesObjtoreFetcher) (ctx0 : Context) (w : World) :
  exists fin,
    cycle meanwhile f ctx0 w = Some fin
    /\ snapshot fin = tenants f
    /\ ranged fin = tenants (meanwhile f)
    /\ (exists rest, ranged fin = (dispatched fin ++ rest)%list)
    /\ match returned fin with
       | Ok data =>
           Permutation (map tenant (collected fin)) (ranged fin)
           /\ Forall (fun r => failure w r = None) (collected fin)
           /\ Forall (fromClient (meanwhile f)) (collected fin)
           /\ Marshal w (flat_map (contribution w) (collected fin)) = inl data
       | Err e =>
           (exists good bad,
               collected fin = (good ++ [bad])%list
               /\ Forall (fun r => failure w r = None) good
               /\ failure w bad = Some e)
           \/ (exists msg,
                  e = FailedMarshal msg
                  /\ Permutation (map tenant (collected fin)) (ranged fin)
                  /\ Forall (fun r => failure w r = None) (collected fin)
                  /\ Forall (fromClient (meanwhile f)) (collected fin)
                  /\ Marshal w (flat_map (contribution w) (collected fin)) = inr msg)
       end.
Proof.
  unfold cycle.
  destruct (run_settles (meanwhile f) w (tenants (meanwhile f)) _ (sched w)
              (begin ctx0 (tenants (meanwhile f)))
              (begin_invariant _ _ _ _) (begin_stepsLeft _ _))
    as (ret & c & Hrun & Hstarted & Hret).
  rewrite Hrun. eexists. split; [reflexivity |].
  cbn [snapshot ranged dispatched collected returned].
  split; [reflexivity |]. split; [reflexivity |].
  split; [exists (todo c); symmetry; exact Hstarted |].
  assert (Hcomplete : complete (meanwhile f) w (tenants (meanwhile f)) c ->
            Permutation (map tenant (rev (received c))) (tenants (meanwhile f))
            /\ Forall (fun r => failure w r = None) (rev (received c))
            /\ Forall (fromClient (meanwhile f)) (rev (received c))
            /\ rules c = flat_map (contribution w) (rev (received c))).
  { intros (_ & _ & Hgood & Hcl & Hperm & Hrules).
    split; [rewrite map_rev, <- Permutation_rev; exact Hperm |].
    split; [apply Forall_rev; exact Hgood |].
    split; [apply Forall_rev; exact Hcl | exact Hrules]. }
  destruct ret as [data | e].
  - destruct Hret as [Hc Hm]. destruct (Hcomplete Hc) as (H1 & H2 & H3 & H4).
    rewrite <- H4. auto.
  - destruct Hret as [(bad & good & Hrx & Hgood & Hbad) | (msg & He & Hc & Hm)].
    + left. exists (rev good), bad. rewrite Hrx. cbn [rev].
      split; [reflexivity |]. split; [apply Forall_rev; exact Hgood | exact Hbad].
    + right. exists msg. destruct (Hcomplete Hc) as (H1 & H2 & H3 & H4).
      rewrite <- H4. auto.
Qed.

Lemma merged_contribution (w : World) (results : list tenantFetchResult) :
  Forall (fun r => failure w r = None) results ->
  flat_map (contribution w) results = merged w results.
Proof.
  unfold merged. induction 1 as [| r l Hr _ IH]; [reflexivity |].
  cbn [flat_map]. rewrite IH, (contribution_groups w r Hr). reflexivity.
Qed.

Lemma merged_length (w : World) (results : list tenantFetchResult) :
  List.length (merged w results)
  = list_sum (map (fun r => List.length (groupsOf w r)) results).
Proof.
  unfold merged. induction results as [| r l IH]; [reflexivity |].
  cbn [flat_map map list_sum]. rewrite length_app, length_map, IH. reflexivity.
Qed.

(** C3. When every result the collector takes in is good, the cycle has a
    result of every tenant, each from the client, and what it returns is the
    encoding of the merged groups: for each result in the order of arrival,
    the groups of its document in their own order, each named
    "<tenant-id>.<original-name>" and otherwise unchanged.  Their number is the
    sum of the numbers of groups of the documents. *)
Theorem GetTenantsRules_merges_renamed_groups :
  forall (f : RulesObjtoreFetcher) (ctx0 : Context) (w : World),
  exists fin,
    GetTenantsRules f ctx0 w = Some fin
    /\ (Forall (fun r => failure w r = None) (collected fin) ->
        Permutation (map tenant (collected fin)) (tenants f)
        /\ Forall (fromClient f) (collected fin)
        /\ returned fin
           = match Marshal w (merged w (collected fin)) with
             | inl data => Ok data
             | inr msg => Err (FailedMarshal msg)
             end
        /\ List.length (merged w (collected fin))
           = list_sum (map (fun r => List.length (groupsOf w r)) (collected fin))
        /\ (forall r, In r (collected fin) ->
              exists before after,
                merged w (collected fin)
                = (before ++ map (prefixed (tenant r)) (groupsOf w r) ++ after)%list)
        /\ (forall g, In g (merged w (collected fin)) <->
              exists r g0, In r (collected fin) /\ In g0 (groupsOf w r)
                           /\ Name g = (tenant r ++ "." ++ Name g0)%string
                           /\ Payload g = Payload g0)).
Proof.
  intros f ctx0 w.
  destruct (cycle_outcome (fun f => f) f ctx0 w)
    as (fin & Hrun & _ & Hranged & _ & Hret).
  exists fin. split; [exact Hrun |]. intros Hgood.
  cbn beta in Hranged. rewrite <- Hranged.
  assert (Hblock : forall r, In r (collected fin) ->
            exists before after,
              merged w (collected fin)
              = (before ++ map (prefixed (tenant r)) (groupsOf w r) ++ after)%list).
  { intros r Hin. apply in_split in Hin as (l1 & l2 & ->).
    exists (merged w l1), (merged w l2). unfold merged.
    rewrite flat_map_app. reflexivity. }
  assert (Hmem : forall g, In g (merged w (collected fin)) <->
            exists r g0, In r (collected fin) /\ In g0 (groupsOf w r)
                         /\ Name g = (tenant r ++ "." ++ Name g0)%string
                         /\ Payload g = Payload g0).
  { intros g. unfold merged. rewrite in_flat_map. split.
    - intros (r & Hr & Hg). apply in_map_iff in Hg as (g0 & <- & Hg0).
      exists r, g0. auto.
    - intros (r & g0 & Hr & Hg0 & Hn & Hp). exists r. split; [exact Hr |].
      apply in_map_iff. exists g0. split; [| exact Hg0].
      destruct g as [n p]. cbn in Hn, Hp. subst. reflexivity. }
  rewrite <- (merged_contribution w _ Hgood).
  destruct (returned fin) as [data | e].
  - destruct Hret as (Hperm & _ & Hcl & Hm). rewrite Hm.
    rewrite (merged_contribution w _ Hgood). rewrite merged_length. auto 10.
  - destruct Hret as [(good & bad & Hc & _ & Hbad) | (msg & -> & Hperm & _ & Hcl & Hm)].
    + exfalso. rewrite Hc in Hgood. apply Forall_app in Hgood as [_ Hgood].
      inversion Hgood; congruence.
    + rewrite Hm. rewrite (merged_contribution w _ Hgood). rewrite merged_length. auto 10.
Qed.

(** The test "rule groups are aggregated": two tenants, two groups each. *)
Lemma GetTenantsRules_merges_renamed_groups_witness :
  exists fin,
    GetTenantsRules (twoTenants 200 ruleGroups) None (world []) = Some fin
    /\ returned fin = Ok "tenant1.test; tenant1.test2; tenant2.test; tenant2.test2"
    /\ List.length (merged (world []) (collected fin)) = 4%nat
    /\ map Name (merged (world []) (collected fin))
       = ["tenant1.test"; "tenant1.test2"; "tenant2.test"; "tenant2.test2"].
Proof.
  destruct (GetTenantsRules_merges_renamed_groups (twoTenants 200 ruleGroups) None
              (world [])) as (fin & Hrun & Hmerge).
  exists fin. split; [exact Hrun |].
  vm_compute in Hrun. injection Hrun as <-.
  destruct Hmerge as (_ & _ & Hret & Hlen & _).
  - repeat constructor.
  - split; [exact Hret |]. split; [exact Hlen | reflexivity].
Defined.

(** The tests of the fetcher, run. *)
Example test_rule_groups_are_aggregated :
  option_map returned (GetTenantsRules (twoTenants 200 ruleGroups) None
                         (world [Launch; Launch; Deliver 1]))
  = Some (Ok "tenant2.test; tenant2.test2; tenant1.test; tenant1.test2").
Proof. vm_compute. reflexivity. Qed.

Example test_first_error_returns :
  option_map (fun fin => (returned fin, dispatched fin))
    (GetTenantsRules (twoTenants 500 "internal server error") None (world []))
  = Some (Err (UnexpectedStatus 500), ["tenant1"]).
Proof. vm_compute. reflexivity. Qed.

Example test_empty_response_returns_without_error :
  option_map returned
    (GetTenantsRules {| client := backend 200 ""; tenants := ["tenant1"] |} None (world []))
  = Some (Ok "").
Proof. vm_compute. reflexivity. Qed.

End FetcherClaims.

Section CancelledCycle.

Import Go http fetcher Scenarios.

Variable f : RulesObjtoreFetcher.
Variable w : World.

(** The client fails every call made under a context that is done. *)
Hypothesis client_honours_ctx : forall k t, exists e, client f k t true = inr e.

(** A cycle whose context is done, whose running tasks all carry a failure
    and that is not through yet, ends in an error. *)
Lemma run_done_fails (fuel : nat) :
  forall (s : list Action) (c : Cycle),
    isDone (ctx c) = true ->
    drained c = false ->
    Forall (fun r => failure w r <> None) (inflight c) ->
    (stepsLeft c <= fuel)%nat ->
    exists e c', run fuel f w s c = Some (Err e, c').
Proof.
  induction fuel as [| fuel IH]; intros s c Hdone Hd Hbad Hfuel.
  - exfalso. unfold drained, stepsLeft in *.
    destruct (todo c); [destruct (inflight c); [discriminate | cbn in Hfuel; lia] |].
    cbn in Hfuel. lia.
  - cbn [run]. rewrite Hd.
    pose proof (pick_enabled c s Hd) as Hen.
    destruct (pick c s) as [a s']. cbn [fst] in Hen.
    destruct a as [| | i | e]; cbn [step enabled] in *.
    + (* Launch *)
      apply andb_prop in Hen as [Htodo Hfree].
      destruct (todo c) as [| t rest] eqn:Et; [discriminate |].
      apply IH.
      * exact Hdone.
      * unfold drained. cbn [todo inflight].
        destruct rest; destruct (inflight c); reflexivity.
      * cbn [inflight]. apply Forall_app. split; [exact Hbad |].
        constructor; [| constructor].
        rewrite Hdone. destruct (client_honours_ctx (List.length (started c)) t) as [e He].
        unfold failure, consume. cbn [outcome]. rewrite He. discriminate.
      * unfold stepsLeft in *. cbn [ctx todo inflight] in *.
        rewrite Et in Hfuel. rewrite length_app. cbn in *. lia.
    + (* Abandon *)
      apply andb_prop in Hen as [Htodo _].
      destruct (todo c) as [| t rest] eqn:Et; [discriminate |].
      destruct (ctx c) as [e |] eqn:Ec; [| discriminate].
      unfold receive. cbn [consume outcome]. eexists _, _. reflexivity.
    + (* Deliver *)
      apply Nat.ltb_lt in Hen.
      destruct (nth_error (inflight c) i) as [r |] eqn:En;
        [| apply nth_error_None in En; lia].
      eapply Forall_forall in Hbad; [| eapply nth_error_In; exact En].
      unfold receive. rewrite consume_spec.
      destruct (failure w r) as [e |]; [| contradiction].
      eexists _, _. reflexivity.
    + (* Cancel *)
      rewrite Hdone in Hen. discriminate.
Qed.

End CancelledCycle.

Section CancelledClaims.

Import Go http fetcher Scenarios.

(** C8, as the code has it.  Called with a context that is already done and
    with a client that fails calls made under such a context,
    [GetTenantsRules] returns an error when its tenant list is not empty; when
    the launcher's first [select] takes the cancellation, no task is started
    and the error is the context's.  When the tenant list is empty it starts
    no task and returns the encoding of the empty document. *)
Theorem GetTenantsRules_cancelled_context_fails :
  forall (f : RulesObjtoreFetcher) (cause : error) (w : World),
    (forall k t, exists e, client f k t true = inr e) ->
    exists fin,
      GetTenantsRules f (Some cause) w = Some fin
      /\ (tenants f <> [] -> exists e, returned fin = Err e)
      /\ (tenants f <> [] ->
          forall rest, sched w = Abandon :: rest ->
            dispatched fin = []
            /\ returned fin = Err (FailedHTTPRequest cause))
      /\ (tenants f = [] ->
          dispatched fin = []
          /\ returned fin = match Marshal w [] with
                            | inl data => Ok data
                            | inr msg => Err (FailedMarshal msg)
                            end).
Proof.
  intros f cause w Hclient.
  unfold GetTenantsRules, cycle.
  destruct (tenants f) as [| t l] eqn:Et.
  - cbn. eexists. split; [reflexivity |]. cbn.
    split; [intros H; contradiction (H eq_refl) |].
    split; [intros H; contradiction (H eq_refl) |].
    intros _. split; reflexivity.
  - destruct (run_done_fails f w Hclient (2 * List.length (t :: l) + 1)
                (sched w) (begin (Some cause) (t :: l)))
      as (e & c & Hrun).
    + reflexivity.
    + reflexivity.
    + constructor.
    + apply begin_stepsLeft.
    + rewrite Hrun. eexists. split; [reflexivity |]. cbn [returned dispatched].
      split; [intros _; exists e; reflexivity |].
      split; [| intros H; discriminate H].
      intros _ rest Hs. rewrite Hs in Hrun.
      replace (2 * List.length (t :: l) + 1)%nat with (S (2 * List.length (t :: l)))%nat
        in Hrun by lia.
      cbn in Hrun. inversion Hrun; subst. cbn. auto.
Qed.

(** The test "timeout returns early", the launcher seeing the cancellation at
    once. *)
Lemma GetTenantsRules_cancelled_context_fails_witness :
  exists fin,
    GetTenantsRules (twoTenants 200 ruleGroups) (Some ContextCanceled)
      (world [Abandon]) = Some fin
    /\ dispatched fin = []
    /\ returned fin = Err (FailedHTTPRequest ContextCanceled).
Proof.
  destruct (GetTenantsRules_cancelled_context_fails (twoTenants 200 ruleGroups)
              ContextCanceled (world [Abandon]))
    as (fin & Hrun & _ & Hfirst & _).
  - intros k t. exists ContextCanceled. reflexivity.
  - exists fin. split; [exact Hrun |].
    apply (Hfirst ltac:(discriminate) [] eq_refl).
Defined.

(** C8 as the spec words it fails twice.  With no tenants, a cycle under a
    context that is done returns an empty document and no error.  With two
    tenants, the launcher's [select] may take the free slot although the
    context is done: a task is started, and a second one after it. *)
Lemma GetTenantsRules_cancelled_context_counterexample :
  option_map returned
    (GetTenantsRules {| client := backend 200 ruleGroups; tenants := [] |}
       (Some ContextCanceled) (world []))
  = Some (Ok "")
  /\ option_map dispatched
       (GetTenantsRules (twoTenants 200 ruleGroups) (Some ContextCanceled)
          (world [Launch; Launch]))
     = Some ["tenant1"; "tenant2"].
Proof. split; vm_compute; reflexivity. Qed.

(** C2 fails on the code.  The launcher copies [f.tenants] under the mutex
    and then loops over [f.tenants] itself: when [SetTenants] installs
    [["tenantB"]] between the two, the snapshot is [["tenantA"]] and the one
    task of the cycle is for tenantB. *)
Lemma GetTenantsRules_ignores_its_snapshot :
  exists fin,
    GetTenantsRulesDuringSetTenants ["tenantB"]
      {| client := backend 200 ruleGroups; tenants := ["tenantA"] |} None (world [])
    = Some fin
    /\ snapshot fin = ["tenantA"]
    /\ dispatched fin = ["tenantB"]
    /\ returned fin = Ok "tenantB.test; tenantB.test2".
Proof. eexists. split; [vm_compute; reflexivity |]. cbn. auto. Qed.


(** So it is for every list a racing [SetTenants] installs: the cycle is
    about that list, and the snapshot plays no part in it. *)
Lemma GetTenantsRulesDuringSetTenants_ranges_over_new_list (l : list string)
  (f : RulesObjtoreFetcher) (ctx0 : Context) (w : World) :
  exists fin rest,
    GetTenantsRulesDuringSetTenants l f ctx0 w = Some fin
    /\ snapshot fin = tenants f
    /\ l = (dispatched fin ++ rest)%list
    /\ GetTenantsRules (SetTenants f l) ctx0 w
       = Some {| returned := returned fin; snapshot := l; ranged := ranged fin;
                 dispatched := dispatched fin; collected := collected fin |}.
Proof.
  destruct (cycle_outcome (fun f => SetTenants f l) f ctx0 w)
    as (fin & Hrun & Hsnap & Hranged & (rest & Hd) & _).
  exists fin, rest. split; [exact Hrun |]. split; [exact Hsnap |].
  split; [rewrite <- Hd, Hranged; reflexivity |].
  unfold GetTenantsRulesDuringSetTenants, GetTenantsRules, cycle in *.
  cbn [SetTenants tenants] in *.
  destruct (run _ _ _ _ _) as [[ret c] |]; [| discriminate].
  inversion Hrun; subst. reflexivity.
Qed.

(** Without a race the tasks are for tenants of the snapshot, in its order. *)
Lemma GetTenantsRules_dispatches_snapshot_prefix (f : RulesObjtoreFetcher)
  (ctx0 : Context) (w : World) :
  exists fin rest,
    GetTenantsRules f ctx0 w = Some fin
    /\ snapshot fin = (dispatched fin ++ rest)%list.
Proof.
  destruct (cycle_outcome (fun f => f) f ctx0 w)
    as (fin & Hrun & Hsnap & Hranged & (rest & Hd) & _).
  exists fin, rest. split; [exact Hrun |].
  rewrite Hsnap, <- Hd, Hranged. reflexivity.
Qed.

End CancelledClaims.

(** * Facts about the tenants reloader *)

Section ReloaderFacts.

Import Go tenant.

Context {T : Type} `{tenantsSetter T}.

Lemma uintInc_small (n : Z) : 0 <= n < 3 -> uintInc n = n + 1.
Proof. intros Hn. unfold uintInc. apply Z.mod_small. lia. Qed.

(** A good read sets the counter to zero and installs the tenants. *)
Lemma reload_good_read (tenants : list string) (events : list Event) (n : Z) (tenset : T) :
  reload (Tick (inr tenants) :: events) n tenset
  = reload events 0 (SetTenants tenset tenants).
Proof. reflexivity. Qed.

(** Three failed ticks, with no cancellation taken before them, end the loop
    in an error, whatever the counter was. *)
Lemma reload_three_failures (pre : list Event) :
  forall (n : Z) (tenset : T) (e1 e2 e3 : error) (post : list Event),
    0 <= n < 3 ->
    ~ In Done pre ->
    exists tenset',
      reload (pre ++ Tick (inl e1) :: Tick (inl e2) :: Tick (inl e3) :: post) n tenset
      = Returns (Some FailedReadTenants3Times) tenset'.
Proof.
  induction pre as [| ev pre IH]; intros n tenset e1 e2 e3 post Hn Hpre.
  - cbn [app reload]. rewrite (uintInc_small n Hn).
    destruct (Z.leb_spec 3 (n + 1)); [eexists; reflexivity |].
    rewrite (uintInc_small (n + 1)) by lia.
    destruct (Z.leb_spec 3 (n + 1 + 1)); [eexists; reflexivity |].
    rewrite (uintInc_small (n + 1 + 1)) by lia.
    destruct (Z.leb_spec 3 (n + 1 + 1 + 1)); [eexists; reflexivity | lia].
  - destruct ev as [[e | tenants] |].
    + cbn [app reload]. rewrite (uintInc_small n Hn).
      destruct (Z.leb_spec 3 (n + 1)); [eexists; reflexivity |].
      apply IH; [lia |]. intros Hin. apply Hpre. right. exact Hin.
    + cbn [app reload]. apply IH; [lia |]. intros Hin. apply Hpre. right. exact Hin.
    + exfalso. apply Hpre. left. reflexivity.
Qed.

(** The loop returns an error only after three failed ticks in a row (the
    counter standing for those before [events]), with no cancellation taken
    before them. *)
Lemma reload_error_inv (events : list Event) :
  forall (n : Z) (tenset tenset' : T) (e : error),
    0 <= n < 3 ->
    reload events n tenset = Returns (Some e) tenset' ->
    e = FailedReadTenants3Times
    /\ exists pre fails post,
        events = (pre ++ fails ++ post)%list
        /\ ~ In Done pre
        /\ Forall failed fails
        /\ tenset' = install pre tenset
        /\ (List.length fails = 3%nat
            \/ (pre = [] /\ Z.of_nat (List.length fails) + n = 3)).
Proof.
  induction events as [| ev events IH]; intros n tenset tenset' e Hn Hrun;
    [discriminate |].
  destruct ev as [[e0 | tenants] |]; cbn [reload] in Hrun.
  - rewrite (uintInc_small n Hn) in Hrun.
    destruct (Z.leb_spec 3 (n + 1)).
    + inversion Hrun; subst. split; [reflexivity |].
      exists [], [Tick (inl e0)], events. cbn [app install In].
      split; [reflexivity |]. split; [tauto |].
      split; [repeat constructor |]. split; [reflexivity |]. right.
      split; [reflexivity |]. cbn [List.length]. lia.
    + apply IH in Hrun as (-> & pre & fails & post & -> & Hpre & Hf & Ht & Hlen); [| lia].
      split; [reflexivity |].
      destruct Hlen as [Hlen | [-> Hlen]].
      * exists (Tick (inl e0) :: pre), fails, post. cbn [app install].
        split; [reflexivity |].
        split; [intros [Hin | Hin]; [discriminate | contradiction] |].
        auto.
      * exists [], (Tick (inl e0) :: fails), post. cbn [app install] in *.
        split; [reflexivity |]. split; [tauto |].
        split; [constructor; [exact I | exact Hf] |].
        split; [exact Ht |]. right. split; [reflexivity |]. cbn [List.length]. lia.
  - apply IH in Hrun as (-> & pre & fails & post & -> & Hpre & Hf & Ht & Hlen); [| lia].
    split; [reflexivity |].
    destruct Hlen as [Hlen | [-> Hlen]].
    + exists (Tick (inr tenants) :: pre), fails, post. cbn [app install].
      split; [reflexivity |].
      split; [intros [Hin | Hin]; [discriminate | contradiction] |].
      auto.
    + exists [Tick (inr tenants)], fails, post. cbn [app install] in *.
      split; [reflexivity |].
      split; [intros [Hin | []]; discriminate |].
      split; [exact Hf |]. split; [exact Ht |]. left.
      apply Nat2Z.inj. lia.
  - discriminate.
Qed.

(** The loop returns nil exactly when it takes the cancellation. *)
Lemma reload_nil_inv (events : list Event) :
  forall (n : Z) (tenset tenset' : T),
    reload events n tenset = Returns None tenset' ->
    exists pre post,
      events = (pre ++ Done :: post)%list
      /\ ~ In Done pre
      /\ tenset' = install pre tenset.
Proof.
  induction events as [| ev events IH]; intros n tenset tenset' Hrun; [discriminate |].
  destruct ev as [[e0 | tenants] |]; cbn [reload] in Hrun.
  - destruct (3 <=? uintInc n); [discriminate |].
    apply IH in Hrun as (pre & post & -> & Hpre & Ht).
    exists (Tick (inl e0) :: pre), post. cbn [app install].
    split; [reflexivity |].
    split; [intros [Hin | Hin]; [discriminate | contradiction] | exact Ht].
  - apply IH in Hrun as (pre & post & -> & Hpre & Ht).
    exists (Tick (inr tenants) :: pre), post. cbn [app install].
    split; [reflexivity |].
    split; [intros [Hin | Hin]; [discriminate | contradiction] | exact Ht].
  - inversion Hrun; subst. exists [], events. cbn. tauto.
Qed.

(** The loop goes on after [pre] from where [pre] left it. *)
Lemma reload_app_waiting (pre : list Event) :
  forall (rest : list Event) (n n' : Z) (tenset tenset' : T),
    reload pre n tenset = Waiting n' tenset' ->
    reload (pre ++ rest) n tenset = reload rest n' tenset'
    /\ tenset' = install pre tenset
    /\ ~ In Done pre.
Proof.
  induction pre as [| ev pre IH]; intros rest n n' tenset tenset' Hrun.
  - inversion Hrun; subst. cbn. tauto.
  - destruct ev as [[e0 | tenants] |]; cbn [reload app install] in *.
    + destruct (3 <=? uintInc n); [discriminate |].
      destruct (IH rest _ _ _ _ Hrun) as (H1 & H2 & H3).
      split; [exact H1 |]. split; [exact H2 |].
      intros [Hin | Hin]; [discriminate | contradiction].
    + destruct (IH rest _ _ _ _ Hrun) as (H1 & H2 & H3).
      split; [exact H1 |]. split; [exact H2 |].
      intros [Hin | Hin]; [discriminate | contradiction].
    + discriminate.
Qed.

Lemma three_failed (fails : list Event) :
  List.length fails = 3%nat -> Forall failed fails ->
  exists e1 e2 e3, fails = [Tick (inl e1); Tick (inl e2); Tick (inl e3)].
Proof.
  intros Hlen Hf.
  destruct fails as [| a [| b [| c [| d l]]]]; try discriminate.
  inversion Hf as [| ? ? Ha Hf1]; subst.
  inversion Hf1 as [| ? ? Hb Hf2]; subst.
  inversion Hf2 as [| ? ? Hc _]; subst.
  destruct a as [[e1 | ?] |]; try contradiction.
  destruct b as [[e2 | ?] |]; try contradiction.
  destruct c as [[e3 | ?] |]; try contradiction.
  exists e1, e2, e3. reflexivity.
Qed.

End ReloaderFacts.

Section ReloaderClaims.

Import Go tenant Scenarios.

(** C7. With a ticker interval that [time.NewTicker] accepts, the reloader
    returns an error exactly when the reader fails on three ticks in a row
    before a cancellation is taken, and that error is the only one it
    returns; a good read sets the counter of failures in a row to zero and
    installs the tenants through [SetTenants]; and when the loop, still
    running, takes the cancellation, it returns nil, as it does in no other
    way. *)
Theorem newTenantsFileReloader_three_failures_in_a_row :
  forall (T : Type) (setter : tenantsSetter T) (events : list Event)
         (interval : Duration) (tenset : T),
    0 < interval ->
    ((exists tenset',
         newTenantsFileReloader events interval tenset
         = Returns (Some FailedReadTenants3Times) tenset')
     <-> (exists pre e1 e2 e3 post,
             events = (pre ++ Tick (inl e1) :: Tick (inl e2) :: Tick (inl e3) :: post)%list
             /\ ~ In Done pre))
    /\ (forall e tenset',
           newTenantsFileReloader events interval tenset = Returns (Some e) tenset' ->
           e = FailedReadTenants3Times)
    /\ (forall tenants rest n,
           reload (Tick (inr tenants) :: rest) n tenset
           = reload rest 0 (SetTenants tenset tenants))
    /\ (forall pre post n' tenset',
           reload pre 0 tenset = Waiting n' tenset' ->
           newTenantsFileReloader (pre ++ Done :: post) interval tenset
           = Returns None (install pre tenset))
    /\ (forall tenset',
           newTenantsFileReloader events interval tenset = Returns None tenset' ->
           exists pre post,
             events = (pre ++ Done :: post)%list /\ ~ In Done pre
             /\ tenset' = install pre tenset).
Proof.
  intros T setter events interval tenset Hpos.
  assert (Hrun : forall evs, newTenantsFileReloader evs interval tenset = reload evs 0 tenset).
  { intros evs. unfold newTenantsFileReloader.
    destruct (Z.leb_spec (Z.min interval (1 * Minute)) 0) as [Hle | _]; [| reflexivity].
    exfalso. unfold Minute, Second, Millisecond in Hle. lia. }
  rewrite !Hrun.
  refine (conj _ (conj _ (conj _ (conj _ _)))).
  - split.
    + intros [tenset' Herr].
      apply reload_error_inv in Herr as (_ & pre & fails & post & -> & Hpre & Hf & _ & Hlen);
        [| lia].
      assert (Hthree : List.length fails = 3%nat) by (destruct Hlen as [? | [_ ?]]; lia).
      destruct (three_failed fails Hthree Hf) as (e1 & e2 & e3 & ->).
      exists pre, e1, e2, e3, post. split; [reflexivity | exact Hpre].
    + intros (pre & e1 & e2 & e3 & post & -> & Hpre).
      apply reload_three_failures; [lia | exact Hpre].
  - intros e tenset' Herr.
    apply reload_error_inv in Herr as [He _]; [exact He | lia].
  - intros tenants rest n. reflexivity.
  - intros pre post n' tenset' Hwait. rewrite Hrun.
    destruct (reload_app_waiting pre (Done :: post) _ _ _ _ Hwait) as (-> & -> & _).
    reflexivity.
  - intros tenset' Hnil.
    apply reload_nil_inv in Hnil. exact Hnil.
Qed.

(** A reader that fails, succeeds once and then fails three times, on a
    one-second ticker: the fifth tick ends the loop in the error. *)
Lemma newTenantsFileReloader_three_failures_in_a_row_witness :
  exists tenset',
    newTenantsFileReloader
      [Tick (inl (ReadTenantsError "open")); Tick (inr ["tenant1"]);
       Tick (inl (ReadTenantsError "open")); Tick (inl (ReadTenantsError "open"));
       Tick (inl (ReadTenantsError "open")); Done]
      Second (twoTenants 200 ruleGroups)
    = Returns (Some FailedReadTenants3Times) tenset'.
Proof.
  apply (proj1 (newTenantsFileReloader_three_failures_in_a_row _ _
                  [Tick (inl (ReadTenantsError "open")); Tick (inr ["tenant1"]);
                   Tick (inl (ReadTenantsError "open")); Tick (inl (ReadTenantsError "open"));
                   Tick (inl (ReadTenantsError "open")); Done]
                  Second (twoTenants 200 ruleGroups) eq_refl)).
  exists [Tick (inl (ReadTenantsError "open")); Tick (inr ["tenant1"])],
         (ReadTenantsError "open"), (ReadTenantsError "open"), (ReadTenantsError "open"),
         [Done].
  split; [reflexivity |].
  intros [Hin | [Hin | []]]; discriminate.
Defined.

End ReloaderClaims.

(** * The retrying transport against any server *)

Section AnyServerProperties.

Import Go http backoff retry Scenarios.

(** X1. A call on a well-configured transport returns, whatever the wrapped
    transport answers.  When every attempt takes a nanosecond or more and the
    random numbers lie in [[0,1)], the call returns with any fuel from
    [enoughFuel] on, and whenever it returns it returns the same. *)
Theorem RoundTrip_always_returns :
  forall (rt : Runtime) (r : RetryableTransport) (t0 : Time),
    wellConfigured (backoffConfig r) ->
    (forall i, 1 <= took (transport r i)) ->
    (forall k, unitInterval (float64 rt k)) ->
    exists s,
      (forall fuel, (enoughFuel (backoffConfig r) <= fuel)%nat ->
                    RoundTrip fuel rt r t0 = Some s)
      /\ (forall fuel s', RoundTrip fuel rt r t0 = Some s' -> s' = s).
Proof.
  intros rt r t0 Hwf Htook Hdraws.
  destruct (RoundTrip_returns rt r t0 Hwf Htook Hdraws) as (s & Hall & Hsame).
  exists s. split; assumption.
Qed.

(** The policy of the tests against a server whose every request times out
    after a millisecond. *)
Lemma RoundTrip_always_returns_witness :
  exists s,
    (forall fuel, (enoughFuel (backoffConfig (testTransport (timesOut Millisecond))) <= fuel)%nat ->
       RoundTrip fuel (runtime 1 2) (testTransport (timesOut Millisecond)) 0 = Some s)
    /\ RoundTrip 10 (runtime 1 2) (testTransport (timesOut Millisecond)) 0 = Some s.
Proof.
  destruct (RoundTrip_always_returns (runtime 1 2) (testTransport (timesOut Millisecond)) 0)
    as (s & Hall & Hsame).
  - apply NewRetryableTransport_wellConfigured; cbn; lia.
  - intros i. vm_compute. discriminate.
  - intros k. unfold unitInterval. cbn. lia.
  - exists s. split; [exact Hall |].
    destruct (RoundTrip 10 (runtime 1 2) (testTransport (timesOut Millisecond)) 0)
      as [s' |] eqn:E; [| vm_compute in E; discriminate E].
    rewrite (Hsame 10%nat s' E). reflexivity.
Defined.

(** X2. What [RoundTrip] returns is what its last attempt got from the
    wrapped transport: the response with a nil error, its body closed when the
    status is 400 or more and untouched otherwise; or a nil response with the
    transport's own error.  None of the errors the closure builds ("server
    error", "rate limit reached", "client error") is ever returned. *)
Theorem RoundTrip_returns_the_last_attempt :
  forall (fuel : nat) (rt : Runtime) (r : RetryableTransport) (t0 : Time) (s : State),
    RoundTrip fuel rt r t0 = Some s ->
    exists n, requests s = S n /\ kept (transport r n) s.
Proof.
  intros fuel rt r t0 s Hrun.
  apply RoundTrip_returned in Hrun as (Hn & _). exact Hn.
Qed.

(** A 503 and then a 200: what comes back is the 200, its body open. *)
Lemma RoundTrip_returns_the_last_attempt_witness :
  exists s,
    RoundTrip 10 (runtime 1 2) (testTransport (failsOnce 503 Millisecond)) 0 = Some s
    /\ exists n, requests s = S n /\ kept (failsOnce 503 Millisecond n) s.
Proof.
  eexists. split; [vm_compute; reflexivity |].
  apply (RoundTrip_returns_the_last_attempt 10 (runtime 1 2)
           (testTransport (failsOnce 503 Millisecond)) 0).
  vm_compute. reflexivity.
Defined.

(** X3. A call goes on to another attempt only after a timeout of the
    transport, a status of 500 or more, or a 429: every attempt but the last
    met one of these.  Any other answer (a status below 400, another 4xx, an
    error that is no timeout) therefore ends the call with the attempt that
    met it. *)
Theorem RoundTrip_goes_on_only_after_retryable :
  forall (fuel : nat) (rt : Runtime) (r : RetryableTransport) (t0 : Time) (s : State),
    RoundTrip fuel rt r t0 = Some s ->
    forall i, (S i < requests s)%nat -> retryable (transport r i).
Proof.
  intros fuel rt r t0 s Hrun i Hi.
  apply RoundTrip_returned in Hrun as (_ & Hbefore & _).
  apply Hbefore. exact Hi.
Qed.

(** A 503 and then a 200: two requests, the first of which met a retryable
    answer. *)
Lemma RoundTrip_goes_on_only_after_retryable_witness :
  exists s,
    RoundTrip 10 (runtime 1 2) (testTransport (failsOnce 503 Millisecond)) 0 = Some s
    /\ requests s = 2%nat
    /\ retryable (failsOnce 503 Millisecond 0%nat).
Proof.
  eexists. split; [vm_compute; reflexivity |]. split; [reflexivity |].
  apply (RoundTrip_goes_on_only_after_retryable 10 (runtime 1 2)
           (testTransport (failsOnce 503 Millisecond)) 0 _ eq_refl 0%nat).
  cbn. lia.
Defined.

(** X4. Whatever the server answers, a request of a call after the first is
    started only while the time elapsed and the pause before it are within
    MaxElapsedTime, the pauses taken for Retry-After counting like the retry
    timer's.  It therefore goes out no later than MaxElapsedTime after the
    call began, or later than that by no more than the runtime was late in
    ending one of the call's pauses: with timers that are on time, within
    MaxElapsedTime. *)
Theorem RoundTrip_sends_within_budget :
  forall (fuel : nat) (rt : Runtime) (r : RetryableTransport) (t0 : Time) (s : State),
    wellConfigured (backoffConfig r) ->
    (forall k, unitInterval (float64 rt k)) ->
    RoundTrip fuel rt r t0 = Some s ->
    forall t, In t (sent s) ->
      t = t0
      \/ exists j, (j < List.length (naps s))%nat
           /\ t - t0 <= MaxElapsedTime (backoffConfig r) + Z.of_N (late rt j).
Proof.
  intros fuel rt r t0 s Hwf Hdraws Hrun t Ht. rewrite RoundTrip_unfold in Hrun.
  destruct (retrying rt (transport r) t0 fuel 0%nat _ _) as [[e s1] |] eqn:E;
    [| discriminate].
  inversion Hrun; subst s1.
  destruct (Reset_wellConfigured (backoffConfig r) t0 Hwf) as [Hwf0 Hcur0].
  eapply retrying_within_budget in E; [| exact Hdraws | exact Hwf0 | exact Hcur0 | exact Ht].
  cbn in E. destruct E as [[E | []] | E]; [left; symmetry; exact E | right; exact E].
Qed.

(** The server of the tests taking 37.5ms for every 500: with timers on
    time the third request goes out exactly 200ms after the call began; when
    the second pause ends a millisecond late, it goes out after 201ms. *)
Lemma RoundTrip_sends_within_budget_witness :
  (exists s,
      RoundTrip 10 (runtime 1 2) (testTransport (always 500 "" 37500000)) 0 = Some s
      /\ rev (sent s) = [0; 87500000; 200 * Millisecond])
  /\ exists s,
      RoundTrip 10 (tardy 1 2 1 1000000) (testTransport (always 500 "" 37500000)) 0 = Some s
      /\ rev (sent s) = [0; 87500000; 201 * Millisecond]
      /\ forall t, In t (sent s) ->
           t = 0
           \/ exists j, (j < List.length (naps s))%nat
                /\ t - 0 <= 200 * Millisecond + Z.of_N (late (tardy 1 2 1 1000000) j).
Proof.
  split; [eexists; split; vm_compute; reflexivity |].
  eexists. split; [vm_compute; reflexivity |]. split; [reflexivity |].
  apply (RoundTrip_sends_within_budget 10 (tardy 1 2 1 1000000)
           (testTransport (always 500 "" 37500000)) 0).
  - apply NewRetryableTransport_wellConfigured; cbn; lia.
  - intros k. unfold unitInterval. cbn. lia.
  - vm_compute. reflexivity.
Defined.

(** X5. When the first answer is a 429 whose Retry-After parses and the call
    makes a second request, the delay was no more than MaxElapsedTime, and the
    call slept the delay and then, on top of it, the first backoff interval:
    the second request is sent after both pauses, each as long as it lasted
    on the machine. *)
Theorem RoundTrip_retry_after_adds_to_backoff :
  forall (fuel : nat) (rt : Runtime) (r : RetryableTransport) (t0 : Time) (s : State)
         (res : Response) (delay : Duration),
    wellConfigured (backoffConfig r) ->
    (forall k, unitInterval (float64 rt k)) ->
    outcome (transport r 0%nat) = inl res ->
    StatusCode res = StatusTooManyRequests ->
    RetryAfter res <> "" ->
    ParseDuration rt (RetryAfter res) = Some delay ->
    RoundTrip fuel rt r t0 = Some s ->
    (2 <= requests s)%nat ->
    delay <= MaxElapsedTime (backoffConfig r)
    /\ (exists later, rev (naps s) = delay :: firstBackOff rt (backoffConfig r) :: later)
    /\ (exists later,
          rev (sent s)
          = t0 :: (t0 + took (transport r 0%nat) + sleepFor delay (late rt 0%nat)
                   + sleepFor (firstBackOff rt (backoffConfig r)) (late rt 1%nat))
               :: later).
Proof.
  intros fuel rt r t0 s res delay Hwf Hdraws Hout Hcode Hhdr Hparse Hrun Htwo.
  destruct (Reset_wellConfigured (backoffConfig r) t0 Hwf) as [Hwf0 Hcur0].
  rewrite RoundTrip_unfold in Hrun.
  destruct (retrying rt (transport r) t0 fuel 0%nat _ _) as [[e s1] |] eqn:E;
    [| discriminate].
  inversion Hrun; subst s1. clear Hrun. rename E into Hrun.
  destruct fuel as [| fuel]; [discriminate |].
  rewrite retrying_step in Hrun.
  unfold operation in Hrun. cbn [requests enter] in Hrun.
  rewrite Hout, Hcode in Hrun.
  change (500 <=? StatusTooManyRequests) with false in Hrun.
  change (StatusTooManyRequests =? StatusTooManyRequests) with true in Hrun.
  cbv iota in Hrun.
  destruct (String.eqb_spec (RetryAfter res) "") as [E | _]; [contradiction |].
  rewrite Hparse in Hrun.
  cbn [shared closeResp send enter] in Hrun.
  destruct (Z.ltb_spec (MaxElapsedTime (backoffConfig r)) delay) as [Hlong | Hfits].
  - cbn [orb] in Hrun. inversion Hrun; subst s. cbn in Htwo. lia.
  - cbn [orb] in Hrun.
    destruct (_ <? _) in Hrun.
    + inversion Hrun; subst s. cbn in Htwo. lia.
    + match type of Hrun with
      | context [NextBackOff ?b ?t ?x] =>
          destruct (NextBackOff_decides rt Hdraws b t 0%nat Hwf0 Hcur0)
            as (Hnext & Hdec & Hb');
          destruct (NextBackOff b t x) as [next b']
      end.
      cbn [fst snd] in *.
      destruct (next =? Stop).
      * inversion Hrun; subst s. cbn in Htwo. lia.
      * destruct Hdec as [-> _].
        cbn [Reset withState RandomizationFactor currentInterval] in Hrun.
        fold (firstBackOff rt (backoffConfig r)) in Hrun.
        apply retrying_returned in Hrun as (_ & _ & _ & (l1 & Hs) & (l2 & Hz) & _).
        cbn [sent naps now sleep closeResp send enter List.length] in Hs, Hz.
        split; [exact Hfits |]. split.
        -- exists (rev l2). rewrite Hz, rev_app_distr. reflexivity.
        -- exists (rev l1). rewrite Hs, rev_app_distr. reflexivity.
Qed.

(** The "Rate Limiting" case of the tests: 100ms of Retry-After, then 50ms of
    backoff, then the second request. *)
Lemma RoundTrip_retry_after_adds_to_backoff_witness :
  exists s,
    RoundTrip 10 (runtime 1 2) (testTransport (always 429 "100ms" Millisecond)) 0 = Some s
    /\ rev (naps s) = [100 * Millisecond; 50 * Millisecond]
    /\ exists later, rev (sent s) = 0 :: 151 * Millisecond :: later.
Proof.
  eexists. split; [vm_compute; reflexivity |]. split; [reflexivity |].
  refine (proj2 (proj2 (RoundTrip_retry_after_adds_to_backoff 10 (runtime 1 2)
                          (testTransport (always 429 "100ms" Millisecond)) 0 _
                          (response 429 "100ms") (100 * Millisecond) _ _ _ _ _ _ _ _))).
  - apply NewRetryableTransport_wellConfigured; cbn; lia.
  - intros k. unfold unitInterval. cbn. lia.
  - reflexivity.
  - reflexivity.
  - discriminate.
  - reflexivity.
  - vm_compute. reflexivity.
  - cbn. lia.
Defined.

(** X6. Under a budget below zero nothing is retried: whatever the first
    attempt meets, the call makes that one request and returns what it
    got. *)
Theorem RoundTrip_negative_budget_never_retries :
  forall (fuel : nat) (rt : Runtime) (r : RetryableTransport) (t0 : Time),
    wellConfigured (backoffConfig r) ->
    MaxElapsedTime (backoffConfig r) < 0 ->
    (forall i, 0 <= took (transport r i)) ->
    (forall k, unitInterval (float64 rt k)) ->
    exists s,
      RoundTrip (S fuel) rt r t0 = Some s
      /\ requests s = 1%nat
      /\ kept (transport r 0%nat) s.
Proof.
  intros fuel rt r t0 Hwf Hneg Htook Hdraws.
  destruct (Reset_wellConfigured (backoffConfig r) t0 Hwf) as [Hwf0 Hcur0].
  rewrite RoundTrip_unfold, retrying_step.
  destruct (operation_attempt rt (transport r) t0 (enter r t0))
    as (_ & Hreq & _ & Hkept & (pause & Hpause & Hnow) & _).
  destruct (operation rt (transport r) t0 (enter r t0)) as [res s1]. cbn [fst snd] in *.
  cbn [requests enter now] in Hreq, Hkept, Hnow.
  specialize (Htook 0%nat).
  destruct res as [| e1 | e1].
  - eexists. split; [reflexivity |]. auto.
  - destruct (NextBackOff_decides rt Hdraws (Reset (backoffConfig r) t0) (now s1) 0%nat
                Hwf0 Hcur0) as (Hnext & Hdec & _).
    destruct (NextBackOff _ _ _) as [next b']. cbn [fst snd] in *.
    cbn [Reset withState MaxElapsedTime backoff.startTime] in Hdec.
    destruct (next =? Stop).
    + eexists. split; [reflexivity |]. auto.
    + exfalso. destruct Hdec as [_ Hfit]. lia.
  - eexists. split; [reflexivity |]. auto.
Qed.

(** A budget of -1ns against a server that answers 503. *)
Lemma RoundTrip_negative_budget_never_retries_witness :
  exists s,
    RoundTrip 1 (runtime 1 2) (noBudget (always 503 "" Millisecond)) 0 = Some s
    /\ requests s = 1%nat
    /\ kept (always 503 "" Millisecond 0%nat) s.
Proof.
  apply (RoundTrip_negative_budget_never_retries 0 (runtime 1 2)
           (noBudget (always 503 "" Millisecond)) 0).
  - apply NewRetryableTransport_wellConfigured; cbn; lia.
  - cbn. lia.
  - intros i. vm_compute. discriminate.
  - intros k. unfold unitInterval. cbn. lia.
Defined.

End AnyServerProperties.

Section CallDuration.

Import Go http backoff retry Scenarios.

Variable rt : Runtime.
Variable tr : RoundTripper.
Variable startTime : Time.
(** No pause of the call ends later than [L] after it should. *)
Variable L : Duration.

Hypothesis draws : forall k, unitInterval (float64 rt k).
Hypothesis takes : forall i, 0 <= took (tr i) <= 2 ^ 61.
Hypothesis lateness : forall k, Z.of_N (late rt k) <= L.

(** The clock after one run of the closure: it has moved by the time the
    request took, and by a Retry-After pause only as far as the budget and
    the lateness of the runtime go. *)
Lemma operation_clock (s : State) :
  0 <= now s - startTime <= 2 ^ 61 ->
  0 <= MaxElapsedTime (shared s) <= 2 ^ 61 ->
  now (snd (operation rt tr startTime s)) = now s + took (tr (requests s))
  \/ (now s + took (tr (requests s)) <= now (snd (operation rt tr startTime s))
      /\ now (snd (operation rt tr startTime s)) - startTime
         <= MaxElapsedTime (shared s) + L).
Proof.
  intros Hnow Hmax. pose proof (takes (requests s)) as Htook.
  unfold operation.
  destruct (outcome (tr (requests s))) as [res | e].
  - destruct (500 <=? StatusCode res); [left; reflexivity |].
    destruct (StatusCode res =? StatusTooManyRequests).
    + destruct (String.eqb (RetryAfter res) ""); [left; reflexivity |].
      destruct (ParseDuration rt (RetryAfter res)) as [delay |]; [| left; reflexivity].
      cbn [shared closeResp send now].
      destruct (Z.ltb_spec (MaxElapsedTime (shared s)) delay) as [Hlong | Hfits];
        [left; reflexivity |].
      cbn [orb].
      destruct (Z.ltb_spec (MaxElapsedTime (shared s))
                  (dadd (Since (now s + took (tr (requests s))) startTime) delay))
        as [Hover | Hin]; [left; reflexivity |].
      cbn [snd sleep now naps closeResp send].
      pose proof (sleepFor_bounds delay (late rt (List.length (naps s))))
        as (_ & Hpos & Hneg).
      pose proof (lateness (List.length (naps s))) as Hlate.
      destruct (Z_le_gt_dec delay 0) as [Hle | Hgt].
      * left. rewrite (Hneg Hle). lia.
      * right. specialize (Hpos ltac:(lia)). split; [lia |].
        unfold dadd, Since, Sub, wrap64, minDuration, maxDuration in Hin.
        change (2 ^ 61) with 2305843009213693952 in *.
        change (2 ^ 63) with 9223372036854775808 in Hin.
        change (2 ^ 64) with 18446744073709551616 in Hin.
        rewrite Z.min_r, Z.max_r in Hin by lia.
        rewrite Z.mod_small in Hin by lia. lia.
    + destruct (400 <=? StatusCode res); left; reflexivity.
  - destruct (isTimeout e); left; reflexivity.
Qed.

(** How long the loop lasts: it returns no later than the budget, counted
    from the policy's start, the time its last attempt took and the lateness
    of one pause allow. *)
Lemma retrying_duration (fuel : nat) :
  forall (k : nat) (b : ExponentialBackOff) (s s' : State) (e : option error),
    retrying rt tr startTime fuel k b s = Some (e, s') ->
    wellConfigured b ->
    0 <= currentInterval b ->
    backoff.startTime b = startTime ->
    MaxElapsedTime (shared s) = MaxElapsedTime b ->
    0 <= MaxElapsedTime b ->
    0 <= L ->
    MaxElapsedTime b + L <= 2 ^ 61 ->
    0 <= now s - startTime <= MaxElapsedTime b + L ->
    exists n, requests s' = S n
              /\ now s' - startTime <= MaxElapsedTime b + L + took (tr n).
Proof.
  induction fuel as [| fuel IH];
    intros k b s s' e Hrun Hwf Hcur Hstart Hsh Hmax HL Hcap Hnow;
    [discriminate |].
  rewrite retrying_step in Hrun.
  pose proof (operation_clock s ltac:(lia) ltac:(lia)) as Hclock.
  destruct (operation_attempt rt tr startTime s) as (Hsh1 & Hreq & _).
  pose proof (takes (requests s)) as Htook.
  destruct (operation rt tr startTime s) as [res s1]. cbn [fst snd] in *.
  assert (Hend : now s1 - startTime <= MaxElapsedTime b + L + took (tr (requests s)))
    by (destruct Hclock as [-> | [_ H]]; lia).
  assert (Hfwd : now s + took (tr (requests s)) <= now s1)
    by (destruct Hclock as [-> | [H _]]; lia).
  destruct res as [| e1 | e1].
  - inversion Hrun; subst. exists (requests s). auto.
  - destruct (NextBackOff_decides rt draws b (now s1) k Hwf Hcur) as (Hnext & Hdec & Hb').
    destruct (incrementCurrentInterval_config b) as [Hcfg Hst].
    destruct (NextBackOff b (now s1) (float64 rt k)) as [next b']. cbn [fst snd] in *.
    destruct (next =? Stop).
    + inversion Hrun; subst. exists (requests s). auto.
    + destruct Hdec as [-> Hfit]. subst b'.
      pose proof (sleepFor_bounds
                    (getRandomValueFromInterval (RandomizationFactor b)
                       (float64 rt k) (currentInterval b))
                    (late rt (List.length (naps s1)))) as (_ & Hpos & _).
      specialize (Hpos Hnext).
      pose proof (lateness (List.length (naps s1))) as Hlate.
      destruct Hcfg as (H1 & H2 & H3 & H4 & HM & H6).
      apply IH in Hrun.
      * rewrite <- HM in Hrun. exact Hrun.
      * eapply wellConfigured_sameConfig; [| exact Hwf].
        unfold sameConfig. auto 10.
      * apply incrementCurrentInterval_nonneg; assumption.
      * rewrite Hst. exact Hstart.
      * cbn [shared sleep]. rewrite <- HM. congruence.
      * rewrite <- HM. exact Hmax.
      * exact HL.
      * rewrite <- HM. exact Hcap.
      * cbn [now sleep]. rewrite <- HM. rewrite Hstart in Hfit. lia.
  - inversion Hrun; subst. exists (requests s). auto.
Qed.

End CallDuration.

Section CallDurationProperty.

Import Go http backoff retry Scenarios.

(** X22. A call on a well-configured transport lasts no longer than
    MaxElapsedTime, the time its last attempt took and the lateness [L] of
    the runtime in ending one pause, whatever the server answers and whatever
    Retry-After it names: with timers that are on time, no longer than
    MaxElapsedTime and the last attempt.  The budget with the lateness and
    the time of an attempt are taken to be at most 2^61 ns (some 73 years),
    so that no sum of durations overflows. *)
Theorem RoundTrip_lasts_no_longer_than_budget_and_last_attempt :
  forall (fuel : nat) (rt : Runtime) (r : RetryableTransport) (t0 : Time) (s : State)
         (L : Duration),
    wellConfigured (backoffConfig r) ->
    0 <= MaxElapsedTime (backoffConfig r) ->
    (forall k, 0 <= Z.of_N (late rt k) <= L) ->
    MaxElapsedTime (backoffConfig r) + L <= 2 ^ 61 ->
    (forall i, 0 <= took (transport r i) <= 2 ^ 61) ->
    (forall k, unitInterval (float64 rt k)) ->
    RoundTrip fuel rt r t0 = Some s ->
    exists n,
      requests s = S n
      /\ now s - t0 <= MaxElapsedTime (backoffConfig r) + L + took (transport r n).
Proof.
  intros fuel rt r t0 s L Hwf Hmax Hlate Hcap Htook Hdraws Hrun.
  rewrite RoundTrip_unfold in Hrun.
  destruct (retrying rt (transport r) t0 fuel 0%nat _ _) as [[e s1] |] eqn:E;
    [| discriminate].
  inversion Hrun; subst s1.
  destruct (Reset_wellConfigured (backoffConfig r) t0 Hwf) as [Hwf0 Hcur0].
  assert (HL : 0 <= L) by (specialize (Hlate 0%nat); lia).
  apply (retrying_duration rt (transport r) t0 L Hdraws Htook
           (fun k => proj2 (Hlate k))) in E;
    try assumption; try reflexivity.
  cbn [now enter Reset withState MaxElapsedTime]. lia.
Qed.

(** The server of the tests taking 37.5ms for every 500, the second pause
    ending a millisecond late: the call is back after 238.5ms, within the
    200ms of the budget, the millisecond and the 37.5ms of the last
    attempt. *)
Lemma RoundTrip_lasts_no_longer_than_budget_and_last_attempt_witness :
  exists s,
    RoundTrip 10 (tardy 1 2 1 1000000) (testTransport (always 500 "" 37500000)) 0 = Some s
    /\ now s = 238500000
    /\ exists n, requests s = S n
                 /\ now s - 0 <= 200 * Millisecond + 1000000 + 37500000.
Proof.
  eexists. split; [vm_compute; reflexivity |]. split; [reflexivity |].
  apply (RoundTrip_lasts_no_longer_than_budget_and_last_attempt 10 (tardy 1 2 1 1000000)
           (testTransport (always 500 "" 37500000)) 0 _ 1000000).
  - apply NewRetryableTransport_wellConfigured; cbn; lia.
  - vm_compute. discriminate.
  - intros k. cbn [late tardy]. destruct (k =? 1)%nat; lia.
  - vm_compute. discriminate.
  - intros i. vm_compute. split; discriminate.
  - intros k. unfold unitInterval. cbn. lia.
  - vm_compute. reflexivity.
Defined.

End CallDurationProperty.
(** * More about the fetcher's cycle *)

Section CycleStates.

Import Go http fetcher.

Variable f : RulesObjtoreFetcher.
Variable w : World.

(** No step lets more tasks run than the semaphore has slots. *)
Lemma step_inflight (c : Cycle) (a : Action) :
  (List.length (inflight c) <= concurrency)%nat ->
  enabled c a = true ->
  (List.length (inflight (snd (step f c w a))) <= concurrency)%nat.
Proof.
  intros Hbound Hen.
  destruct a as [| | i | e]; cbn [step enabled] in *.
  - apply andb_prop in Hen as [_ Hfree]. apply Nat.ltb_lt in Hfree.
    destruct (todo c) as [| t rest]; [exact Hbound |].
    cbn [snd inflight]. rewrite length_app. cbn. lia.
  - destruct (todo c) as [| t rest]; [exact Hbound |].
    destruct (ctx c) as [e |]; [| exact Hbound].
    unfold receive. destruct (consume w (rules c) _); exact Hbound.
  - destruct (nth_error (inflight c) i) as [r |] eqn:En; [| exact Hbound].
    pose proof (remove_nth_length _ _ _ En) as Hlen.
    unfold receive. destruct (consume w (rules c) r); cbn [snd inflight]; lia.
  - exact Hbound.
Qed.

Lemma states_inflight (fuel : nat) :
  forall (s : list Action) (c c' : Cycle),
    (List.length (inflight c) <= concurrency)%nat ->
    In c' (states fuel f w s c) ->
    (List.length (inflight c') <= concurrency)%nat.
Proof.
  induction fuel as [| fuel IH]; intros s c c' Hbound Hin; cbn [states] in Hin.
  - destruct (drained c); destruct Hin as [<- | []]; exact Hbound.
  - destruct Hin as [<- | Hin]; [exact Hbound |].
    destruct (drained c) eqn:Hd; [destruct Hin |].
    pose proof (pick_enabled c s Hd) as Hen.
    destruct (pick c s) as [a s']. cbn [fst] in Hen.
    pose proof (step_inflight c a Hbound Hen) as Hstep.
    destruct (step f c w a) as [[ret |] c1]; cbn [snd] in Hstep.
    + destruct Hin as [<- | []]. exact Hstep.
    + eapply IH; [exact Hstep | exact Hin].
Qed.

Lemma last_default {A} (l : list A) :
  forall (x d d' : A), last (x :: l) d = last (x :: l) d'.
Proof.
  induction l as [| y l IH]; intros x d d'; [reflexivity |].
  change (last (y :: l) d = last (y :: l) d'). apply IH.
Qed.

Lemma states_head (fuel : nat) (s : list Action) (c : Cycle) :
  exists tl, states fuel f w s c = c :: tl.
Proof. destruct fuel; cbn [states]; eexists; reflexivity. Qed.

(** The last of the cycles a run goes through is the one it returns in. *)
Lemma states_last (fuel : nat) :
  forall (s : list Action) (c c' : Cycle) (ret : Return),
    run fuel f w s c = Some (ret, c') ->
    last (states fuel f w s c) c = c'.
Proof.
  induction fuel as [| fuel IH]; intros s c c' ret Hrun; cbn [run states] in *.
  - destruct (drained c); [| discriminate]. inversion Hrun; subst. reflexivity.
  - destruct (drained c); [inversion Hrun; subst; reflexivity |].
    destruct (pick c s) as [a s'].
    destruct (step f c w a) as [[ret1 |] c1].
    + inversion Hrun; subst. reflexivity.
    + apply IH in Hrun.
      destruct (states_head fuel s' c1) as [tl Htl]. rewrite Htl in *.
      change (last (c1 :: tl) c = c').
      rewrite (last_default tl c1 c c1). exact Hrun.
Qed.

End CycleStates.

Section GroupNames.

Import Go http fetcher.

Lemma dotFree_cons (c : ascii) (s : string) :
  dotFree (String c s) = true -> c <> "."%char /\ dotFree s = true.
Proof.
  cbn [dotFree]. intros H. apply andb_prop in H as [Hc Hs].
  split; [| exact Hs].
  intros ->. rewrite Ascii.eqb_refl in Hc. discriminate.
Qed.

(** A dot-free tenant name can be read back from a prefixed group name. *)
Lemma prefixed_name_inj (t1 : string) :
  forall (t2 n1 n2 : string),
    dotFree t1 = true -> dotFree t2 = true ->
    (t1 ++ "." ++ n1 = t2 ++ "." ++ n2)%string ->
    t1 = t2 /\ n1 = n2.
Proof.
  induction t1 as [| c t1 IH]; intros t2 n1 n2 H1 H2 Heq.
  - destruct t2 as [| c2 t2]; cbn in Heq.
    + inversion Heq. auto.
    + apply dotFree_cons in H2 as [Hc _]. inversion Heq. congruence.
  - apply dotFree_cons in H1 as [Hc H1].
    destruct t2 as [| c2 t2]; cbn in Heq.
    + inversion Heq. congruence.
    + apply dotFree_cons in H2 as [_ H2]. inversion Heq; subst.
      destruct (IH t2 n1 n2 H1 H2) as [-> ->]; auto.
Qed.

Lemma append_cancel (t a b : string) : (t ++ a = t ++ b)%string -> a = b.
Proof.
  induction t as [| c t IH]; cbn; intros H; [exact H |].
  inversion H. auto.
Qed.

Lemma prefixed_names_NoDup (t : string) (groups : list RuleGroup) :
  NoDup (map Name groups) ->
  NoDup (map Name (map (prefixed t) groups)).
Proof.
  induction groups as [| g groups IH]; intros Hnd; [constructor |].
  cbn [map] in *. inversion Hnd as [| ? ? Hnotin Hrest]; subst.
  constructor; [| apply IH; exact Hrest].
  intros Hin. apply Hnotin.
  rewrite map_map in Hin. apply in_map_iff in Hin as (g' & Heq & Hg').
  apply in_map_iff. exists g'. split; [| exact Hg'].
  cbn [prefixed Name] in Heq.
  apply append_cancel in Heq. inversion Heq. reflexivity.
Qed.

Variable w : World.

(** Tenants that differ and have no dot in their names, documents whose
    group names differ: the merged names differ. *)
Lemma merged_names_NoDup (results : list tenantFetchResult) :
  NoDup (map tenant results) ->
  Forall (fun r => dotFree (tenant r) = true) results ->
  Forall (fun r => NoDup (map Name (groupsOf w r))) results ->
  NoDup (map Name (merged w results)).
Proof.
  unfold merged.
  induction results as [| r l IH]; intros Hnd Hdots Hdocs; [constructor |].
  cbn [flat_map map] in *. rewrite map_app.
  inversion Hnd as [| ? ? Hnotin Hrest]; subst.
  inversion Hdots as [| ? ? Hr Hl]; subst.
  inversion Hdocs as [| ? ? Hgr Hgl]; subst.
  apply NoDup_app.
  - apply prefixed_names_NoDup. exact Hgr.
  - apply IH; assumption.
  - intros name Hin1 Hin2.
    apply in_map_iff in Hin1 as (g1 & <- & Hg1).
    apply in_map_iff in Hg1 as (g0 & <- & _).
    apply in_map_iff in Hin2 as (g2 & Heq & Hg2).
    apply in_flat_map in Hg2 as (r' & Hr' & Hg2).
    apply in_map_iff in Hg2 as (g3 & <- & _).
    cbn [prefixed Name] in Heq.
    apply prefixed_name_inj in Heq as [Ht _].
    + apply Hnotin. rewrite <- Ht. apply in_map. exact Hr'.
    + eapply Forall_forall in Hl; [exact Hl | exact Hr'].
    + exact Hr.
Qed.

(** The groups of a good result are those the parser gave without an
    error. *)
Lemma good_groups (r : tenantFetchResult) :
  failure w r = None ->
  exists body, groupsOf w r = fst (Parse w body) /\ snd (Parse w body) = [].
Proof.
  unfold failure, consume, groupsOf.
  destruct (outcome r) as [res | e]; [| discriminate].
  destruct (negb _); [discriminate |].
  destruct (Body res) as [body | m]; [| discriminate].
  destruct (Parse w body) as [groups errors] eqn:E.
  destruct errors as [| e errors]; [| discriminate].
  intros _. exists body. rewrite E. auto.
Qed.

End GroupNames.

Section LiveCycle.

Import Go http fetcher.

Variable f : RulesObjtoreFetcher.
Variable w : World.

Hypothesis good_answers : alwaysGood f w.

(** Under a context that stays live, every result the collector takes in is
    good. *)
Lemma run_live (fuel : nat) :
  forall (s : list Action) (c c' : Cycle) (ret : Return),
    ctx c = None ->
    neverCancelled s ->
    Forall (fun r => failure w r = None) (inflight c) ->
    Forall (fun r => failure w r = None) (received c) ->
    run fuel f w s c = Some (ret, c') ->
    Forall (fun r => failure w r = None) (received c').
Proof.
  induction fuel as [| fuel IH]; intros s c c' ret Hctx Hs Hin Hrx Hrun; cbn [run] in Hrun.
  - destruct (drained c); [| discriminate]. inversion Hrun; subst. exact Hrx.
  - destruct (drained c) eqn:Hd; [inversion Hrun; subst; exact Hrx |].
    assert (Hpick : neverCancelled (snd (pick c s))
                    /\ forall e, fst (pick c s) <> Cancel e).
    { unfold pick, fallback. destruct s as [| a s'].
      - split; [intros e [] |]. intros e. destruct (inflight c); discriminate.
      - assert (Hs' : neverCancelled s') by (intros e He; apply (Hs e); right; exact He).
        destruct (enabled c a); cbn [fst snd].
        + split; [exact Hs' |]. intros e ->. apply (Hs e). left. reflexivity.
        + split; [exact Hs' |]. intros e. destruct (inflight c); discriminate. }
    destruct (pick c s) as [a s']. cbn [fst snd] in Hpick. destruct Hpick as [Hs' Ha].
    destruct a as [| | i | e]; cbn [step] in Hrun.
    + destruct (todo c) as [| t rest].
      * eapply IH; [exact Hctx | exact Hs' | exact Hin | exact Hrx | exact Hrun].
      * eapply IH in Hrun; [exact Hrun | exact Hctx | exact Hs' | | exact Hrx].
        cbn [inflight]. apply Forall_app. split; [exact Hin |].
        constructor; [| constructor]. rewrite Hctx. cbn [isDone].
        apply good_answers.
    + rewrite Hctx in Hrun.
      destruct (todo c); eapply IH; eauto.
    + destruct (nth_error (inflight c) i) as [r |] eqn:En.
      * assert (Hr : failure w r = None).
        { eapply Forall_forall in Hin; [exact Hin |]. eapply nth_error_In; exact En. }
        unfold receive in Hrun. rewrite consume_spec, Hr in Hrun.
        eapply IH in Hrun; [exact Hrun | exact Hctx | exact Hs' | | ].
        -- cbn [inflight]. eapply remove_nth_Forall; eassumption.
        -- cbn [received]. constructor; assumption.
      * eapply IH; eauto.
    + contradiction (Ha e eq_refl).
Qed.

End LiveCycle.

Section LiveCycleProperty.

Import Go http fetcher Scenarios.

(** X7. With a context that is live and that nothing cancels, and a client
    whose every answer the collector accepts, [GetTenantsRules] starts a task
    for every tenant of the list, takes in a result of each, and returns the
    encoding of the merged groups (or the encoder's error). *)
Theorem GetTenantsRules_succeeds_on_good_answers :
  forall (f : RulesObjtoreFetcher) (w : World),
    neverCancelled (sched w) ->
    alwaysGood f w ->
    exists fin,
      GetTenantsRules f None w = Some fin
      /\ dispatched fin = tenants f
      /\ Permutation (map tenant (collected fin)) (tenants f)
      /\ returned fin = match Marshal w (merged w (collected fin)) with
                        | inl data => Ok data
                        | inr msg => Err (FailedMarshal msg)
                        end.
Proof.
  intros f w Hs Hgood. unfold GetTenantsRules, cycle.
  destruct (run_settles f w (tenants f) _ (sched w) (begin None (tenants f))
              (begin_invariant _ _ _ _) (begin_stepsLeft _ _))
    as (ret & c & Hrun & Hstarted & Hret).
  rewrite Hrun.
  pose proof (run_live f w Hgood _ (sched w) (begin None (tenants f)) c ret
                eq_refl Hs (Forall_nil _) (Forall_nil _) Hrun) as Hrx.
  eexists. split; [reflexivity |]. cbn [dispatched collected returned].
  assert (Hcomplete : complete f w (tenants f) c
                      /\ ret = match Marshal w (rules c) with
                               | inl data => Ok data
                               | inr msg => Err (FailedMarshal msg)
                               end).
  { destruct ret as [data | e].
    - destruct Hret as [Hc Hm]. rewrite Hm. auto.
    - destruct Hret as [(bad & good & Hr & _ & Hbad) | (msg & -> & Hc & Hm)].
      + exfalso. rewrite Hr in Hrx. inversion Hrx; congruence.
      + rewrite Hm. auto. }
  destruct Hcomplete as [(Htodo & _ & Hg & _ & Hperm & Hrules) Hreturned].
  split; [rewrite Htodo, app_nil_r in Hstarted; exact Hstarted |].
  split; [rewrite map_rev, <- Permutation_rev; exact Hperm |].
  rewrite <- merged_contribution by (apply Forall_rev; exact Hg).
  rewrite <- Hrules. exact Hreturned.
Qed.

(** The test "rule groups are aggregated", the second tenant answering
    first. *)
Lemma GetTenantsRules_succeeds_on_good_answers_witness :
  exists fin,
    GetTenantsRules (twoTenants 200 ruleGroups) None (world [Launch; Launch; Deliver 1])
    = Some fin
    /\ dispatched fin = ["tenant1"; "tenant2"]
    /\ returned fin = Ok "tenant2.test; tenant2.test2; tenant1.test; tenant1.test2".
Proof.
  destruct (GetTenantsRules_succeeds_on_good_answers (twoTenants 200 ruleGroups)
              (world [Launch; Launch; Deliver 1]))
    as (fin & Hrun & Hd & _ & Hret).
  - intros e [H | [H | [H | []]]]; discriminate.
  - intros k t. reflexivity.
  - exists fin. split; [exact Hrun |]. split; [exact Hd |].
    vm_compute in Hrun. injection Hrun as <-. reflexivity.
Defined.

End LiveCycleProperty.

Section CycleProperties.

Import Go http fetcher Scenarios.

(** X8. At no point of a cycle are more than ten tasks running: in every
    cycle the run of [GetTenantsRules] goes through, at most ten started tasks
    have yet to deliver their result.  The last of these cycles is the one in
    which [GetTenantsRules] returns. *)
Theorem GetTenantsRules_at_most_ten_tasks :
  forall (f : RulesObjtoreFetcher) (ctx0 : Context) (w : World),
    (forall c, In c (GetTenantsRulesStates f ctx0 w) ->
       (List.length (inflight c) <= 10)%nat)
    /\ exists fin,
         GetTenantsRules f ctx0 w = Some fin
         /\ dispatched fin
            = rev (started (last (GetTenantsRulesStates f ctx0 w) (begin ctx0 (tenants f))))
         /\ collected fin
            = rev (received (last (GetTenantsRulesStates f ctx0 w) (begin ctx0 (tenants f)))).
Proof.
  intros f ctx0 w. split.
  - intros c Hin. eapply states_inflight; [| exact Hin]. cbn. lia.
  - unfold GetTenantsRules, GetTenantsRulesStates, cycle.
    destruct (run_settles f w (tenants f) _ (sched w) (begin ctx0 (tenants f))
                (begin_invariant _ _ _ _) (begin_stepsLeft _ _))
      as (ret & c & Hrun & _).
    rewrite Hrun. rewrite (states_last f w _ _ _ _ _ Hrun).
    eexists. split; [reflexivity |]. split; reflexivity.
Qed.

(** X9. Tasks are started for the tenants in the order of the list, one for
    each entry and none skipped: the tenants dispatched are a prefix of the
    list, and they are the whole list when a document is returned. *)
Theorem GetTenantsRules_dispatches_in_list_order :
  forall (f : RulesObjtoreFetcher) (ctx0 : Context) (w : World),
    exists fin rest,
      GetTenantsRules f ctx0 w = Some fin
      /\ tenants f = (dispatched fin ++ rest)%list
      /\ (forall data, returned fin = Ok data -> dispatched fin = tenants f).
Proof.
  intros f ctx0 w. unfold GetTenantsRules, cycle.
  destruct (run_settles f w (tenants f) _ (sched w) (begin ctx0 (tenants f))
              (begin_invariant _ _ _ _) (begin_stepsLeft _ _))
    as (ret & c & Hrun & Hstarted & Hret).
  rewrite Hrun. exists {| returned := ret; snapshot := tenants f; ranged := tenants f;
                          dispatched := rev (started c); collected := rev (received c) |},
                       (todo c).
  cbn [returned dispatched].
  split; [reflexivity |]. split; [symmetry; exact Hstarted |].
  intros data ->. destruct Hret as [(Htodo & _) _].
  rewrite Htodo, app_nil_r in Hstarted. exact Hstarted.
Qed.

(** X10. When the tenants of the list differ from each other and have no dot
    in their names, and the parser gives group names that differ within a
    document, the group names of the document [GetTenantsRules] returns
    differ from each other. *)
Theorem GetTenantsRules_group_names_unique :
  forall (f : RulesObjtoreFetcher) (ctx0 : Context) (w : World),
    NoDup (tenants f) ->
    Forall (fun t => dotFree t = true) (tenants f) ->
    (forall body, snd (Parse w body) = [] -> NoDup (map Name (fst (Parse w body)))) ->
    exists fin,
      GetTenantsRules f ctx0 w = Some fin
      /\ forall data, returned fin = Ok data ->
           Marshal w (merged w (collected fin)) = inl data
           /\ NoDup (map Name (merged w (collected fin))).
Proof.
  intros f ctx0 w Hnd Hdots Hparse.
  destruct (cycle_outcome (fun f => f) f ctx0 w)
    as (fin & Hrun & _ & Hranged & _ & Hret).
  exists fin. split; [exact Hrun |].
  intros data Hok. rewrite Hok in Hret.
  destruct Hret as (Hperm & Hgood & _ & Hm).
  rewrite (merged_contribution w _ Hgood) in Hm. split; [exact Hm |].
  rewrite Hranged in Hperm. cbn beta in Hperm.
  apply merged_names_NoDup.
  - eapply Permutation_NoDup; [symmetry; exact Hperm | exact Hnd].
  - apply (Permutation_Forall (Permutation_sym Hperm)) in Hdots.
    rewrite Forall_map in Hdots. exact Hdots.
  - rewrite Forall_forall in *. intros r Hr.
    destruct (good_groups w r (Hgood r Hr)) as (body & -> & Herrs).
    apply Hparse. exact Herrs.
Qed.

(** The two tenants of the tests and their two groups each. *)
Lemma GetTenantsRules_group_names_unique_witness :
  exists fin,
    GetTenantsRules (twoTenants 200 ruleGroups) None (world [Launch; Launch; Deliver 1])
    = Some fin
    /\ returned fin = Ok "tenant2.test; tenant2.test2; tenant1.test; tenant1.test2"
    /\ NoDup (map Name (merged (world [Launch; Launch; Deliver 1]) (collected fin))).
Proof.
  destruct (GetTenantsRules_group_names_unique (twoTenants 200 ruleGroups) None
              (world [Launch; Launch; Deliver 1]))
    as (fin & Hrun & Hnames).
  - repeat constructor; cbn; intuition discriminate.
  - repeat constructor.
  - intros body _. cbn [world Parse]. unfold testParse.
    destruct (String.eqb body ruleGroups);
      [repeat constructor; cbn; intuition discriminate |].
    destruct (String.eqb body ""); constructor.
  - exists fin. split; [exact Hrun |].
    vm_compute in Hrun. injection Hrun as <-.
    split; [reflexivity |]. exact (proj2 (Hnames _ eq_refl)).
Defined.

(** Under the two assumptions on the client a good result is what the
    tenant gets from it under a live context. *)
Lemma good_result_by_tenant (f : RulesObjtoreFetcher) (w : World) (r : tenantFetchResult) :
  answersByTenant f -> honoursContext f ->
  fromClient f r -> failure w r = None ->
  outcome r = client f 0%nat (tenant r) false.
Proof.
  intros Hby Hctx (k & done & Hout) Hgood.
  destruct done.
  - destruct (Hctx k (tenant r)) as [e He]. rewrite He in Hout.
    unfold failure, consume in Hgood. rewrite Hout in Hgood. discriminate.
  - rewrite Hout. apply Hby.
Qed.

Lemma merged_by_tenant (f : RulesObjtoreFetcher) (w : World)
  (results : list tenantFetchResult) :
  answersByTenant f -> honoursContext f ->
  Forall (fromClient f) results ->
  Forall (fun r => failure w r = None) results ->
  merged w results
  = flat_map (fun t => map (prefixed t)
                         (groupsOf w {| tenant := t; outcome := client f 0%nat t false |}))
      (map tenant results).
Proof.
  intros Hby Hctx Hcl Hgood. unfold merged.
  induction results as [| r l IH]; [reflexivity |].
  inversion Hcl; subst. inversion Hgood; subst.
  cbn [flat_map map]. rewrite IH by assumption. f_equal. f_equal.
  unfold groupsOf. cbn [outcome].
  rewrite (good_result_by_tenant f w r); auto.
Qed.

(** X11. The schedule of the goroutines decides the order of the groups in
    the document and nothing else.  With a client that answers a tenant the
    same however many calls came before, and fails calls made under a context
    that is done, two cycles that both return a document return the same
    groups, one a permutation of the other. *)
Theorem GetTenantsRules_same_groups_under_every_schedule :
  forall (f : RulesObjtoreFetcher) (ctx1 ctx2 : Context) (w : World) (s2 : list Action),
    answersByTenant f ->
    honoursContext f ->
    exists fin1 fin2,
      GetTenantsRules f ctx1 w = Some fin1
      /\ GetTenantsRules f ctx2 {| Parse := Parse w; Marshal := Marshal w; sched := s2 |}
         = Some fin2
      /\ forall data1 data2,
           returned fin1 = Ok data1 -> returned fin2 = Ok data2 ->
           Marshal w (merged w (collected fin1)) = inl data1
           /\ Marshal w (merged w (collected fin2)) = inl data2
           /\ Permutation (merged w (collected fin1)) (merged w (collected fin2)).
Proof.
  intros f ctx1 ctx2 w s2 Hby Hctx.
  set (w2 := {| Parse := Parse w; Marshal := Marshal w; sched := s2 |}).
  destruct (cycle_outcome (fun f => f) f ctx1 w)
    as (fin1 & Hrun1 & _ & Hr1 & _ & Hret1).
  destruct (cycle_outcome (fun f => f) f ctx2 w2)
    as (fin2 & Hrun2 & _ & Hr2 & _ & Hret2).
  exists fin1, fin2. split; [exact Hrun1 |]. split; [exact Hrun2 |].
  intros data1 data2 Hok1 Hok2. rewrite Hok1 in Hret1. rewrite Hok2 in Hret2.
  destruct Hret1 as (Hperm1 & Hgood1 & Hcl1 & Hm1).
  destruct Hret2 as (Hperm2 & Hgood2 & Hcl2 & Hm2).
  assert (Hsame : forall r, failure w2 r = failure w r) by reflexivity.
  assert (Hgood2' : Forall (fun r => failure w r = None) (collected fin2)).
  { rewrite Forall_forall in *. intros r Hr. rewrite <- Hsame. auto. }
  rewrite (merged_contribution w _ Hgood1) in Hm1.
  change (flat_map (contribution w2) (collected fin2))
    with (flat_map (contribution w) (collected fin2)) in Hm2.
  rewrite (merged_contribution w _ Hgood2') in Hm2.
  split; [exact Hm1 |]. split; [exact Hm2 |].
  rewrite (merged_by_tenant f w _ Hby Hctx Hcl1 Hgood1).
  rewrite (merged_by_tenant f w _ Hby Hctx Hcl2 Hgood2').
  apply Permutation_flat_map.
  rewrite Hperm1, Hperm2, Hr1, Hr2. reflexivity.
Qed.

(** The two tenants of the tests, once answered in the order of the list and
    once the other way round. *)
Lemma GetTenantsRules_same_groups_under_every_schedule_witness :
  exists fin1 fin2,
    GetTenantsRules (twoTenants 200 ruleGroups) None (world []) = Some fin1
    /\ GetTenantsRules (twoTenants 200 ruleGroups) None (world [Launch; Launch; Deliver 1])
       = Some fin2
    /\ returned fin1 = Ok "tenant1.test; tenant1.test2; tenant2.test; tenant2.test2"
    /\ returned fin2 = Ok "tenant2.test; tenant2.test2; tenant1.test; tenant1.test2"
    /\ Permutation (merged (world []) (collected fin1)) (merged (world []) (collected fin2)).
Proof.
  destruct (GetTenantsRules_same_groups_under_every_schedule
              (twoTenants 200 ruleGroups) None None (world []) [Launch; Launch; Deliver 1])
    as (fin1 & fin2 & Hrun1 & Hrun2 & Hsame).
  - intros k k' t. reflexivity.
  - intros k t. exists ContextCanceled. reflexivity.
  - exists fin1, fin2. split; [exact Hrun1 |]. split; [exact Hrun2 |].
    vm_compute in Hrun1. injection Hrun1 as <-.
    vm_compute in Hrun2. injection Hrun2 as <-.
    split; [reflexivity |]. split; [reflexivity |].
    exact (proj2 (proj2 (Hsame _ _ eq_refl eq_refl))).
Defined.

End CycleProperties.

Section StatusBand.

Import Go http fetcher.

(** Go's [code/100 == 2] holds of the codes from 200 to 299 and of no
    other, negative ones included. *)
Lemma idiv_100_is_2 (code : Z) : (idiv code 100 =? 2) = true <-> 200 <= code <= 299.
Proof.
  unfold idiv. rewrite Z.eqb_eq.
  pose proof (Z.quot_rem' code 100) as Hq.
  destruct (Z_lt_le_dec code 0) as [Hneg | Hpos].
  - pose proof (Z.rem_bound_pos_neg code 100 ltac:(lia) ltac:(lia)). lia.
  - pose proof (Z.rem_bound_pos code 100 Hpos ltac:(lia)). lia.
Qed.

(** X12. [GetAllRules] hands over the body of a response exactly when its
    status is from 200 to 299, unread and as it came; a request that failed
    gives "failed to do http request", and any other status, also one below
    zero, gives "got unexpected status". *)
Theorem GetAllRules_hands_over_2xx_bodies :
  forall (res : Response + error),
    (forall body,
        GetAllRules res = inr body
        <-> exists r, res = inl r /\ 200 <= StatusCode r <= 299 /\ Body r = body)
    /\ (forall e,
          GetAllRules res = inl e
          <-> (exists cause, res = inr cause /\ e = FailedHTTPRequest cause)
              \/ (exists r, res = inl r /\ ~ 200 <= StatusCode r <= 299
                            /\ e = UnexpectedStatus (StatusCode r))).
Proof.
  intros res. unfold GetAllRules.
  destruct res as [r | cause].
  - pose proof (idiv_100_is_2 (StatusCode r)) as Hband.
    destruct (idiv (StatusCode r) 100 =? 2); cbn [negb].
    + assert (Hin : 200 <= StatusCode r <= 299) by (apply Hband; reflexivity).
      split.
      * intros body. split.
        -- intros H. inversion H. exists r. auto.
        -- intros (r' & Hr & _ & Hb). inversion Hr; subst. reflexivity.
      * intros e. split; [discriminate |].
        intros [(c & Hc & _) | (r' & Hr & Hout & _)]; [discriminate |].
        inversion Hr; subst. contradiction.
    + assert (Hout : ~ 200 <= StatusCode r <= 299).
      { intros Hin. apply Hband in Hin. discriminate. }
      split.
      * intros body. split; [discriminate |].
        intros (r' & Hr & Hin & _). inversion Hr; subst. contradiction.
      * intros e. split.
        -- intros H. inversion H. right. exists r. auto.
        -- intros [(c & Hc & _) | (r' & Hr & _ & He)]; [discriminate |].
           inversion Hr; subst. reflexivity.
  - split.
    + intros body. split; [discriminate |]. intros (r & Hr & _). discriminate.
    + intros e. split.
      * intros H. inversion H. left. exists cause. auto.
      * intros [(c & Hc & He) | (r & Hr & _)]; [| discriminate].
        inversion Hc; subst. reflexivity.
Qed.

End StatusBand.

Section CollectorVerdict.

Import Go http fetcher.

Variable w : World.

(** The collector returns an error on a result exactly when the result
    surfaces a failure, and the error is that failure's. *)
Lemma failure_surfaces (r : tenantFetchResult) (e : error) :
  failure w r = Some e <-> surfaces w r e.
Proof.
  unfold failure, consume. split.
  - destruct (outcome r) as [res | e0] eqn:Hout.
    + pose proof (idiv_100_is_2 (StatusCode res)) as Hband.
      destruct (idiv (StatusCode res) 100 =? 2); cbn [negb].
      * assert (Hin : 200 <= StatusCode res <= 299) by (apply Hband; reflexivity).
        destruct (Body res) as [body | m] eqn:Hbody.
        -- destruct (Parse w body) as [groups errors] eqn:Hp.
           destruct errors as [| x errors]; [discriminate |].
           cbn [List.length Nat.ltb Nat.leb]. intros H. inversion H.
           replace (x :: errors) with (snd (Parse w body)) by (rewrite Hp; reflexivity).
           eapply DocumentUnparsable; eauto. rewrite Hp. discriminate.
        -- intros H. inversion H. eapply BodyUnreadable; eauto.
      * intros H. inversion H. apply StatusNot2xx; [exact Hout |].
        intros Hin. apply Hband in Hin. discriminate.
    + intros H. inversion H. apply RequestFailed. exact Hout.
  - intros [e0 Hout | res Hout Hcode | res msg Hout Hcode Hbody
            | res body Hout Hcode Hbody Hp]; rewrite Hout.
    + reflexivity.
    + pose proof (idiv_100_is_2 (StatusCode res)) as Hband.
      destruct (idiv (StatusCode res) 100 =? 2); [| reflexivity].
      exfalso. apply Hcode, Hband. reflexivity.
    + apply idiv_100_is_2 in Hcode. rewrite Hcode, Hbody. reflexivity.
    + apply idiv_100_is_2 in Hcode. rewrite Hcode, Hbody. cbn [negb].
      destruct (Parse w body) as [groups errors]. cbn [snd] in *.
      destruct errors as [| x errors]; [contradiction | reflexivity].
Qed.

(** It goes on exactly when the result surfaces none. *)
Lemma failure_none (r : tenantFetchResult) :
  failure w r = None <-> forall e, ~ surfaces w r e.
Proof.
  split.
  - intros Hnone e He. apply failure_surfaces in He. congruence.
  - intros Hno. destruct (failure w r) as [e |] eqn:E; [| reflexivity].
    apply failure_surfaces in E. contradiction (Hno e E).
Qed.

Lemma Forall_failure_none (l : list tenantFetchResult) :
  Forall (fun r => failure w r = None) l
  <-> Forall (fun r => forall e, ~ surfaces w r e) l.
Proof.
  split; intros H; eapply Forall_impl; try exact H;
    intros r Hr; apply failure_none; exact Hr.
Qed.

End CollectorVerdict.

Section AllOrNothing.

Import Go http fetcher.

(** X23. Whatever the schedule of its goroutines, the client, the moment of a
    cancellation and what other goroutines write to the fetcher between the
    launcher's copy and its loop, a cycle returns, and it returns either a
    document or an error, never a part of a document.  It returns a document
    only when a result of every tenant the launcher went over is in and none
    of them surfaces a failure (a request error, a status outside 200 to 299,
    a body that cannot be read, a parse error), and the document is then the
    encoding of the merged groups of all of them.  Otherwise it returns an
    error: the failure of the last result the collector took in, or the
    encoder's.  Any failure among the results taken in is the error
    returned. *)
Theorem GetTenantsRules_all_or_nothing :
  forall (meanwhile : RulesObjtoreFetcher -> RulesObjtoreFetcher)
         (f : RulesObjtoreFetcher) (ctx0 : Context) (w : World),
    exists fin,
      cycle meanwhile f ctx0 w = Some fin
      /\ snapshot fin = tenants f
      /\ ranged fin = tenants (meanwhile f)
      /\ match returned fin with
         | Ok data =>
             Permutation (map tenant (collected fin)) (ranged fin)
             /\ Forall (fun r => forall e, ~ surfaces w r e) (collected fin)
             /\ Forall (fromClient (meanwhile f)) (collected fin)
             /\ Marshal w (merged w (collected fin)) = inl data
         | Err e =>
             (exists good bad,
                 collected fin = (good ++ [bad])%list
                 /\ Forall (fun r => forall e', ~ surfaces w r e') good
                 /\ surfaces w bad e)
             \/ (exists msg,
                    e = FailedMarshal msg
                    /\ Permutation (map tenant (collected fin)) (ranged fin)
                    /\ Forall (fun r => forall e', ~ surfaces w r e') (collected fin)
                    /\ Marshal w (merged w (collected fin)) = inr msg)
         end
      /\ (forall r e,
             In r (collected fin) -> surfaces w r e -> returned fin = Err e).
Proof.
  intros meanwhile f ctx0 w.
  destruct (cycle_outcome meanwhile f ctx0 w)
    as (fin & Hrun & Hsnap & Hranged & _ & Hret).
  exists fin. split; [exact Hrun |]. split; [exact Hsnap |]. split; [exact Hranged |].
  destruct (returned fin) as [data | e].
  - destruct Hret as (Hperm & Hgood & Hcl & Hm).
    rewrite (merged_contribution w _ Hgood) in Hm.
    split.
    + split; [exact Hperm |]. split; [apply Forall_failure_none; exact Hgood |].
      split; [exact Hcl | exact Hm].
    + intros r e Hin He. apply failure_surfaces in He.
      eapply Forall_forall in Hgood; [| exact Hin]. congruence.
  - split.
    + destruct Hret as [(good & bad & Hc & Hgood & Hbad)
                       | (msg & He & Hperm & Hgood & _ & Hm)].
      * left. exists good, bad. split; [exact Hc |].
        split; [apply Forall_failure_none; exact Hgood |].
        apply failure_surfaces. exact Hbad.
      * right. exists msg. rewrite (merged_contribution w _ Hgood) in Hm.
        split; [exact He |]. split; [exact Hperm |].
        split; [apply Forall_failure_none; exact Hgood | exact Hm].
    + intros r e' Hin He'. apply failure_surfaces in He'.
      destruct Hret as [(good & bad & Hc & Hgood & Hbad) | (msg & _ & _ & Hgood & _)].
      * rewrite Hc in Hin. apply in_app_or in Hin as [Hin | [<- | []]].
        -- eapply Forall_forall in Hgood; [| exact Hin]. congruence.
        -- congruence.
      * eapply Forall_forall in Hgood; [| exact Hin]. congruence.
Qed.

End AllOrNothing.

(** * The tenants file *)

Section TenantsFileFacts.

Import Go tenant.

Lemma existsb_eqb_In (t : string) (l : list string) :
  existsb (String.eqb t) l = true <-> In t l.
Proof.
  rewrite existsb_exists. split.
  - intros (x & Hx & Heq). apply String.eqb_eq in Heq. subst. exact Hx.
  - intros Hin. exists t. split; [exact Hin | apply String.eqb_refl].
Qed.

(** The loop of lines 105-114: the map ends up holding the names that are
    not empty, each once, beside what it held before. *)
Lemma dedup_loop (names : list string) :
  forall (tenantsSet duplicates tenantsSet' duplicates' : list string),
    fold_left dedup names (tenantsSet, duplicates) = (tenantsSet', duplicates') ->
    NoDup tenantsSet -> ~ In "" tenantsSet ->
    NoDup tenantsSet'
    /\ ~ In "" tenantsSet'
    /\ (forall t, In t tenantsSet' <-> In t tenantsSet \/ (t <> "" /\ In t names)).
Proof.
  induction names as [| name names IH];
    intros tenantsSet duplicates tenantsSet' duplicates' Hfold Hnd Hne.
  - cbn in Hfold. inversion Hfold; subst.
    split; [exact Hnd |]. split; [exact Hne |]. intros t. cbn [In]. tauto.
  - cbn [fold_left dedup] in Hfold.
    destruct (String.eqb_spec name "") as [-> | Hname]; cbn [negb] in Hfold.
    + apply IH in Hfold as (H1 & H2 & H3); [| exact Hnd | exact Hne].
      split; [exact H1 |]. split; [exact H2 |].
      intros t. rewrite H3. cbn [In]. intuition congruence.
    + destruct (existsb (String.eqb name) tenantsSet) eqn:Hseen.
      * apply existsb_eqb_In in Hseen.
        apply IH in Hfold as (H1 & H2 & H3); [| exact Hnd | exact Hne].
        split; [exact H1 |]. split; [exact H2 |].
        intros t. rewrite H3. cbn [In]. intuition (subst; auto).
      * assert (Hnew : ~ In name tenantsSet).
        { intros Hin. apply existsb_eqb_In in Hin. congruence. }
        apply IH in Hfold as (H1 & H2 & H3).
        -- split; [exact H1 |]. split; [exact H2 |].
           intros t. rewrite H3, in_app_iff. cbn [In].
           intuition (subst; auto).
        -- apply NoDup_app; [exact Hnd | repeat constructor; intros [] |].
           intros a Ha [<- | []]. contradiction.
        -- rewrite in_app_iff. cbn [In]. intuition congruence.
Qed.

Lemma Permutation_in_iff {A} (x : A) (l l' : list A) :
  Permutation l l' -> (In x l <-> In x l').
Proof.
  intros Hp. split; apply Permutation_in; [exact Hp | symmetry; exact Hp].
Qed.

Lemma length_zero_nil {A} (l : list A) : (List.length l =? 0)%nat = true <-> l = [].
Proof.
  destruct l; cbn; split; intros H; try reflexivity; discriminate.
Qed.

Lemma string_length_zero (s : string) : (String.length s =? 0)%nat = true <-> s = "".
Proof.
  destruct s; cbn; split; intros H; try reflexivity; discriminate.
Qed.

(** What [scanFile] returns, in terms of the map it built. *)
Lemma scanFile_cases (y : Decoder) (f : string) :
  (f = "" /\ scanFile y f = ([], inl NoTenantsFound))
  \/ (f <> "" /\ exists cause,
        Unmarshal y f = inl cause /\ scanFile y f = ([], inl (FailedUnmarshal cause)))
  \/ (f <> "" /\ exists cfg,
        Unmarshal y f = inr cfg /\ Tenants cfg = []
        /\ scanFile y f = ([], inl NoTenantsFound))
  \/ (f <> "" /\ exists cfg tenantsSet duplicates,
        Unmarshal y f = inr cfg /\ Tenants cfg <> []
        /\ fold_left dedup (map Name (Tenants cfg)) ([], []) = (tenantsSet, duplicates)
        /\ scanFile y f = (duplicates, inr (rangeOrder y tenantsSet))).
Proof.
  unfold scanFile.
  destruct (String.length f =? 0)%nat eqn:Hlen.
  - left. apply string_length_zero in Hlen. auto.
  - right.
    assert (Hf : f <> "") by (intros ->; discriminate).
    destruct (Unmarshal y f) as [cause | cfg].
    + left. split; [exact Hf |]. exists cause. auto.
    + right. destruct (List.length (map Name (Tenants cfg)) =? 0)%nat eqn:Hn.
      * left. split; [exact Hf |]. exists cfg. split; [reflexivity |].
        apply length_zero_nil in Hn. apply map_eq_nil in Hn. auto.
      * right. split; [exact Hf |].
        destruct (fold_left dedup _ _) as [tenantsSet duplicates] eqn:Hfold.
        exists cfg, tenantsSet, duplicates. split; [reflexivity |].
        split; [| auto].
        intros Hnil. rewrite Hnil in Hn. discriminate.
Qed.

End TenantsFileFacts.

Section TenantsFileProperties.

Import Go tenant Scenarios.

(** X13. What [scanFile] returns without an error is the set of the names of
    the file that are not empty: every such name once, no other, in the order
    in which the map happens to be gone over. *)
Theorem scanFile_returns_each_name_once :
  forall (y : Decoder) (f : string) (tenants : list string),
    visitsEveryKeyOnce y ->
    snd (scanFile y f) = inr tenants ->
    exists cfg,
      Unmarshal y f = inr cfg
      /\ NoDup tenants
      /\ (forall t, In t tenants <-> t <> "" /\ In t (map Name (Tenants cfg))).
Proof.
  intros y f tenants Hrange Hscan.
  destruct (scanFile_cases y f)
    as [[_ H] | [(_ & c & _ & H) | [(_ & cfg & _ & _ & H)
                                   | (_ & cfg & tenantsSet & dups & Hy & _ & Hfold & H)]]];
    rewrite H in Hscan; cbn [snd] in Hscan; try discriminate.
  inversion Hscan; subst tenants. exists cfg. split; [exact Hy |].
  apply dedup_loop in Hfold as (Hnd & _ & Hmem); [| constructor | intros []].
  split.
  - eapply Permutation_NoDup; [symmetry; apply Hrange | exact Hnd].
  - intros t. rewrite (Permutation_in_iff t _ _ (Hrange tenantsSet)), Hmem.
    cbn [In]. tauto.
Qed.

(** The case "multiple tenants with duplicates" of the tests. *)
Lemma scanFile_returns_each_name_once_witness :
  snd (scanFile testDecoder "tenants: [{name: tenant1}, {name: tenant1}, {name: tenant2}]")
  = inr ["tenant2"; "tenant1"]
  /\ NoDup ["tenant2"; "tenant1"].
Proof.
  split; [reflexivity |].
  destruct (scanFile_returns_each_name_once testDecoder
              "tenants: [{name: tenant1}, {name: tenant1}, {name: tenant2}]"
              ["tenant2"; "tenant1"])
    as (cfg & _ & Hnd & _).
  - intros keys. symmetry. apply Permutation_rev.
  - reflexivity.
  - exact Hnd.
Defined.

(** X14. [scanFile] fails with "no tenants found in file" exactly when the
    file is empty or its [tenants] list decodes to no entry, with "failed to
    unmarshal tenants file" exactly when the file is not empty and the decoder
    fails, and with no other error. *)
Theorem scanFile_fails_exactly_when :
  forall (y : Decoder) (f : string),
    (snd (scanFile y f) = inl NoTenantsFound
     <-> f = "" \/ exists cfg, Unmarshal y f = inr cfg /\ Tenants cfg = [])
    /\ (forall cause,
          snd (scanFile y f) = inl (FailedUnmarshal cause)
          <-> f <> "" /\ Unmarshal y f = inl cause)
    /\ (forall e, snd (scanFile y f) = inl e ->
          e = NoTenantsFound \/ exists cause, e = FailedUnmarshal cause).
Proof.
  intros y f.
  destruct (scanFile_cases y f)
    as [[Hf H] | [(Hf & c & Hy & H) | [(Hf & cfg & Hy & Hnil & H)
                                      | (Hf & cfg & tenantsSet & dups & Hy & Hsome & _ & H)]]];
    rewrite H; cbn [snd]; (split; [| split]).
  - tauto.
  - intros cause. split; [discriminate | tauto].
  - intros e He. inversion He. auto.
  - split; [discriminate |].
    intros [-> | (cfg & Hcfg & _)]; [contradiction | congruence].
  - intros cause. split.
    + intros He. inversion He; subst. auto.
    + intros [_ Hc]. congruence.
  - intros e He. inversion He. eauto.
  - split; [intros _; right; eauto | reflexivity].
  - intros cause. split; [discriminate | intros [_ Hc]; congruence].
  - intros e He. inversion He. auto.
  - split; [discriminate |].
    intros [-> | (cfg' & Hcfg & Hnil)]; [contradiction | congruence].
  - intros cause. split; [discriminate | intros [_ Hc]; congruence].
  - intros e He. discriminate.
Qed.

(** X15. [scanFile] returns an empty list and no error exactly when the file
    decodes to one or more tenants whose names are all empty: the check for
    "no tenants found" is made before the empty names are dropped. *)
Theorem scanFile_nameless_tenants_give_empty_list :
  forall (y : Decoder) (f : string),
    visitsEveryKeyOnce y ->
    (snd (scanFile y f) = inr []
     <-> f <> ""
         /\ exists cfg, Unmarshal y f = inr cfg /\ Tenants cfg <> []
                        /\ Forall (fun t => Name t = "") (Tenants cfg)).
Proof.
  intros y f Hrange.
  destruct (scanFile_cases y f)
    as [[Hf H] | [(Hf & c & Hy & H) | [(Hf & cfg & Hy & Hnil & H)
                                      | (Hf & cfg & tenantsSet & dups & Hy & Hsome & Hfold & H)]]];
    rewrite H; cbn [snd].
  - split; [discriminate | tauto].
  - split; [discriminate | intros (_ & cfg & Hc & _); congruence].
  - split; [discriminate | intros (_ & cfg' & Hc & Hne & _); congruence].
  - apply dedup_loop in Hfold as (_ & _ & Hmem); [| constructor | intros []].
    split.
    + intros Hempty. split; [exact Hf |]. exists cfg.
      split; [exact Hy |]. split; [exact Hsome |].
      assert (Hset : tenantsSet = []).
      { assert (Hr : rangeOrder y tenantsSet = []) by congruence.
        apply Permutation_nil. rewrite <- Hr. apply Hrange. }
      subst tenantsSet. rewrite Forall_forall. intros t Ht.
      destruct (String.eqb_spec (Name t) "") as [E | E]; [exact E |].
      exfalso. apply (proj2 (Hmem (Name t))).
      right. split; [exact E | apply in_map; exact Ht].
    + intros (_ & cfg' & Hc & _ & Hall).
      assert (cfg' = cfg) by congruence. subst cfg'.
      assert (Hset : tenantsSet = []).
      { destruct tenantsSet as [| t l]; [reflexivity |]. exfalso.
        destruct (proj1 (Hmem t) (or_introl eq_refl)) as [[] | [Hne Hin]].
        apply in_map_iff in Hin as (tc & <- & Htc).
        rewrite Forall_forall in Hall. apply Hne, Hall, Htc. }
      subst tenantsSet. f_equal. apply Permutation_nil. symmetry. apply Hrange.
Qed.

(** A file whose one tenant has no name. *)
Lemma scanFile_nameless_tenants_give_empty_list_witness :
  snd (scanFile testDecoder "tenants: [{name: }]") = inr [].
Proof.
  apply (scanFile_nameless_tenants_give_empty_list testDecoder "tenants: [{name: }]").
  - intros keys. symmetry. apply Permutation_rev.
  - split; [discriminate |].
    exists {| Tenants := [{| Name := "" |}] |}.
    split; [reflexivity |]. split; [discriminate | repeat constructor].
Defined.

(** X16. The [scanFile] of the line-based tenants file never returns an
    empty list: what it returns without an error is the set of the lines that
    are not empty, and there is one at least; it fails with "no tenants found
    in file" exactly when the scanner ends without an error and every line is
    empty. *)
Theorem scanFile_of_lines_never_returns_an_empty_list :
  forall (rangeOrder : list string -> list string) (lines : list string)
         (scanErr : option string),
    (forall keys, Permutation (rangeOrder keys) keys) ->
    (forall tenants,
        snd (tenantLines.scanFile rangeOrder lines scanErr) = inr tenants ->
        tenants <> []
        /\ NoDup tenants
        /\ (forall t, In t tenants <-> t <> "" /\ In t lines))
    /\ (snd (tenantLines.scanFile rangeOrder lines scanErr) = inl NoTenantsFound
        <-> scanErr = None /\ Forall (fun line => line = "") lines).
Proof.
  intros rangeOrder lines scanErr Hrange.
  unfold tenantLines.scanFile.
  destruct scanErr as [cause |]; cbn [snd].
  - split; [intros tenants H; discriminate |].
    split; [discriminate | intros [H _]; discriminate].
  - destruct (fold_left dedup lines ([], [])) as [tenantsSet duplicates] eqn:Hfold.
    apply dedup_loop in Hfold as (Hnd & _ & Hmem); [| constructor | intros []].
    destruct (List.length (rangeOrder tenantsSet) =? 0)%nat eqn:Hlen; cbn [snd].
    + apply length_zero_nil in Hlen.
      assert (Hset : tenantsSet = []).
      { apply Permutation_nil. rewrite <- Hlen. apply Hrange. }
      subst tenantsSet.
      split; [intros tenants H; discriminate |].
      split; [intros _ | reflexivity]. split; [reflexivity |].
      rewrite Forall_forall. intros line Hline.
      destruct (String.eqb_spec line "") as [E | E]; [exact E |].
      exfalso. apply (proj2 (Hmem line)). right. auto.
    + split.
      * intros tenants H. inversion H; subst tenants.
        split; [intros Hnil; rewrite Hnil in Hlen; discriminate |].
        split; [eapply Permutation_NoDup; [symmetry; apply Hrange | exact Hnd] |].
        intros t. rewrite (Permutation_in_iff t _ _ (Hrange tenantsSet)), Hmem.
        cbn [In]. tauto.
      * split; [discriminate |]. intros [_ Hall]. exfalso.
        destruct (rangeOrder tenantsSet) as [| t l] eqn:Hr; [discriminate |].
        assert (Hin : In t tenantsSet).
        { apply (Permutation_in t (Hrange tenantsSet)). rewrite Hr. left. reflexivity. }
        apply Hmem in Hin as [[] | [Hne Hin]].
        rewrite Forall_forall in Hall. apply Hne, Hall, Hin.
Qed.

(** Lines with a duplicate and an empty line, and a file of empty lines. *)
Lemma scanFile_of_lines_never_returns_an_empty_list_witness :
  snd (tenantLines.scanFile (@rev string) ["tenant1"; ""; "tenant1"; "tenant2"] None)
  = inr ["tenant2"; "tenant1"]
  /\ snd (tenantLines.scanFile (@rev string) [""; ""] None) = inl NoTenantsFound.
Proof.
  split; [reflexivity |].
  apply (proj2 (scanFile_of_lines_never_returns_an_empty_list (@rev string) [""; ""] None
                  (fun keys => Permutation_sym (Permutation_rev keys)))).
  split; [reflexivity | repeat constructor].
Defined.

End TenantsFileProperties.

Section ReloadedTenants.

Import Go tenant Scenarios.

(** What a scan returns has no name twice and no empty name. *)
Lemma scanFile_clean (y : Decoder) (f : string) (tenants : list string) :
  visitsEveryKeyOnce y ->
  snd (scanFile y f) = inr tenants ->
  NoDup tenants /\ ~ In "" tenants.
Proof.
  intros Hrange Hscan.
  destruct (scanFile_cases y f)
    as [[_ H] | [(_ & c & _ & H) | [(_ & cfg & _ & _ & H)
                                   | (_ & cfg & tenantsSet & dups & _ & _ & Hfold & H)]]];
    rewrite H in Hscan; cbn [snd] in Hscan; try discriminate.
  inversion Hscan; subst tenants.
  apply dedup_loop in Hfold as (Hnd & Hne & _); [| constructor | intros []].
  split.
  - eapply Permutation_NoDup; [symmetry; apply Hrange | exact Hnd].
  - intros Hin. apply Hne. eapply Permutation_in; [apply Hrange | exact Hin].
Qed.

(** Run on a fetcher, the loop leaves the client alone, and the tenants are
    the fetcher's own or those of a good read. *)
Lemma reload_fetcher (events : list Event) :
  forall (n : Z) (f f' : fetcher.RulesObjtoreFetcher),
    leftWith (reload events n f) = Some f' ->
    fetcher.client f' = fetcher.client f
    /\ (fetcher.tenants f' = fetcher.tenants f
        \/ In (Tick (inr (fetcher.tenants f'))) events).
Proof.
  induction events as [| ev events IH]; intros n f f' Hrun.
  - inversion Hrun; subst. auto.
  - destruct ev as [[e | tenants] |]; cbn [reload] in Hrun.
    + destruct (3 <=? uintInc n).
      * inversion Hrun; subst. auto.
      * apply IH in Hrun as [Hc [Ht | Ht]]; [auto | split; [exact Hc |]].
        right. right. exact Ht.
    + apply IH in Hrun as [Hc [Ht | Ht]]; cbn in Hc, Ht.
      * split; [exact Hc |]. right. left. rewrite Ht. reflexivity.
      * split; [exact Hc |]. right. right. exact Ht.
    + inversion Hrun; subst. auto.
Qed.

(** X17. Run on a fetcher with [readTenantsFile] as its reader, the reloader
    never touches the fetcher's client, and the tenants it leaves are the
    fetcher's own or what [scanFile] returned for the file at one of the
    ticks: a list with no name twice and no empty name. *)
Theorem newTenantsFileReloader_installs_scanned_lists :
  forall (y : Decoder) (wakes : list Wake) (interval : Duration)
         (f f' : fetcher.RulesObjtoreFetcher),
    visitsEveryKeyOnce y ->
    leftWith (newTenantsFileReloader (map (eventOf y) wakes) interval f) = Some f' ->
    fetcher.client f' = fetcher.client f
    /\ (fetcher.tenants f' = fetcher.tenants f
        \/ exists fileData,
             In (FileTick (FileData fileData)) wakes
             /\ snd (scanFile y fileData) = inr (fetcher.tenants f')
             /\ NoDup (fetcher.tenants f')
             /\ ~ In "" (fetcher.tenants f')).
Proof.
  intros y wakes interval f f' Hrange Hrun.
  unfold newTenantsFileReloader in Hrun.
  destruct (Z.min interval (1 * Minute) <=? 0); [discriminate |].
  apply reload_fetcher in Hrun as [Hc [Ht | Ht]]; [auto | split; [exact Hc |]].
  right. apply in_map_iff in Ht as (wk & Hev & Hwk).
  destruct wk as [file |]; [| discriminate].
  cbn [eventOf] in Hev.
  destruct file as [cause | cause | fileData]; cbn [readTenantsFile snd] in Hev;
    try discriminate.
  destruct (snd (scanFile y fileData)) as [e | tenants] eqn:Hscan; [discriminate |].
  inversion Hev; subst tenants.
  exists fileData. split; [exact Hwk |]. split; [exact Hscan |].
  apply (scanFile_clean y fileData); assumption.
Qed.

(** A file that is missing, then lists a tenant twice, then lists none, and
    the end of the context. *)
Lemma newTenantsFileReloader_installs_scanned_lists_witness :
  exists f',
    leftWith (newTenantsFileReloader
                (map (eventOf testDecoder)
                   [FileTick (OpenFails "no such file");
                    FileTick (FileData "tenants: [{name: tenant1}, {name: tenant1}, {name: tenant2}]");
                    FileTick (FileData "tenants: []");
                    CtxDone])
                Second (twoTenants 200 ruleGroups)) = Some f'
    /\ fetcher.tenants f' = ["tenant2"; "tenant1"]
    /\ NoDup (fetcher.tenants f').
Proof.
  eexists. split; [reflexivity |]. split; [reflexivity |].
  destruct (newTenantsFileReloader_installs_scanned_lists testDecoder
              [FileTick (OpenFails "no such file");
               FileTick (FileData "tenants: [{name: tenant1}, {name: tenant1}, {name: tenant2}]");
               FileTick (FileData "tenants: []");
               CtxDone]
              Second (twoTenants 200 ruleGroups) _
              (fun keys => Permutation_sym (Permutation_rev keys)) eq_refl)
    as [_ [Hsame | (fileData & _ & _ & Hnd & _)]].
  - discriminate Hsame.
  - exact Hnd.
Defined.

End ReloadedTenants.

(** * What main.go starts *)

Section Startup.

Import Go syncer Scenarios.

Ltac cases H :=
  repeat match type of H with
         | context [if ?b then _ else _] => destruct b eqn:?
         | context [match ?x with _ => _ end] => destruct x eqn:?
         end.

(** [NewRulesObjtoreFetcher] hands the tenants it is given to the fetcher. *)
Lemma NewRulesObjtoreFetcher_tenants (h : Host) (baseURL : string) (l : list string)
  (rof : fetcher.RulesObjtoreFetcher) :
  NewRulesObjtoreFetcher h baseURL l = inr rof -> fetcher.tenants rof = l.
Proof.
  unfold NewRulesObjtoreFetcher.
  destruct (Parse h baseURL); [discriminate |].
  destruct (NewClient h baseURL); [discriminate |].
  intros H. inversion H. reflexivity.
Qed.

(** What [configureRulesObjtoreFetcher] puts into the fetcher. *)
Lemma configureRulesObjtoreFetcher_tenants (cfg : config) (h : Host)
  (rof : fetcher.RulesObjtoreFetcher) :
  configureRulesObjtoreFetcher cfg h = inr rof ->
  (tenantsFile cfg <> "" /\ tenant cfg = ""
   /\ readTenantsFile h (tenantsFile cfg) = inr (fetcher.tenants rof))
  \/ (tenantsFile cfg = "" /\ tenant cfg <> "" /\ fetcher.tenants rof = [tenant cfg])
  \/ (tenantsFile cfg = "" /\ tenant cfg = "" /\ fetcher.tenants rof = []).
Proof.
  unfold configureRulesObjtoreFetcher. intros H.
  destruct (String.eqb_spec (tenantsFile cfg) "") as [Ef | Ef];
    destruct (String.eqb_spec (tenant cfg) "") as [Et | Et];
    cbn [negb andb] in H; try discriminate.
  - right. right.
    destruct (NewRulesObjtoreFetcher h _ _) as [cause | rof'] eqn:E; [discriminate |].
    inversion H; subst rof'. apply NewRulesObjtoreFetcher_tenants in E. auto.
  - right. left.
    destruct (NewRulesObjtoreFetcher h _ _) as [cause | rof'] eqn:E; [discriminate |].
    inversion H; subst rof'. apply NewRulesObjtoreFetcher_tenants in E. auto.
  - left.
    destruct (readTenantsFile h (tenantsFile cfg)) as [cause | l]; [discriminate |].
    destruct (NewRulesObjtoreFetcher h _ _) as [cause | rof'] eqn:E; [discriminate |].
    inversion H; subst rof'. apply NewRulesObjtoreFetcher_tenants in E.
    rewrite E. auto.
Qed.

(** X18. [main] adds the tenants reloader only when the rules backend is used
    without [-tenant]; the tenants setter is then the fetcher built from the
    tenants file, and the rules are fetched with [GetAllRules], which does not
    look at the tenants. *)
Theorem main_reloads_tenants_only_beside_GetAllRules :
  forall (cfg : config) (h : Host) (g : Group),
    main cfg h = Running g ->
    reloader g <> None ->
    exists rof,
      f g = GetAllRulesOf rof
      /\ tenset g = Some rof
      /\ tenant cfg = ""
      /\ readTenantsFile h (tenantsFile cfg) = inr (fetcher.tenants rof)
      /\ reloader g = Some (seconds (interval cfg)).
Proof.
  intros cfg h g Hmain Hreload. unfold main in Hmain.
  destruct (whenSet (observatoriumCA cfg) (ReadFile h)); [discriminate |].
  destruct (whenSet (issuerURL (oidc cfg)) (NewProvider h)); [discriminate |].
  destruct (String.eqb_spec (tenantsFile cfg) "") as [Ef | Ef]; cbn [negb orb] in Hmain.
  - exfalso. cases Hmain; try discriminate; inversion Hmain; subst g;
      apply Hreload; reflexivity.
  - destruct (negb (String.eqb (rulesBackendURL cfg) "")).
    + destruct (configureRulesObjtoreFetcher cfg h) as [msg | rof] eqn:Hcfg;
        [discriminate |].
      apply configureRulesObjtoreFetcher_tenants in Hcfg
        as [(_ & Et & Hread) | [(E & _) | (E & _)]]; try contradiction.
      rewrite Et in Hmain. cbn in Hmain. inversion Hmain; subst g.
      exists rof. cbn. auto.
    + destruct (negb (String.eqb (observatoriumURL cfg) "")); discriminate.
Qed.

(** A rules backend with [-tenants-file tenants.yaml]. *)
Lemma main_reloads_tenants_only_beside_GetAllRules_witness :
  exists g rof,
    main (backendFlags "" "tenants.yaml") quietHost = Running g
    /\ f g = GetAllRulesOf rof
    /\ fetcher.tenants rof = ["tenant1"; "tenant2"]
    /\ reloader g = Some (60 * Second).
Proof.
  eexists.
  destruct (main_reloads_tenants_only_beside_GetAllRules
              (backendFlags "" "tenants.yaml") quietHost _ eq_refl)
    as (rof & Hf & _ & _ & Hread & Hr).
  - discriminate.
  - exists rof. split; [reflexivity |]. split; [exact Hf |].
    split; [| exact Hr].
    cbn in Hread. inversion Hread. reflexivity.
Defined.

(** X19. [main] fetches with [GetTenantsRules] only when [-tenant] is given
    (and [-tenants-file] is not): the fetcher's list is that one tenant, and
    no reloader is added that could change it. *)
Theorem main_fetches_per_tenant_for_one_tenant_only :
  forall (cfg : config) (h : Host) (g : Group) (rof : fetcher.RulesObjtoreFetcher),
    main cfg h = Running g ->
    f g = GetTenantsRulesOf rof ->
    fetcher.tenants rof = [tenant cfg]
    /\ tenant cfg <> ""
    /\ tenantsFile cfg = ""
    /\ tenset g = Some rof
    /\ reloader g = None.
Proof.
  intros cfg h g rof Hmain Hf. unfold main in Hmain.
  destruct (whenSet (observatoriumCA cfg) (ReadFile h)); [discriminate |].
  destruct (whenSet (issuerURL (oidc cfg)) (NewProvider h)); [discriminate |].
  destruct (negb (String.eqb (rulesBackendURL cfg) "")).
  - destruct (configureRulesObjtoreFetcher cfg h) as [msg | rof'] eqn:Hcfg;
      [discriminate |].
    destruct (0 <? String.length (tenant cfg))%nat eqn:Hlen;
      inversion Hmain; subst g; cbn in Hf; [| discriminate].
    inversion Hf; subst rof'.
    apply configureRulesObjtoreFetcher_tenants in Hcfg
      as [(_ & Et & _) | [(Ef & Et & Hl) | (_ & Et & _)]].
    + rewrite Et in Hlen. discriminate.
    + cbn. rewrite Ef. cbn. auto.
    + rewrite Et in Hlen. discriminate.
  - cases Hmain; try discriminate; inversion Hmain; subst g; discriminate.
Qed.

(** A rules backend with [-tenant tenant1]. *)
Lemma main_fetches_per_tenant_for_one_tenant_only_witness :
  exists g rof,
    main (backendFlags "tenant1" "") quietHost = Running g
    /\ f g = GetTenantsRulesOf rof
    /\ fetcher.tenants rof = ["tenant1"]
    /\ reloader g = None.
Proof.
  eexists. eexists. split; [reflexivity |]. split; [reflexivity |].
  destruct (main_fetches_per_tenant_for_one_tenant_only
              (backendFlags "tenant1" "") quietHost _ _ eq_refl eq_refl)
    as (Ht & _ & _ & _ & Hr).
  split; [exact Ht | exact Hr].
Defined.

End Startup.

Section SyncLoop.

Import Go syncer Scenarios.

Lemma fn_GetRules (r : Round) : count_occ Call_eq_dec (fst (fn r)) GetRules = 1%nat.
Proof.
  unfold fn.
  destruct (getRules r); [reflexivity |].
  destruct (create r); [reflexivity |].
  destruct (readFrom r); [reflexivity |].
  destruct (closeFile r); reflexivity.
Qed.

Lemma fn_Reload (r : Round) :
  count_occ Call_eq_dec (fst (fn r)) Reload = if written r then 1%nat else 0%nat.
Proof.
  unfold fn, written.
  destruct (getRules r); [reflexivity |].
  destruct (create r); [reflexivity |].
  destruct (readFrom r); [reflexivity |].
  destruct (closeFile r); reflexivity.
Qed.

Lemma round_made (c : Call) (r : Round) (took : option Duration) (st : Synced) :
  made c (round r took st) = (made c st + count_occ Call_eq_dec (fst (fn r)) c)%nat.
Proof.
  unfold made, round. destruct (fn r) as [l err]. cbn [calls fst].
  apply count_occ_app.
Qed.

Lemma syncLoop_made (c : Call) (beats : list Beat) :
  forall st,
    made c (done (syncLoop beats st))
    = (made c st
       + list_sum (map (fun r => count_occ Call_eq_dec (fst (fn r)) c) (ticked beats)))%nat.
Proof.
  induction beats as [| b beats IH]; intros st.
  - cbn. lia.
  - destruct b as [r took |]; [| cbn; lia].
    cbn [syncLoop ticked map]. rewrite IH, round_made.
    change (list_sum (?x :: ?l)) with (x + list_sum l)%nat. lia.
Qed.

Lemma syncLoop_returns (beats : list Beat) :
  forall st,
    (forall err st', syncLoop beats st = SyncReturns err st' ->
       err = None /\ In SyncDone beats)
    /\ (In SyncDone beats -> exists st', syncLoop beats st = SyncReturns None st')
    /\ (forall st', syncLoop beats st <> SyncPanics st').
Proof.
  induction beats as [| b beats IH]; intros st; cbn [syncLoop In].
  - split; [intros err st' H; discriminate |]. split; [intros [] | discriminate].
  - destruct b as [r took |].
    + destruct (IH (round r (Some took) st)) as (H1 & H2 & H3).
      split; [intros err st' H; apply H1 in H; tauto |].
      split; [| exact H3].
      intros [H | H]; [discriminate | auto].
    + split; [intros err st' H; inversion H; auto |].
      split; [eauto | discriminate].
Qed.

Lemma syncLoop_gauge (beats : list Beat) :
  forall st d,
    gauge (done (syncLoop beats st)) = Some d ->
    gauge st = Some d
    \/ exists r, In (SyncTick r d) beats /\ snd (fn r) = None.
Proof.
  induction beats as [| b beats IH]; intros st d H; cbn [syncLoop done] in H.
  - auto.
  - destruct b as [r took |]; cbn [syncLoop done] in H; [| auto].
    apply IH in H as [H | (r' & Hin & Hok)].
    + unfold round in H. destruct (fn r) as [l err] eqn:E. cbn [gauge] in H.
      destruct err; [auto |].
      inversion H; subst. right. exists r. rewrite E. split; [left |]; reflexivity.
    + right. exists r'. split; [right; exact Hin | exact Hok].
Qed.

Lemma seconds_small (n : Z) : 0 <= n <= 9223372036 -> seconds n = n * Second.
Proof.
  intros Hn. unfold seconds, wrap64.
  change (2 ^ 63) with 9223372036854775808.
  change (2 ^ 64) with 18446744073709551616.
  change Second with 1000000000.
  rewrite (Z.mod_small (n + _)) by lia.
  replace (n + 9223372036854775808 - 9223372036854775808) with n by lia.
  rewrite Z.mod_small by lia. lia.
Qed.

Lemma list_sum_filter {A} (p : A -> bool) (l : list A) :
  list_sum (map (fun x => if p x then 1%nat else 0%nat) l) = List.length (filter p l).
Proof.
  induction l as [| x l IH]; [reflexivity |].
  cbn [map filter]. change (list_sum (?y :: ?l')) with (y + list_sum l')%nat.
  destruct (p x); cbn [List.length]; lia.
Qed.

Lemma list_sum_ones {A} (l : list A) :
  list_sum (map (fun _ => 1%nat) l) = List.length l.
Proof.
  induction l as [| x l IH]; [reflexivity |].
  cbn [map List.length]. change (list_sum (?y :: ?l')) with (y + list_sum l')%nat.
  lia.
Qed.

(** X20. With an [-interval] from 1 to 9223372036 seconds the sync loop
    never panics and no failure ends it: one round runs before the loop and one
    on every tick taken before the end of the context, whatever failed
    before; the ruler is asked to reload once for each round in which the
    rules were fetched and the file created, written and closed; the loop
    returns only nil, and only by taking the end of the context; and the gauge
    is set only by a round that a tick started and that met no error. *)
Theorem sync_runs_a_round_on_every_tick :
  forall (cfg : config) (first : Round) (beats : list Beat),
    1 <= interval cfg <= 9223372036 ->
    made GetRules (done (sync cfg first beats)) = S (List.length (ticked beats))
    /\ made Reload (done (sync cfg first beats))
       = List.length (filter written (first :: ticked beats))
    /\ (forall err st, sync cfg first beats = SyncReturns err st ->
          err = None /\ In SyncDone beats)
    /\ (In SyncDone beats -> exists st, sync cfg first beats = SyncReturns None st)
    /\ (forall st, sync cfg first beats <> SyncPanics st)
    /\ (forall d, gauge (done (sync cfg first beats)) = Some d ->
          exists r, In (SyncTick r d) beats /\ snd (fn r) = None).
Proof.
  intros cfg first beats Hn. unfold sync.
  rewrite seconds_small by lia.
  destruct (Z.leb_spec (interval cfg * Second) 0) as [H | _];
    [change Second with 1000000000 in H; lia |].
  set (st0 := round first None _).
  destruct (syncLoop_returns beats st0) as (H1 & H2 & H3).
  refine (conj _ (conj _ (conj H1 (conj H2 (conj H3 _))))).
  - rewrite syncLoop_made. unfold st0. rewrite round_made, fn_GetRules.
    rewrite (map_ext _ (fun _ => 1%nat)) by (intros r; apply fn_GetRules).
    rewrite list_sum_ones. reflexivity.
  - rewrite syncLoop_made. unfold st0. rewrite round_made, fn_Reload.
    rewrite (map_ext _ (fun r => if written r then 1%nat else 0%nat))
      by (intros r; apply fn_Reload).
    rewrite list_sum_filter. cbn [filter made calls count_occ].
    destruct (written first); cbn [List.length]; lia.
  - intros d Hd. apply syncLoop_gauge in Hd as [Hd | Hd]; [| exact Hd].
    unfold st0, round in Hd. destruct (fn first) as [l err].
    destruct err; discriminate.
Qed.

(** A first round that finds no rules, then a good round, a full disk and
    again no rules, and the end of the context: four rounds, one reload. *)
Lemma sync_runs_a_round_on_every_tick_witness :
  made GetRules (done (sync (backendFlags "" "") noRules
                         [SyncTick goodRound Second; SyncTick diskFull Second;
                          SyncTick noRules Second; SyncDone; SyncTick goodRound Second]))
  = 4%nat
  /\ made Reload (done (sync (backendFlags "" "") noRules
                          [SyncTick goodRound Second; SyncTick diskFull Second;
                           SyncTick noRules Second; SyncDone; SyncTick goodRound Second]))
     = 1%nat.
Proof.
  destruct (sync_runs_a_round_on_every_tick (backendFlags "" "") noRules
              [SyncTick goodRound Second; SyncTick diskFull Second;
               SyncTick noRules Second; SyncDone; SyncTick goodRound Second])
    as (Hget & Hreload & _).
  - cbn. lia.
  - split; [exact Hget | exact Hreload].
Defined.

(** X21. When the interval computed from [-interval] is zero or less, as it is
    for [-interval 0], the sync loop makes its first round and then panics in
    [time.NewTicker], and the tenants reloader panics before it reads
    anything. *)
Theorem sync_panics_on_a_ticker_of_zero :
  forall (cfg : config) (first : Round) (beats : list Beat)
         (T : Type) (setter : tenant.tenantsSetter T) (events : list tenant.Event)
         (tenset : T),
    seconds (interval cfg) <= 0 ->
    (exists st, sync cfg first beats = SyncPanics st
                /\ calls st = fst (fn first)
                /\ gauge st = None)
    /\ tenant.newTenantsFileReloader events (seconds (interval cfg)) tenset
       = tenant.Panics.
Proof.
  intros cfg first beats T setter events tenset Hzero. split.
  - unfold sync. destruct (Z.leb_spec (seconds (interval cfg)) 0) as [_ | H]; [| lia].
    eexists. split; [reflexivity |].
    unfold round. destruct (fn first) as [l err]. cbn. destruct err; auto.
  - unfold tenant.newTenantsFileReloader.
    destruct (Z.leb_spec (Z.min (seconds (interval cfg)) (1 * Minute)) 0) as [_ | H];
      [reflexivity | lia].
Qed.

(** [-interval 0]. *)
Lemma sync_panics_on_a_ticker_of_zero_witness :
  (exists st,
      sync (every 0 (backendFlags "" "tenants.yaml")) goodRound [SyncTick goodRound Second]
      = SyncPanics st
      /\ calls st = [GetRules; Create; ReadFrom; CloseFile; Reload; CloseRules]
      /\ gauge st = None)
  /\ @tenant.newTenantsFileReloader _ tenant.fetcher_tenantsSetter
       [tenant.Tick (inr ["tenant1"])]
       (seconds (interval (every 0 (backendFlags "" "tenants.yaml"))))
       (twoTenants 200 ruleGroups)
     = tenant.Panics.
Proof.
  apply (sync_panics_on_a_ticker_of_zero (every 0 (backendFlags "" "tenants.yaml"))
           goodRound [SyncTick goodRound Second] _ _
           [tenant.Tick (inr ["tenant1"])] (twoTenants 200 ruleGroups)).
  vm_compute. discriminate.
Defined.

End SyncLoop.

